(** * Brand-content discovery pipeline: a shallow embedding

  The development follows the backend worker of the repository:
  - [UrlProcessor]: brand-discovery/url-processor.ts
  - [R2]: mcp/r2-upload-handler.ts and the /cleanup-r2 route of the worker
  - [Verify]: webhooks/verify.ts
  - [Db], [Webhook]: webhooks/firecrawl-handler.ts over the Supabase tables
  - [Cron]: the extract reconciler of the worker entry point
  - [Pipeline]: brand-discovery/pipeline.ts and services/async-jobs.ts

  JavaScript strings are modelled as [string], a sequence of 8-bit
  characters (the UTF-8 bytes of the text).  [toLowerCase] and [trim]
  act on the ASCII range, where they coincide with the JavaScript
  functions; bytes above 127 are left as they are. *)

From Stdlib Require Import ZArith NArith Ascii String List Bool Lia.
From stdpp Require Import base strings list gmap pretty sorting.

Local Open Scope string_scope.
Local Open Scope list_scope.

(** ** JavaScript string primitives used by the sources *)

Module Js.

Definition isEmpty (s : string) : bool :=
  match s with "" => true | String _ _ => false end.

(** [s.startsWith(p)] *)
Fixpoint startsWith (p s : string) : bool :=
  match p, s with
  | "", _ => true
  | String _ _, "" => false
  | String a p', String b s' => Ascii.eqb a b && startsWith p' s'
  end.

Fixpoint dropChars (n : nat) (s : string) : string :=
  match n, s with
  | O, _ => s
  | S _, "" => ""
  | S n', String _ s' => dropChars n' s'
  end.

(** [s.replace(/^p/, "")] for a literal prefix [p] *)
Definition removePrefix (p s : string) : string :=
  if startsWith p s then dropChars (String.length p) s else s.

(** [s.includes(needle)] *)
Fixpoint includes (needle s : string) : bool :=
  startsWith needle s ||
  match s with
  | "" => false
  | String _ s' => includes needle s'
  end.

Fixpoint hasChar (c : ascii) (s : string) : bool :=
  match s with
  | "" => false
  | String a s' => Ascii.eqb a c || hasChar c s'
  end.

(** [s.split(c)] for a one-character separator *)
Fixpoint split (c : ascii) (s : string) : list string :=
  match s with
  | "" => [""]
  | String a s' =>
      if Ascii.eqb a c then "" :: split c s'
      else match split c s' with
           | h :: t => String a h :: t
           | [] => [String a ""]
           end
  end.

(** [s.split(c)[0]] *)
Fixpoint beforeChar (c : ascii) (s : string) : string :=
  match s with
  | "" => ""
  | String a s' => if Ascii.eqb a c then "" else String a (beforeChar c s')
  end.

Fixpoint mapChars (f : ascii -> ascii) (s : string) : string :=
  match s with
  | "" => ""
  | String a s' => String (f a) (mapChars f s')
  end.

Definition inRange (lo hi : nat) (a : ascii) : bool :=
  let n := nat_of_ascii a in (lo <=? n)%nat && (n <=? hi)%nat.

Definition lowerChar (a : ascii) : ascii :=
  if inRange 65 90 a then ascii_of_nat (nat_of_ascii a + 32) else a.

Definition upperChar (a : ascii) : ascii :=
  if inRange 97 122 a then ascii_of_nat (nat_of_ascii a - 32) else a.

Definition toLowerCase : string -> string := mapChars lowerChar.
Definition toUpperCase : string -> string := mapChars upperChar.

Fixpoint trimStart (s : string) : string :=
  match s with
  | "" => ""
  | String a s' => if Ascii.is_space a then trimStart s' else s
  end.

Fixpoint trimEnd (s : string) : string :=
  match s with
  | "" => ""
  | String a s' =>
      let r := trimEnd s' in
      if Ascii.is_space a && isEmpty r then "" else String a r
  end.

(** [s.trim()] *)
Definition trim (s : string) : string := trimEnd (trimStart s).

(** [l.join(sep)] *)
Fixpoint join (sep : string) (l : list string) : string :=
  match l with
  | [] => ""
  | [x] => x
  | x :: rest => x +:+ sep +:+ join sep rest
  end.

(** [s.charAt(0)] and [s.slice(1)] *)
Definition charAt0 (s : string) : string :=
  match s with "" => "" | String a _ => String a "" end.
Definition slice1 (s : string) : string :=
  match s with "" => "" | String _ s' => s' end.

(** [x || d] on strings: the empty string is falsy *)
Definition orElse (x d : string) : string := if isEmpty x then d else x.

(** ** decodeURIComponent

    A percent sign must be followed by two hexadecimal digits; an escaped
    byte above 127 must start a well-formed UTF-8 sequence whose remaining
    bytes are escaped too.  Anything else raises URIError ([None]). *)

Definition hexDigit (a : ascii) : option N :=
  if inRange 48 57 a then Some (N_of_ascii a - 48)%N
  else if inRange 65 70 a then Some (N_of_ascii a - 55)%N
  else if inRange 97 102 a then Some (N_of_ascii a - 87)%N
  else None.

Inductive token := TLit (c : ascii) | TEsc (b : N).

Fixpoint tokens (s : string) : option (list token) :=
  match s with
  | "" => Some []
  | String a r =>
      if Ascii.eqb a "%"%char then
        match r with
        | String h1 (String h2 r') =>
            match hexDigit h1, hexDigit h2 with
            | Some x, Some y =>
                match tokens r' with
                | Some ts => Some (TEsc (16 * x + y)%N :: ts)
                | None => None
                end
            | _, _ => None
            end
        | _ => None
        end
      else
        match tokens r with
        | Some ts => Some (TLit a :: ts)
        | None => None
        end
  end.

Definition between (lo hi b : N) : bool := (lo <=? b)%N && (b <=? hi)%N.
Definition isCont (b : N) : bool := between 128 191 b.

Definition byteStr (bs : list N) (rest : string) : string :=
  fold_right (fun b acc => String (ascii_of_N b) acc) rest bs.

Fixpoint decodeTokens (ts : list token) : option string :=
  match ts with
  | [] => Some ""
  | TLit c :: r =>
      match decodeTokens r with Some s => Some (String c s) | None => None end
  | TEsc b :: r =>
      if (b <? 128)%N then
        match decodeTokens r with
        | Some s => Some (String (ascii_of_N b) s)
        | None => None
        end
      else if between 194 223 b then
        match r with
        | TEsc b1 :: r1 =>
            if isCont b1 then
              match decodeTokens r1 with
              | Some s => Some (byteStr [b; b1] s)
              | None => None
              end
            else None
        | _ => None
        end
      else if between 224 239 b then
        match r with
        | TEsc b1 :: TEsc b2 :: r2 =>
            if (if (b =? 224)%N then between 160 191 b1
                else if (b =? 237)%N then between 128 159 b1
                else isCont b1) && isCont b2 then
              match decodeTokens r2 with
              | Some s => Some (byteStr [b; b1; b2] s)
              | None => None
              end
            else None
        | _ => None
        end
      else if between 240 244 b then
        match r with
        | TEsc b1 :: TEsc b2 :: TEsc b3 :: r3 =>
            if (if (b =? 240)%N then between 144 191 b1
                else if (b =? 244)%N then between 128 143 b1
                else isCont b1) && isCont b2 && isCont b3 then
              match decodeTokens r3 with
              | Some s => Some (byteStr [b; b1; b2; b3] s)
              | None => None
              end
            else None
        | _ => None
        end
      else None
  end.

(** The tokens of a string without escapes. *)
Fixpoint literals (s : string) : list token :=
  match s with
  | "" => []
  | String a r => TLit a :: literals r
  end.

Definition decodeURIComponent (s : string) : option string :=
  match tokens s with
  | Some ts => decodeTokens ts
  | None => None
  end.

End Js.

(** ** brand-discovery/url-processor.ts *)

Module UrlProcessor.
Import Js.

(** [.replace(/^https?:\/\//, "")] *)
Definition stripScheme (s : string) : string :=
  if startsWith "http://" s then dropChars 7 s
  else if startsWith "https://" s then dropChars 8 s
  else s.

(** [.replace(/^www\./, "")] *)
Definition stripWww (s : string) : string := removePrefix "www." s.

(** The catch branch of [normalizeUrl]. *)
Definition normalizeFallback (input : string) : string :=
  trim (toLowerCase (stripWww (stripScheme input))).

(** [.split("/")[0]] followed by [.split(":")[0]] *)
Definition hostCut (s : string) : string := beforeChar ":" (beforeChar "/" s).

(** The try branch up to the test of the result. *)
Definition normalizeHost (decoded : string) : string :=
  trim (toLowerCase
          (hostCut (stripWww (stripScheme decoded)))).

(** [!decoded || !decoded.includes(".")] *)
Definition rejected (d : string) : bool :=
  isEmpty d || negb (includes "." d).

Definition normalizeUrl (input : string) : string :=
  if isEmpty input then ""
  else
    match decodeURIComponent input with
    | Some decoded =>
        let d := normalizeHost decoded in
        if rejected d
        then normalizeFallback input
        else d
    | None => normalizeFallback input
    end.

End UrlProcessor.

(** ** Platform interfaces

    [new URL(s)] is the runtime's parser: [None] stands for the TypeError it
    throws on an invalid URL.  The functions below take any parser. *)

Record ParsedUrl := { hostname : string; pathname : string }.

Class UrlApi := parseUrl : string -> option ParsedUrl.

(** A value caught by a [catch] clause: an [Error] with its message, or
    anything else. *)
Inductive thrown :=
| ThrownError (name message : string)
| ThrownOther (text : string).

(** [error instanceof Error ? error.message : fallback] *)
Definition messageOr (fallback : string) (t : thrown) : string :=
  match t with
  | ThrownError _ m => m
  | ThrownOther _ => fallback
  end.

(** The text of a thrown value inside a template literal. *)
Definition thrownText (t : thrown) : string :=
  match t with
  | ThrownError n m =>
      if Js.isEmpty m then n else if Js.isEmpty n then m else n +:+ ": " +:+ m
  | ThrownOther text => text
  end.

Inductive outcome (A : Type) :=
| Returned (a : A)
| Threw (t : thrown).
Arguments Returned {A} a.
Arguments Threw {A} t.

(** ** mcp/r2-upload-handler.ts *)

Module R2.
Import Js.

Definition nl : string := String (ascii_of_nat 10) "".
Definition dquote : string := String (ascii_of_nat 34) "".
Definition backslash : string := String (ascii_of_nat 92) "".

Record R2Object := {
  obj_size : nat;
  obj_body : string;
  obj_contentType : string;
  obj_contentEncoding : string;
  obj_customMetadata : gmap string string
}.

(** The bucket: object keys to stored objects. *)
Abbreviation Bucket := (gmap string R2Object).

Record ContentItem := {
  url : string;
  title : string;
  content : string;
  processed_content : option string;
  contentType : option string;
  images : option (list string)
}.

Record UploadOptions := {
  overwrite : bool;
  generateMetadata : bool;
  skipSupabaseStorage : bool
}.

Record R2UploadRequest := {
  req_brandId : string;
  req_domain : string;
  req_content : option (list ContentItem);
  req_options : option UploadOptions
}.

Record UploadResult := {
  res_url : string;
  res_r2Key : string;
  res_success : bool;
  res_size : option nat;
  res_error : option string
}.

Record Summary := {
  total : nat;
  successful : nat;
  failed : nat;
  totalSize : nat
}.

Record R2UploadResponse := {
  resp_success : bool;
  resp_brandId : string;
  resp_domain : string;
  results : list UploadResult;
  summary : Summary
}.

(** What one call of [uploadSingleContent] reads from its surroundings:
    the three clock reads and the faults of the two bucket calls. *)
Record CallEnv := {
  nowMs : N;               (* Date.now() in generateR2Key *)
  nowIso : string;         (* new Date().toISOString() in formatAsMarkdown *)
  uploadedAt : string;     (* new Date().toISOString() for the metadata *)
  headThrows : option thrown;
  putThrows : option thrown
}.

(** [options?.overwrite] as a condition *)
Definition overwriteRequested (o : option UploadOptions) : bool :=
  match o with
  | Some opts => overwrite opts
  | None => false
  end.

(** [x || d] for an optional string field *)
Definition optOr (x : option string) (d : string) : string :=
  match x with
  | Some s => orElse s d
  | None => d
  end.

(** *** generateR2Key *)

(** [filename.replace(/\.[^/.]+$/, "")] *)
Fixpoint stripExtension (s : string) : string :=
  match s with
  | "" => ""
  | String a r =>
      if Ascii.eqb a "." && negb (isEmpty r)
         && negb (hasChar "." r) && negb (hasChar "/" r)
      then ""
      else String a (stripExtension r)
  end.

Definition isKeyChar (a : ascii) : bool :=
  inRange 97 122 a || inRange 65 90 a || inRange 48 57 a
  || Ascii.eqb a "-" || Ascii.eqb a "_".

(** [.replace(/[^a-zA-Z0-9\-_]/g, "-")] *)
Definition dashOthers : string -> string :=
  mapChars (fun a => if isKeyChar a then a else "-"%char).

(** [.replace(/--+/g, "-")] *)
Fixpoint collapseDashes (s : string) : string :=
  match s with
  | "" => ""
  | String a r =>
      if Ascii.eqb a "-" && startsWith "-" r
      then collapseDashes r
      else String a (collapseDashes r)
  end.

Fixpoint dropLastDash (s : string) : string :=
  match s with
  | "" => ""
  | String a r =>
      if Ascii.eqb a "-" && isEmpty r then "" else String a (dropLastDash r)
  end.

(** [.replace(/^-|-$/g, "")] *)
Definition trimDashes (s : string) : string :=
  dropLastDash (removePrefix "-" s).

Definition sanitizeFilename (s : string) : string :=
  trimDashes (collapseDashes (dashOthers s)).

(** [pathname.split("/").filter(Boolean)] *)
Definition pathSegmentsOf (path : string) : list string :=
  List.filter (fun seg => negb (isEmpty seg)) (split "/" path).

Definition categorizeContent (pathSegments : list string) : string :=
  let path := toLowerCase (join "/" pathSegments) in
  if includes "product" path || includes "model" path || includes "car" path
  then "products"
  else if includes "news" path || includes "blog" path || includes "article" path
  then "news"
  else if includes "about" path || includes "company" path || includes "history" path
  then "about"
  else if includes "service" path || includes "support" path
          || includes "maintenance" path
  then "services"
  else if includes "contact" path || includes "location" path
          || includes "dealer" path
  then "contact"
  else if includes "gallery" path || includes "image" path || includes "media" path
  then "media"
  else "pages".

Definition generateR2Key `{UrlApi} (brandPrefix url : string) (index : nat)
    (now : N) : string :=
  match parseUrl url with
  | Some u =>
      let pathSegments := pathSegmentsOf (pathname u) in
      let filename := List.last pathSegments "index" in
      let filename := stripExtension filename in
      let filename := orElse filename ("page-" +:+ pretty index) in
      let filename := sanitizeFilename filename in
      let contentType := categorizeContent pathSegments in
      brandPrefix +:+ "/content/" +:+ contentType +:+ "/" +:+ filename
        +:+ "-" +:+ pretty now +:+ ".md"
  | None =>
      brandPrefix +:+ "/content/pages/page-" +:+ pretty index
        +:+ "-" +:+ pretty now +:+ ".md"
  end.

(** *** getBrandR2Prefix *)

Definition getBrandR2Prefix (domain : string) : string :=
  "brands/" +:+
  toLowerCase (UrlProcessor.stripWww (UrlProcessor.stripScheme domain)).

(** *** formatAsMarkdown *)

Definition hexLower (n : nat) : string :=
  String (ascii_of_nat (if (n <? 10)%nat then 48 + n else 87 + n)) "".

(** One character of a JSON string literal. *)
Definition jsonChar (a : ascii) : string :=
  let n := nat_of_ascii a in
  if (n =? 34)%nat then backslash +:+ dquote
  else if (n =? 92)%nat then backslash +:+ backslash
  else if (n =? 8)%nat then backslash +:+ "b"
  else if (n =? 9)%nat then backslash +:+ "t"
  else if (n =? 10)%nat then backslash +:+ "n"
  else if (n =? 12)%nat then backslash +:+ "f"
  else if (n =? 13)%nat then backslash +:+ "r"
  else if (n <? 32)%nat
  then backslash +:+ "u00" +:+ hexLower (n / 16) +:+ hexLower (n mod 16)
  else String a "".

Fixpoint jsonChars (s : string) : string :=
  match s with
  | "" => ""
  | String a r => jsonChar a +:+ jsonChars r
  end.

(** [JSON.stringify] of an array of strings *)
Definition jsonStringArray (l : list string) : string :=
  "[" +:+ join "," (List.map (fun s => dquote +:+ jsonChars s +:+ dquote) l) +:+ "]".

Fixpoint imageLines (i : nat) (imgs : list string) : list string :=
  match imgs with
  | [] => []
  | img :: rest =>
      ("![Product Image " +:+ pretty (i + 1)%nat +:+ "](" +:+ img +:+ ")")
        :: imageLines (S i) rest
  end.

Definition formatAsMarkdown (item : ContentItem) (index : nat)
    (timestamp : string) : string :=
  let imgs := default [] (images item) in
  let hasImages := negb (Nat.eqb (List.length imgs) 0) in
  let imageSection :=
    if hasImages
    then nl +:+ "## Product Images" +:+ nl +:+ join nl (imageLines 0 imgs) +:+ nl
    else "" in
  let titleText := orElse (title item) "Untitled" in
  let typeText := optOr (contentType item) "page" in
  "---" +:+ nl +:+
  "title: " +:+ titleText +:+ nl +:+
  "url: " +:+ url item +:+ nl +:+
  "extracted_at: " +:+ timestamp +:+ nl +:+
  "content_type: " +:+ typeText +:+ nl +:+
  "index: " +:+ pretty index +:+ nl +:+
  "images: " +:+ jsonStringArray imgs +:+ nl +:+
  "---" +:+ nl +:+
  nl +:+
  "# " +:+ titleText +:+ nl +:+
  nl +:+
  "**Source URL:** [" +:+ url item +:+ "](" +:+ url item +:+ ")" +:+ nl +:+
  "**Extracted:** " +:+ timestamp +:+ nl +:+
  "**Content Type:** " +:+ typeText +:+ nl +:+
  (if hasImages then "**Images Found:** " +:+ pretty (List.length imgs) else "")
    +:+ nl +:+
  imageSection +:+ nl +:+
  "## Content" +:+ nl +:+
  nl +:+
  orElse (optOr (processed_content item) (content item)) "No content available"
    +:+ nl +:+
  nl +:+
  "---" +:+ nl +:+
  nl +:+
  "*Content extracted and processed by Tedix Brand Pipeline*" +:+ nl +:+
  "*Stored with multitenancy isolation in R2*" +:+ nl.

(** *** uploadSingleContent

    The function runs up to its first bucket call, is suspended there, and
    finishes when the call returns.  [prepare] is the part before the [put]:
    the key, the existence check (unless overwrite is requested) and the
    formatted body; [finish] is the [put] and the result. *)

Record PutRequest := {
  put_url : string;
  put_key : string;
  put_body : string;
  put_metadata : gmap string string;
  put_throws : option thrown
}.

Inductive prepared :=
| Settled (r : UploadResult)
| Pending (p : PutRequest).

Definition failure (itemUrl : string) (t : thrown) : UploadResult :=
  {| res_url := itemUrl; res_r2Key := ""; res_success := false;
     res_size := None; res_error := Some (messageOr "Upload failed" t) |}.

Definition customMetadata (brandPrefix : string) (item : ContentItem)
    (uploaded : string) : gmap string string :=
  let m : gmap string string :=
    <["brand-prefix" := brandPrefix]>
      (<["uploaded-at" := uploaded]>
         (<["content-type" := optOr (contentType item) "page"]>
            (<["original-url" := url item]> ∅))) in
  if isEmpty (title item) then m else <["title" := title item]> m.

Definition putRequest `{UrlApi} (brandPrefix : string) (item : ContentItem)
    (index : nat) (e : CallEnv) (r2Key : string) : PutRequest :=
  {| put_url := url item;
     put_key := r2Key;
     put_body := formatAsMarkdown item index (nowIso e);
     put_metadata := customMetadata brandPrefix item (uploadedAt e);
     put_throws := putThrows e |}.

Definition prepare `{UrlApi} (bucket : Bucket) (brandPrefix : string)
    (item : ContentItem) (index : nat) (options : option UploadOptions)
    (e : CallEnv) : prepared :=
  let r2Key := generateR2Key brandPrefix (url item) index (nowMs e) in
  if overwriteRequested options
  then Pending (putRequest brandPrefix item index e r2Key)
  else
    match headThrows e with
    | Some t => Settled (failure (url item) t)
    | None =>
        match bucket !! r2Key with
        | Some existing =>
            Settled {| res_url := url item; res_r2Key := r2Key;
                       res_success := true;
                       res_size := Some (obj_size existing);
                       res_error := None |}
        | None => Pending (putRequest brandPrefix item index e r2Key)
        end
    end.

Definition storedObject (p : PutRequest) : R2Object :=
  {| obj_size := String.length (put_body p);
     obj_body := put_body p;
     obj_contentType := "text/markdown";
     obj_contentEncoding := "utf-8";
     obj_customMetadata := put_metadata p |}.

Definition finish (bucket : Bucket) (pr : prepared) : UploadResult * Bucket :=
  match pr with
  | Settled r => (r, bucket)
  | Pending p =>
      match put_throws p with
      | Some t => (failure (put_url p) t, bucket)
      | None =>
          ({| res_url := put_url p; res_r2Key := put_key p;
              res_success := true;
              res_size := Some (String.length (put_body p));
              res_error := None |},
           <[put_key p := storedObject p]> bucket)
      end
  end.

Definition uploadSingleContent `{UrlApi} (bucket : Bucket) (brandPrefix : string)
    (item : ContentItem) (index : nat) (options : option UploadOptions)
    (e : CallEnv) : UploadResult * Bucket :=
  finish bucket (prepare bucket brandPrefix item index options e).

(** *** uploadBrandContent *)

Definition BATCH_SIZE : nat := 5.

(** The slices [content.slice(i, i + size)] for [i = 0, size, 2 size, ...] *)
Fixpoint slicesFrom {A : Type} (fuel size : nat) (l : list A) : list (list A) :=
  match fuel with
  | O => []
  | S fuel' =>
      match l with
      | [] => []
      | _ :: _ => take size l :: slicesFrom fuel' size (drop size l)
      end
  end.

Definition slices {A : Type} (size : nat) (l : list A) : list (list A) :=
  slicesFrom (List.length l) size l.

(** Items with their global index [i + batchIndex]. *)
Definition indexed {A : Type} (l : list A) : list (nat * A) :=
  List.combine (List.seq 0 (List.length l)) l.

(** One batch: every upload of the batch is started before any of them
    resumes, so the existence checks see the bucket as it is when the batch
    starts; the puts then land one after the other. *)
Fixpoint finishAll (bucket : Bucket) (prs : list prepared)
    : list UploadResult * Bucket :=
  match prs with
  | [] => ([], bucket)
  | pr :: rest =>
      let '(r, bucket1) := finish bucket pr in
      let '(rs, bucket2) := finishAll bucket1 rest in
      (r :: rs, bucket2)
  end.

Definition runBatch `{UrlApi} (bucket : Bucket) (brandPrefix : string)
    (options : option UploadOptions) (env : nat -> CallEnv)
    (batch : list (nat * ContentItem)) : list UploadResult * Bucket :=
  finishAll bucket
    (List.map (fun '(i, item) => prepare bucket brandPrefix item i options (env i))
       batch).

(** The [forEach] over the settled results of a batch. *)
Definition recordResult (resp : R2UploadResponse)
    (entry : (nat * ContentItem) * UploadResult) : R2UploadResponse :=
  let '((_, item), r) := entry in
  let s := summary resp in
  if res_success r then
    {| resp_success := resp_success resp;
       resp_brandId := resp_brandId resp;
       resp_domain := resp_domain resp;
       results := results resp ++ [r];
       summary := {| total := total s;
                     successful := S (successful s);
                     failed := failed s;
                     totalSize := totalSize s + default 0 (res_size r) |} |}
  else
    {| resp_success := resp_success resp;
       resp_brandId := resp_brandId resp;
       resp_domain := resp_domain resp;
       results := results resp ++
                  [{| res_url := url item; res_r2Key := ""; res_success := false;
                      res_size := None;
                      res_error := Some (optOr (res_error r) "Unknown error") |}];
       summary := {| total := total s;
                     successful := successful s;
                     failed := S (failed s);
                     totalSize := totalSize s |} |}.

Fixpoint runBatches `{UrlApi} (bucket : Bucket) (brandPrefix : string)
    (options : option UploadOptions) (env : nat -> CallEnv)
    (batches : list (list (nat * ContentItem))) (resp : R2UploadResponse)
    : R2UploadResponse * Bucket :=
  match batches with
  | [] => (resp, bucket)
  | batch :: rest =>
      let '(batchResults, bucket1) := runBatch bucket brandPrefix options env batch in
      let resp1 := List.fold_left recordResult (List.combine batch batchResults) resp in
      runBatches bucket1 brandPrefix options env rest resp1
  end.

Definition initialResponse (request : R2UploadRequest) (n : nat) : R2UploadResponse :=
  {| resp_success := false;
     resp_brandId := req_brandId request;
     resp_domain := req_domain request;
     results := [];
     summary := {| total := n; successful := 0; failed := 0; totalSize := 0 |} |}.

Definition withSuccess (resp : R2UploadResponse) : R2UploadResponse :=
  {| resp_success := negb (Nat.eqb (successful (summary resp)) 0);
     resp_brandId := resp_brandId resp;
     resp_domain := resp_domain resp;
     results := results resp;
     summary := summary resp |}.

(** [request.content.length] is read while the response literal is built:
    an absent [content] raises a TypeError before the guard that follows. *)
Definition uploadBrandContent `{UrlApi} (bucket : Bucket)
    (request : R2UploadRequest) (env : nat -> CallEnv)
    : outcome R2UploadResponse * Bucket :=
  match req_content request with
  | None =>
      (Threw (ThrownError "TypeError"
                "Cannot read properties of undefined (reading 'length')"),
       bucket)
  | Some items =>
      let response := initialResponse request (List.length items) in
      match items with
      | [] => (Returned response, bucket)
      | _ :: _ =>
          let brandPrefix := getBrandR2Prefix (req_domain request) in
          let '(resp, bucket1) :=
            runBatches bucket brandPrefix (req_options request) env
              (slices BATCH_SIZE (indexed items)) response in
          (Returned (withSuccess resp), bucket1)
      end
  end.

(** *** Bucket listing and deletion

    [bucket.list({ prefix })] returns the keys under the prefix in key
    order, at most [R2_LIST_LIMIT] of them per call; the sources never ask
    for the next page. *)

Definition R2_LIST_LIMIT : nat := 1000.

Definition underPrefix (prefix : string) (entry : string * R2Object) : Prop :=
  startsWith prefix entry.1 = true.

#[global] Instance underPrefix_dec prefix entry : Decision (underPrefix prefix entry).
Proof. unfold underPrefix. apply _. Defined.

Definition keysUnder (bucket : Bucket) (prefix : string) : list string :=
  merge_sort String.le
    ((map_to_list (filter (underPrefix prefix) bucket)).*1).

Definition listKeys (bucket : Bucket) (prefix : string) : list string :=
  take R2_LIST_LIMIT (keysUnder bucket prefix).

(** Faults of the bucket calls: a listing that rejects (with the text of
    the error) and deletes that reject. *)
Record BucketFaults := {
  listThrows : string -> option thrown;
  deleteThrows : string -> bool
}.

Definition noFaults : BucketFaults :=
  {| listThrows := fun _ => None; deleteThrows := fun _ => false |}.

(** A group of deletes that are in flight together: the bucket loses the
    keys whose delete does not reject. *)
Definition deleteGroup (faults : BucketFaults) (bucket : Bucket)
    (keys : list string) : Bucket :=
  List.fold_left
    (fun b k => if deleteThrows faults k then b else delete k b) keys bucket.

(** The groups of deletes issued, in order. *)
Abbreviation DeleteTrace := (list (list string)).

(** *** deleteBrandContent *)

Definition DELETE_BATCH_SIZE : nat := 100.

Definition listBrandContent (faults : BucketFaults) (bucket : Bucket)
    (domain : string) (prefix : option string) : outcome (list string) :=
  let brandPrefix := getBrandR2Prefix domain in
  let listPrefix :=
    match prefix with
    | Some p => if isEmpty p then brandPrefix +:+ "/"
                else brandPrefix +:+ "/" +:+ p
    | None => brandPrefix +:+ "/"
    end in
  match listThrows faults listPrefix with
  | Some err => Threw err
  | None => Returned (listKeys bucket listPrefix)
  end.

Definition deleteBrandContent (faults : BucketFaults) (bucket : Bucket)
    (domain : string) (prefix : option string)
    : outcome unit * Bucket * DeleteTrace :=
  match listBrandContent faults bucket domain prefix with
  | Threw err => (Threw err, bucket, [])
  | Returned objects =>
      let batches := slices DELETE_BATCH_SIZE objects in
      (Returned tt, List.fold_left (deleteGroup faults) batches bucket, batches)
  end.

(** *** handleR2Cleanup (the /cleanup-r2 route) *)

Record CleanupRequest := { brandsToKeep : option (list string) }.

Inductive CleanupResponse :=
| NoObjects                        (* 200, "No objects found in bucket" *)
| CleanupCompleted (brandsKept deletedFolders errors : list string)
    (totalBrandFolders kept : nat)  (* 200, "Cleanup completed successfully" *)
| CleanupFailed (details : string). (* 500, "Cleanup failed" *)

Definition inList (x : string) (l : list string) : bool :=
  List.existsb (String.eqb x) l.

(** [pathParts[1]] when the key has the shape "brands/<folder>..." *)
Definition folderOf (key : string) : option string :=
  match split "/" key with
  | p0 :: p1 :: _ => if String.eqb p0 "brands" then Some p1 else None
  | _ => None
  end.

(** [Set.add]: insertion order, no repetition *)
Definition setAdd (s : list string) (x : string) : list string :=
  if inList x s then s else s ++ [x].

Definition brandFoldersOf (keys : list string) : list string :=
  List.fold_left
    (fun s key => match folderOf key with Some f => setAdd s f | None => s end)
    keys [].

Record CleanupState := {
  cs_bucket : Bucket;
  cs_deletedFolders : list string;
  cs_errors : list string;
  cs_trace : DeleteTrace
}.

Definition folderPrefix (brandFolder : string) : string :=
  "brands/" +:+ brandFolder +:+ "/".

(** The body of the loop over the brand folders. *)
Definition cleanupFolder (faults : BucketFaults) (keep : list string)
    (st : CleanupState) (brandFolder : string) : CleanupState :=
  if inList brandFolder keep then st
  else
    match listThrows faults (folderPrefix brandFolder) with
    | Some err =>
        {| cs_bucket := cs_bucket st;
           cs_deletedFolders := cs_deletedFolders st;
           cs_errors := cs_errors st ++
             ["Failed to delete brand folder " +:+ brandFolder +:+ ": "
                +:+ thrownText err];
           cs_trace := cs_trace st |}
    | None =>
        match listKeys (cs_bucket st) (folderPrefix brandFolder) with
        | [] => st
        | (_ :: _) as keys =>
            {| cs_bucket := deleteGroup faults (cs_bucket st) keys;
               cs_deletedFolders := cs_deletedFolders st ++ [brandFolder];
               cs_errors := cs_errors st;
               cs_trace := cs_trace st ++ [keys] |}
        end
    end.

Definition defaultBrandsToKeep : list string := ["nosana.io"; "mastra"].

Definition handleR2Cleanup (faults : BucketFaults) (bucket : Bucket)
    (request : CleanupRequest) : CleanupResponse * Bucket * DeleteTrace :=
  let keep := default defaultBrandsToKeep (brandsToKeep request) in
  match listThrows faults "brands/" with
  | Some err => (CleanupFailed (messageOr "Unknown error" err), bucket, [])
  | None =>
      match listKeys bucket "brands/" with
      | [] => (NoObjects, bucket, [])
      | (_ :: _) as keys =>
          let brandFolders := brandFoldersOf keys in
          let st :=
            List.fold_left (cleanupFolder faults keep) brandFolders
              {| cs_bucket := bucket; cs_deletedFolders := [];
                 cs_errors := []; cs_trace := [] |} in
          (CleanupCompleted keep (cs_deletedFolders st) (cs_errors st)
             (List.length brandFolders)
             (List.length (List.filter (fun b => inList b brandFolders) keep)),
           cs_bucket st, cs_trace st)
      end
  end.

(** A key that lies under "brands/<folder>/" for a folder outside the
    keep-list. *)
Definition doomed (keep : list string) (key : string) : bool :=
  match folderOf key with
  | Some f => negb (inList f keep) && startsWith (folderPrefix f) key
  | None => false
  end.


(** Some folder of [folders] outside the keep-list has [key] under it. *)
Definition hitBy (keep folders : list string) (key : string) : bool :=
  List.existsb
    (fun f => negb (inList f keep) && startsWith (folderPrefix f) key) folders.

(** The state of the loop once the folders [fs] have been visited. *)
Record cleanupInv (bucket : Bucket) (keep fs : list string) (st : CleanupState)
    : Prop := {
  inv_lookup : forall k,
    cs_bucket st !! k = if hitBy keep fs k then None else bucket !! k;
  inv_trace :
    cs_trace st
    = List.map (fun f => keysUnder bucket (folderPrefix f)) (cs_deletedFolders st);
  inv_errors : cs_errors st = []
}.

Definition deletedFoldersOf (resp : CleanupResponse) : list string :=
  match resp with
  | CleanupCompleted _ deleted _ _ _ => deleted
  | _ => []
  end.


(** An object of [b] is as in [bucket], or it was doomed and is gone. *)
Definition spared (bucket : Bucket) (keep : list string) (b : Bucket) : Prop :=
  forall k, b !! k = bucket !! k \/ (doomed keep k = true /\ b !! k = None).

(** The prefix that [listBrandContent] lists. *)
Definition brandListPrefix (domain : string) (prefix : option string) : string :=
  match prefix with
  | Some p => if isEmpty p then getBrandR2Prefix domain +:+ "/"
              else getBrandR2Prefix domain +:+ "/" +:+ p
  | None => getBrandR2Prefix domain +:+ "/"
  end.

(** The folder name under "brands/" that a domain is stored in. *)
Definition brandFolderOf (domain : string) : string :=
  toLowerCase (UrlProcessor.stripWww (UrlProcessor.stripScheme domain)).


(** A result that reports failure carries no key and no size. *)
Definition failedShape (r : UploadResult) : Prop :=
  res_success r = false -> res_r2Key r = "" /\ res_size r = None.

(** *** Shapes of file names and keys *)

Fixpoint allChars (p : ascii -> bool) (s : string) : bool :=
  match s with
  | "" => true
  | String a r => p a && allChars p r
  end.

(** [s.endsWith("-")] *)
Fixpoint endsWithDash (s : string) : bool :=
  match s with
  | "" => false
  | String a r => if isEmpty r then Ascii.eqb a "-" else endsWithDash r
  end.

(** [s.endsWith(suffix)] *)
Fixpoint endsWith (suffix s : string) : bool :=
  String.eqb s suffix ||
  match s with
  | "" => false
  | String _ r => endsWith suffix r
  end.


(** The sum of the [size] fields of the successful results. *)
Definition successfulSize (rs : list UploadResult) : nat :=
  list_sum (List.map (fun r => default 0 (res_size r)) (List.filter res_success rs)).

Definition successCount (rs : list UploadResult) : nat :=
  List.length (List.filter res_success rs).

(** The state of the response after [k] items have been recorded. *)
Record tally (n k : nat) (resp : R2UploadResponse) : Prop := {
  tally_total : total (summary resp) = n;
  tally_results : List.length (results resp) = k;
  tally_split : successful (summary resp) + failed (summary resp) = k;
  tally_successful : successful (summary resp) = successCount (results resp);
  tally_size : totalSize (summary resp) = successfulSize (results resp)
}.

End R2.

(** ** A parser for plain URLs

    [plainUrl] splits "http(s)://host/path?query#fragment" and accepts
    nothing else.  It agrees with the runtime's parser on URLs without
    credentials, port, dot segments and characters that the parser would
    re-encode, and serves to run the functions on such inputs. *)

Definition plainUrl : UrlApi := fun s =>
  let rest :=
    if Js.startsWith "http://" s then Some (Js.dropChars 7 s)
    else if Js.startsWith "https://" s then Some (Js.dropChars 8 s)
    else None in
  match rest with
  | None => None
  | Some r =>
      let r := Js.beforeChar "#" (Js.beforeChar "?" r) in
      let host := Js.beforeChar "/" r in
      let path := Js.dropChars (String.length host) r in
      if Js.isEmpty host then None
      else Some {| hostname := Js.toLowerCase host;
                   pathname := Js.orElse path "/" |}
  end.

(** ** webhooks/verify.ts

    [crypto.subtle] is the runtime's: [hmacSha256 key message] stands for
    the 32 bytes that signing [message] under the imported [key] yields. *)

Class HmacApi := hmacSha256 : string -> string -> string.

Module Verify.
Import Js.

Record Request := {
  signatureHeader : option string;   (* X-Firecrawl-Signature *)
  requestBody : string
}.

(** [b.toString(16).padStart(2, "0")] for the bytes of the signature *)
Definition hexByte (a : ascii) : string :=
  let n := nat_of_ascii a in R2.hexLower (n / 16) +:+ R2.hexLower (n mod 16).

Fixpoint hexOf (bytes : string) : string :=
  match bytes with
  | "" => ""
  | String a rest => hexByte a +:+ hexOf rest
  end.

Definition expectedSignature `{HmacApi} (webhookSecret body : string) : string :=
  hexOf (hmacSha256 webhookSecret body).

Definition rejectedRequest : bool * string := (false, "").

(** The pair is [{ isValid, body }].  Importing an empty key raises a
    DataError, and the length of an absent hash a TypeError; both end in the
    catch clause. *)
Definition verifyWebhookSignature `{HmacApi} (request : Request)
    (webhookSecret : string) : bool * string :=
  match signatureHeader request with
  | None => rejectedRequest
  | Some signature =>
      if isEmpty signature then rejectedRequest
      else
        match split "=" signature with
        | [] => rejectedRequest
        | algorithm :: parts =>
            if negb (String.eqb algorithm "sha256") then rejectedRequest
            else
              let body := requestBody request in
              if isEmpty webhookSecret then rejectedRequest
              else
                match parts with
                | [] => rejectedRequest
                | hash :: _ =>
                    (Nat.eqb (String.length hash)
                       (String.length (expectedSignature webhookSecret body))
                     && String.eqb hash (expectedSignature webhookSecret body),
                     body)
                end
        end
  end.

(** The header a sender who knows the secret attaches. *)
Definition signedHeader `{HmacApi} (webhookSecret body : string) : string :=
  "sha256=" +:+ expectedSignature webhookSecret body.

(** [s'] is [s] with the byte at one position replaced by another byte. *)
Definition oneByteChanged (s s' : string) : Prop :=
  exists pre a b post,
    a <> b /\ s = pre +:+ String a post /\ s' = pre +:+ String b post.

End Verify.


(** ** The Supabase tables

    Rows carry the columns the worker reads or writes.  A query builder call
    never throws: a failed call gives back an error object that most call
    sites ignore, and the table stays as it was. *)

Module Db.
Import Js.

(** JSON values as they occur in the extraction result: the schema of the
    extract job asks for strings; null and booleans are kept as well. *)
Inductive jsval :=
| JNull
| JBool (b : bool)
| JStr (s : string).

Definition truthy (v : jsval) : bool :=
  match v with
  | JNull => false
  | JBool b => b
  | JStr s => negb (isEmpty s)
  end.

(** [obj.key || d]; an absent key reads as undefined *)
Definition orJs (x : option jsval) (d : jsval) : jsval :=
  match x with
  | Some v => if truthy v then v else d
  | None => d
  end.

(** A value inside a template literal. *)
Definition jsText (v : jsval) : string :=
  match v with
  | JNull => "null"
  | JBool true => "true"
  | JBool false => "false"
  | JStr s => s
  end.

Record BrandRow := {
  b_id : string;
  b_owner_id : option string;
  b_primary_domain : string;
  b_name : jsval;
  b_description : jsval;
  b_logo_url : jsval;
  b_metadata : gmap string jsval;
  b_crawl_status : string;
  b_is_public : bool;
  b_created_at : string;
  b_updated_at : string
}.

Record MappingRow := {
  m_id : string;
  m_brand_id : string;
  m_domain : string;
  m_status : string;
  m_progress_percentage : nat;
  m_current_step : string;
  m_error_message : option string;
  m_started_at : option string;
  m_updated_at : option string;
  m_completed_at : option string;
  m_urls_discovered : nat;
  m_company_info_count : nat;
  m_blog_count : nat;
  m_docs_count : nat;
  m_ecommerce_count : nat;
  m_total_urls : nat
}.

Record BrandUrlRow := {
  u_brand_id : string;
  u_mapping_id : string;
  u_url : string;
  u_title : option string;
  u_description : option string;
  u_category : string;
  u_priority : nat;
  u_status : string;
  u_scraped_at : option string;
  u_image_count : nat;
  u_content_size : nat;
  u_uploading_started_at : option string;
  u_uploaded_at : option string;
  u_r2_key : option string;
  u_error_message : option string
}.

Record Database := {
  brands : list BrandRow;
  playground_url_mappings : list MappingRow;
  brand_urls : list BrandUrlRow
}.

(** [.update(f).eq(...)]: every row that passes the filter is rewritten. *)
Definition updateWhere {A : Type} (p : A -> bool) (f : A -> A) (rows : list A)
    : list A :=
  List.map (fun r => if p r then f r else r) rows.

Definition withBrands (d : Database) (rows : list BrandRow) : Database :=
  {| brands := rows;
     playground_url_mappings := playground_url_mappings d;
     brand_urls := brand_urls d |}.

Definition withMappings (d : Database) (rows : list MappingRow) : Database :=
  {| brands := brands d;
     playground_url_mappings := rows;
     brand_urls := brand_urls d |}.

Definition withBrandUrls (d : Database) (rows : list BrandUrlRow) : Database :=
  {| brands := brands d;
     playground_url_mappings := playground_url_mappings d;
     brand_urls := rows |}.

(** The state a handler runs against.  [dbFaults] says, call by call, which
    of the coming database calls fail ([true]); past its end every call
    succeeds.  [clockReads] counts the reads of the clock.  [urlStatusLog]
    keeps every status value sent to a brand_urls row, applied or not. *)
Record World := {
  db : Database;
  bucket : gmap string R2.R2Object;
  dbFaults : list bool;
  clockReads : nat;
  urlStatusLog : list string
}.

(** What the runtime supplies to one invocation: the instants returned by
    [new Date().toISOString()], read after read, and the surroundings of
    each single upload. *)
Record Runtime := {
  isoAt : nat -> string;
  uploadEnvAt : nat -> R2.CallEnv
}.

Definition readClock (rt : Runtime) (w : World) : string * World :=
  (isoAt rt (clockReads w),
   {| db := db w; bucket := bucket w; dbFaults := dbFaults w;
      clockReads := S (clockReads w); urlStatusLog := urlStatusLog w |}).

(** The next database call: does it fail, and the world after it. *)
Definition nextCall (w : World) : bool * World :=
  match dbFaults w with
  | [] => (false, w)
  | fails :: rest =>
      (fails,
       {| db := db w; bucket := bucket w; dbFaults := rest;
          clockReads := clockReads w; urlStatusLog := urlStatusLog w |})
  end.

Definition withDb (w : World) (d : Database) : World :=
  {| db := d; bucket := bucket w; dbFaults := dbFaults w;
     clockReads := clockReads w; urlStatusLog := urlStatusLog w |}.

Definition withBucket (w : World) (b : gmap string R2.R2Object) : World :=
  {| db := db w; bucket := b; dbFaults := dbFaults w;
     clockReads := clockReads w; urlStatusLog := urlStatusLog w |}.

Definition logUrlStatus (w : World) (status : string) : World :=
  {| db := db w; bucket := bucket w; dbFaults := dbFaults w;
     clockReads := clockReads w; urlStatusLog := urlStatusLog w ++ [status] |}.

(** A write to one table; [true] in the result says the call failed. *)
Definition writeDb (w : World) (change : Database -> Database) : bool * World :=
  let '(fails, w1) := nextCall w in
  if fails then (true, w1) else (false, withDb w1 (change (db w1))).

Definition updateBrandUrls (w : World) (status : string)
    (p : BrandUrlRow -> bool) (f : BrandUrlRow -> BrandUrlRow) : World :=
  snd (writeDb (logUrlStatus w status)
         (fun d => withBrandUrls d (updateWhere p f (brand_urls d)))).

Definition updateMappings (w : World)
    (p : MappingRow -> bool) (f : MappingRow -> MappingRow) : World :=
  snd (writeDb w
         (fun d => withMappings d (updateWhere p f (playground_url_mappings d)))).

Definition updateBrands (w : World)
    (p : BrandRow -> bool) (f : BrandRow -> BrandRow) : bool * World :=
  writeDb w (fun d => withBrands d (updateWhere p f (brands d))).

(** The columns an update of a brand row carries after an extraction. *)
Record BrandUpdate := {
  name : jsval;
  description : jsval;
  logo_url : jsval;
  metadata : gmap string jsval;
  crawl_status : string;
  updated_at : string
}.

Definition applyBrandUpdate (u : BrandUpdate) (r : BrandRow) : BrandRow :=
  {| b_id := b_id r;
     b_owner_id := b_owner_id r;
     b_primary_domain := b_primary_domain r;
     b_name := name u;
     b_description := description u;
     b_logo_url := logo_url u;
     b_metadata := metadata u;
     b_crawl_status := crawl_status u;
     b_is_public := b_is_public r;
     b_created_at := b_created_at r;
     b_updated_at := updated_at u |}.

(** [domain.split(".")[0].charAt(0).toUpperCase() + domain.split(".")[0].slice(1)] *)
Definition titleCasedLabel (domain : string) : string :=
  let label := List.hd "" (split "." domain) in
  toUpperCase (charAt0 label) +:+ slice1 label.

Definition setMappingProgress (status : string) (progress : nat) (step : string)
    (completed : option string) (r : MappingRow) : MappingRow :=
  {| m_id := m_id r;
     m_brand_id := m_brand_id r;
     m_domain := m_domain r;
     m_status := status;
     m_progress_percentage := progress;
     m_current_step := step;
     m_error_message := m_error_message r;
     m_started_at := m_started_at r;
     m_updated_at := m_updated_at r;
     m_completed_at :=
       match completed with Some t => Some t | None => m_completed_at r end;
     m_urls_discovered := m_urls_discovered r;
     m_company_info_count := m_company_info_count r;
     m_blog_count := m_blog_count r;
     m_docs_count := m_docs_count r;
     m_ecommerce_count := m_ecommerce_count r;
     m_total_urls := m_total_urls r |}.

Definition setMappingFailed (message : string) (completed : option string)
    (r : MappingRow) : MappingRow :=
  {| m_id := m_id r;
     m_brand_id := m_brand_id r;
     m_domain := m_domain r;
     m_status := "failed";
     m_progress_percentage := m_progress_percentage r;
     m_current_step := m_current_step r;
     m_error_message := Some message;
     m_started_at := m_started_at r;
     m_updated_at := m_updated_at r;
     m_completed_at :=
       match completed with Some t => Some t | None => m_completed_at r end;
     m_urls_discovered := m_urls_discovered r;
     m_company_info_count := m_company_info_count r;
     m_blog_count := m_blog_count r;
     m_docs_count := m_docs_count r;
     m_ecommerce_count := m_ecommerce_count r;
     m_total_urls := m_total_urls r |}.

Definition setUrlScraped (now : string) (imageCount size : nat)
    (r : BrandUrlRow) : BrandUrlRow :=
  {| u_brand_id := u_brand_id r; u_mapping_id := u_mapping_id r;
     u_url := u_url r; u_title := u_title r; u_description := u_description r;
     u_category := u_category r; u_priority := u_priority r;
     u_status := "scraped";
     u_scraped_at := Some now;
     u_image_count := imageCount;
     u_content_size := size;
     u_uploading_started_at := u_uploading_started_at r;
     u_uploaded_at := u_uploaded_at r;
     u_r2_key := u_r2_key r;
     u_error_message := u_error_message r |}.

Definition setUrlUploading (now : string) (r : BrandUrlRow) : BrandUrlRow :=
  {| u_brand_id := u_brand_id r; u_mapping_id := u_mapping_id r;
     u_url := u_url r; u_title := u_title r; u_description := u_description r;
     u_category := u_category r; u_priority := u_priority r;
     u_status := "uploading";
     u_scraped_at := u_scraped_at r;
     u_image_count := u_image_count r;
     u_content_size := u_content_size r;
     u_uploading_started_at := Some now;
     u_uploaded_at := u_uploaded_at r;
     u_r2_key := u_r2_key r;
     u_error_message := u_error_message r |}.

Definition setUrlUploaded (now r2Key : string) (size : nat)
    (r : BrandUrlRow) : BrandUrlRow :=
  {| u_brand_id := u_brand_id r; u_mapping_id := u_mapping_id r;
     u_url := u_url r; u_title := u_title r; u_description := u_description r;
     u_category := u_category r; u_priority := u_priority r;
     u_status := "uploaded";
     u_scraped_at := u_scraped_at r;
     u_image_count := u_image_count r;
     u_content_size := size;
     u_uploading_started_at := u_uploading_started_at r;
     u_uploaded_at := Some now;
     u_r2_key := Some r2Key;
     u_error_message := u_error_message r |}.

Definition setUrlFailed (message : string) (r : BrandUrlRow) : BrandUrlRow :=
  {| u_brand_id := u_brand_id r; u_mapping_id := u_mapping_id r;
     u_url := u_url r; u_title := u_title r; u_description := u_description r;
     u_category := u_category r; u_priority := u_priority r;
     u_status := "failed";
     u_scraped_at := u_scraped_at r;
     u_image_count := u_image_count r;
     u_content_size := u_content_size r;
     u_uploading_started_at := u_uploading_started_at r;
     u_uploaded_at := u_uploaded_at r;
     u_r2_key := u_r2_key r;
     u_error_message := Some message |}.





Definition urlsOf (w : World) : list BrandUrlRow := brand_urls (db w).
Definition mappingsOf (w : World) : list MappingRow := playground_url_mappings (db w).

(** The status values of the data model, and the set the handlers keep to. *)
Definition modelStatuses : list string :=
  ["discovered"; "scraping"; "uploading"; "uploaded"; "failed"].

Definition writtenStatuses : list string := "scraped" :: modelStatuses.

Definition statusIn (allowed : list string) (status : string) : bool :=
  List.existsb (String.eqb status) allowed.

(** Every brand_urls row, and every status sent so far, lies in [allowed]. *)
Definition urlsWithin (allowed : list string) (w : World) : Prop :=
  Forall (fun r => statusIn allowed (u_status r) = true) (brand_urls (db w))
  /\ Forall (fun s => statusIn allowed s = true) (urlStatusLog w).

(** The progress of the mapping rows with a given id. *)
Definition progressAt (mapping : string) (w : World) : list nat :=
  List.map m_progress_percentage
    (List.filter (fun r => String.eqb (m_id r) mapping)
       (playground_url_mappings (db w))).

Abbreviation hasId mid := (fun r : MappingRow => String.eqb (m_id r) mid).





End Db.


(** ** webhooks/firecrawl-handler.ts *)

Module Webhook.
Import Js Db.

Record PageMetadata := {
  sourceURL : option string;
  pm_url : option string;
  pm_title : option string
}.

(** An element of [event.data]: a scraped page, or an extraction result
    under [data]. *)
Record DataItem := {
  d_metadata : option PageMetadata;
  d_markdown : option string;
  d_images : option (list string);
  d_data : option (gmap string jsval)
}.

Record EventMetadata := {
  brandId : option string;
  domain : option string;
  mappingId : option string;
  jobType : option string
}.

Record FirecrawlWebhookEvent := {
  ev_success : bool;
  ev_type : string;
  ev_id : string;
  ev_data : option (list DataItem);
  ev_metadata : option EventMetadata;
  ev_error : option string
}.

Record Response := { status : nat; body : string }.

Definition ok : Response := {| status := 200; body := "OK" |}.

(** A string field as a condition: absent and empty are falsy. *)
Definition present (x : option string) : option string :=
  match x with
  | Some s => if isEmpty s then None else Some s
  | None => None
  end.

(** [a || b] on optional strings *)
Definition orOpt (a b : option string) : option string :=
  match present a with
  | Some s => Some s
  | None => b
  end.

Fixpoint takeChars (n : nat) (s : string) : string :=
  match n, s with
  | O, _ => ""
  | S _, "" => ""
  | S n', String a s' => String a (takeChars n' s')
  end.

Definition categorizeContentType `{UrlApi} (url : string) : string :=
  match parseUrl url with
  | Some u =>
      let path := toLowerCase (pathname u) in
      if includes "/blog" path || includes "/news" path then "blog"
      else if includes "/docs" path || includes "/documentation" path then "docs"
      else if includes "/about" path || includes "/company" path then "about"
      else if includes "/product" path || includes "/shop" path then "product"
      else if String.eqb path "/" || String.eqb path "/home" then "landing"
      else "other"
  | None => "pages"
  end.

(** [page.metadata?.sourceURL || page.metadata?.url] *)
Definition pageUrl (page : DataItem) : option string :=
  match d_metadata page with
  | Some m => present (orOpt (sourceURL m) (pm_url m))
  | None => None
  end.

Definition pageTitle (page : DataItem) : string :=
  match d_metadata page with
  | Some m => R2.optOr (pm_title m) "Untitled"
  | None => "Untitled"
  end.

(** *** uploadPageToR2 *)

Definition pageContent `{UrlApi} (page : DataItem) (url : string) : R2.ContentItem :=
  let markdown := R2.optOr (d_markdown page) "" in
  {| R2.url := url;
     R2.title := pageTitle page;
     R2.content := markdown;
     R2.processed_content := Some (takeChars 5000 markdown);
     R2.contentType := Some (categorizeContentType url);
     R2.images := Some (default [] (d_images page)) |}.

Definition pageUploadOptions : R2.UploadOptions :=
  {| R2.overwrite := true; R2.generateMetadata := true;
     R2.skipSupabaseStorage := false |}.

Definition sameUrlRow (brand url : string) (r : BrandUrlRow) : bool :=
  String.eqb (u_brand_id r) brand && String.eqb (u_url r) url.

Definition uploadPageToR2 `{UrlApi} (rt : Runtime) (w : World) (page : DataItem)
    (brand domainName : string) : World :=
  match pageUrl page with
  | None => w
  | Some url =>
      let '(now, w) := readClock rt w in
      let w := updateBrandUrls w "uploading" (sameUrlRow brand url)
                 (setUrlUploading now) in
      let request :=
        {| R2.req_brandId := brand;
           R2.req_domain := domainName;
           R2.req_content := Some [pageContent page url];
           R2.req_options := Some pageUploadOptions |} in
      let '(result, bucket1) :=
        R2.uploadBrandContent (bucket w) request (uploadEnvAt rt) in
      let w := withBucket w bucket1 in
      match result with
      | Threw _ => w
      | Returned uploadResult =>
          match R2.results uploadResult with
          | first :: _ =>
              if R2.resp_success uploadResult && R2.res_success first then
                let '(now, w) := readClock rt w in
                updateBrandUrls w "uploaded" (sameUrlRow brand url)
                  (setUrlUploaded now (R2.res_r2Key first)
                     (default 0 (R2.res_size first)))
              else
                updateBrandUrls w "failed" (sameUrlRow brand url)
                  (setUrlFailed (R2.optOr (R2.res_error first) "R2 upload failed"))
          | [] =>
              updateBrandUrls w "failed" (sameUrlRow brand url)
                (setUrlFailed "R2 upload failed")
          end
      end
  end.

(** *** The handlers *)

Definition handleJobStarted (w : World) (event : FirecrawlWebhookEvent)
    (meta : EventMetadata) : Response * World :=
  match present (mappingId meta) with
  | Some mapping =>
      (ok,
       updateMappings w (fun r => String.eqb (m_id r) mapping)
         (setMappingProgress "scraping_content" 50
            ("Firecrawl job started (" +:+ ev_id event +:+ ")") None))
  | None => (ok, w)
  end.

Definition handlePageScraped `{UrlApi} (rt : Runtime) (w : World)
    (event : FirecrawlWebhookEvent) (brand domainName : string)
    : Response * World :=
  match ev_data event with
  | None | Some [] => (ok, w)
  | Some (page :: _) =>
      match pageUrl page with
      | None => (ok, w)
      | Some url =>
          let '(now, w) := readClock rt w in
          let w := updateBrandUrls w "scraped" (sameUrlRow brand url)
                     (setUrlScraped now
                        (List.length (default [] (d_images page)))
                        (String.length (R2.optOr (d_markdown page) ""))) in
          (ok, uploadPageToR2 rt w page brand domainName)
      end
  end.

Definition countStatus (status : string) (rows : list BrandUrlRow) : nat :=
  List.length (List.filter (fun r => String.eqb (u_status r) status) rows).

Definition completedStep (uploaded failedCount : nat) : string :=
  "✅ " +:+ pretty uploaded +:+ " pages uploaded to AI Search! ("
    +:+ pretty failedCount +:+ " failed)".

Definition handleJobCompleted (rt : Runtime) (w : World)
    (event : FirecrawlWebhookEvent) (brand : string) (meta : EventMetadata)
    : Response * World :=
  let '(selectFails, w) := nextCall w in
  let urlStats :=
    if selectFails then []
    else List.filter (fun r => String.eqb (u_brand_id r) brand) (brand_urls (db w)) in
  match present (mappingId meta) with
  | Some mapping =>
      let '(now, w) := readClock rt w in
      (ok,
       updateMappings w (fun r => String.eqb (m_id r) mapping)
         (setMappingProgress "completed" 100
            (completedStep (countStatus "uploaded" urlStats)
               (countStatus "failed" urlStats))
            (Some now)))
  | None => (ok, w)
  end.

(** The update of the brand row on an extract.completed event. *)
Definition extractCompletedUpdate (extractedData : gmap string jsval)
    (domainName completedAt updatedAt : string) : BrandUpdate :=
  let brandName :=
    orJs (extractedData !! "company_name") (JStr (titleCasedLabel domainName)) in
  {| name := brandName;
     description :=
       orJs (extractedData !! "description")
         (JStr ("Official website and services from " +:+ jsText brandName +:+ "."));
     logo_url :=
       orJs (extractedData !! "logo_url")
         (JStr ("https://logo.clearbit.com/" +:+ domainName));
     metadata :=
       <["extractCompletedAt" := JStr completedAt]>
         (<["playground_scan" := JBool true]>
            (<["worker_processed" := JBool true]>
               (<["industry" := orJs (extractedData !! "industry") (JStr "Various")]>
                  extractedData)));
     crawl_status := "processing";
     updated_at := updatedAt |}.

Definition publicBrandOf (domainName : string) (r : BrandRow) : bool :=
  String.eqb (b_primary_domain r) domainName && b_is_public r
  && match b_owner_id r with None => true | Some _ => false end.

Definition handleExtractCompleted (rt : Runtime) (w : World)
    (event : FirecrawlWebhookEvent) (domainName : string) (meta : EventMetadata)
    : Response * World :=
  match jobType meta, ev_data event with
  | Some job, Some (first :: _) =>
      if String.eqb job "brandExtraction" then
        let extractedData := default ∅ (d_data first) in
        let '(completedAt, w) := readClock rt w in
        let '(updatedAt, w) := readClock rt w in
        (ok,
         snd (updateBrands w (publicBrandOf domainName)
                (applyBrandUpdate
                   (extractCompletedUpdate extractedData domainName
                      completedAt updatedAt))))
      else (ok, w)
  | _, _ => (ok, w)
  end.

Definition pendingUrl (brand : string) (r : BrandUrlRow) : bool :=
  String.eqb (u_brand_id r) brand
  && (String.eqb (u_status r) "discovered" || String.eqb (u_status r) "scraping").

Definition handleJobFailed (rt : Runtime) (w : World)
    (event : FirecrawlWebhookEvent) (brand : string) (meta : EventMetadata)
    : Response * World :=
  let w :=
    match present (mappingId meta) with
    | Some mapping =>
        let '(now, w) := readClock rt w in
        updateMappings w (fun r => String.eqb (m_id r) mapping)
          (setMappingFailed (R2.optOr (ev_error event) "Firecrawl job failed")
             (Some now))
    | None => w
    end in
  (ok,
   updateBrandUrls w "failed" (pendingUrl brand)
     (setUrlFailed (R2.optOr (ev_error event) "Job failed"))).

Definition oneOf (x : string) (l : list string) : bool :=
  List.existsb (String.eqb x) l.

Definition handleFirecrawlWebhook `{UrlApi} (rt : Runtime) (w : World)
    (event : FirecrawlWebhookEvent) : Response * World :=
  match ev_metadata event with
  | None => ({| status := 500; body := "Internal server error" |}, w)
  | Some meta =>
      match present (brandId meta), present (domain meta) with
      | Some brand, Some domainName =>
          let type := ev_type event in
          if oneOf type ["crawl.started"; "batch_scrape.started"]
          then handleJobStarted w event meta
          else if oneOf type ["crawl.page"; "batch_scrape.page"]
          then handlePageScraped rt w event brand domainName
          else if oneOf type ["crawl.completed"; "batch_scrape.completed"]
          then handleJobCompleted rt w event brand meta
          else if String.eqb type "extract.completed"
          then handleExtractCompleted rt w event domainName meta
          else if oneOf type ["crawl.failed"; "batch_scrape.failed"; "extract.failed"]
          then handleJobFailed rt w event brand meta
          else (ok, w)
      | _, _ => (ok, w)
      end
  end.

(** The worlds after each event of a delivery sequence. *)
Fixpoint runEvents `{UrlApi} (rt : Runtime) (w : World)
    (events : list FirecrawlWebhookEvent) : list World :=
  match events with
  | [] => []
  | e :: rest =>
      let w' := snd (handleFirecrawlWebhook rt w e) in
      w' :: runEvents rt w' rest
  end.





(** The brand an event names. *)
Definition eventBrand (event : FirecrawlWebhookEvent) : option string :=
  match ev_metadata event with
  | Some meta => present (brandId meta)
  | None => None
  end.

(** [r'] is the row [r] after a step that keeps the identifying columns and
    touches nothing of a row of another brand than [brand]. *)
Definition rowKept (brand : option string) (r r' : BrandUrlRow) : Prop :=
  u_brand_id r' = u_brand_id r /\ u_url r' = u_url r /\
  u_mapping_id r' = u_mapping_id r /\ u_category r' = u_category r /\
  u_priority r' = u_priority r /\
  (brand <> Some (u_brand_id r) -> r' = r).

(** The rows [rows], after steps on behalf of [brand], as they are in [w]. *)
Definition keptIn (brand : string) (rows : list BrandUrlRow) (w : World) : Prop :=
  Forall2 (rowKept (Some brand)) rows (urlsOf w).

(** How the row of a scraped page ends: uploaded, with the key and the size
    of an object the bucket holds, or failed with a message and the bucket
    as it was. *)
Definition pageSettled (before after : World) (r' : BrandUrlRow) : Prop :=
  (u_status r' = "uploaded" /\
   exists key o,
     u_r2_key r' = Some key /\ bucket after !! key = Some o /\
     u_content_size r' = R2.obj_size o)
  \/ (u_status r' = "failed" /\ u_error_message r' <> None /\
      bucket after = bucket before).


End Webhook.

(** ** The cron reconciler (processPendingExtractJobs of the worker) *)

Module Cron.
Import Js Db.

Record ExtractStatus := {
  es_status : string;
  es_data : option (gmap string jsval)
}.

(** [firecrawl.getExtractStatus(jobId)] as the provider answers it. *)
Class ExtractApi := getExtractStatus : string -> outcome ExtractStatus.

(** The update of the brand row when the polled job is completed. *)
Definition cronCompletedUpdate (extractedData : gmap string jsval)
    (domainName completedAt updatedAt : string) : BrandUpdate :=
  let brandName :=
    orJs (extractedData !! "company_name") (JStr (titleCasedLabel domainName)) in
  {| name := brandName;
     description :=
       orJs (extractedData !! "description")
         (JStr ("Official website and services from " +:+ jsText brandName +:+ "."));
     logo_url :=
       orJs (extractedData !! "logo_url")
         (JStr ("https://logo.clearbit.com/" +:+ domainName));
     metadata :=
       <["cronProcessed" := JBool true]>
         (<["extractCompletedAt" := JStr completedAt]>
            (<["industry" := orJs (extractedData !! "industry") (JStr "Technology")]>
               extractedData));
     crawl_status := "processing";
     updated_at := updatedAt |}.

Definition setBrandFailed (updatedAt : string) (r : BrandRow) : BrandRow :=
  {| b_id := b_id r;
     b_owner_id := b_owner_id r;
     b_primary_domain := b_primary_domain r;
     b_name := b_name r;
     b_description := b_description r;
     b_logo_url := b_logo_url r;
     b_metadata := b_metadata r;
     b_crawl_status := "failed";
     b_is_public := b_is_public r;
     b_created_at := b_created_at r;
     b_updated_at := updatedAt |}.

Definition createdNoLater (a b : BrandRow) : Prop :=
  String.le (b_created_at a) (b_created_at b).

#[global] Instance createdNoLater_dec : RelDecision createdNoLater.
Proof. intros a b. unfold createdNoLater. apply _. Defined.

(** [crawl_status = 'extracting'] and [metadata->extractJobId is not null] *)
Definition pendingExtract (r : BrandRow) : bool :=
  String.eqb (b_crawl_status r) "extracting"
  && match b_metadata r !! "extractJobId" with
     | Some JNull | None => false
     | Some _ => true
     end.

Definition pendingBrands (d : Database) : list BrandRow :=
  take 10 (merge_sort createdNoLater (List.filter pendingExtract (brands d))).

(** The body of the loop over the pending brands. *)
Definition reconcileBrand `{ExtractApi} (rt : Runtime) (w : World)
    (brand : BrandRow) : World :=
  match b_metadata brand !! "extractJobId" with
  | Some job =>
      if truthy job then
        match getExtractStatus (jsText job) with
        | Threw _ => w
        | Returned extractStatus =>
            if String.eqb (es_status extractStatus) "completed" then
              let extractedData := default ∅ (es_data extractStatus) in
              let '(completedAt, w) := readClock rt w in
              let '(updatedAt, w) := readClock rt w in
              snd (updateBrands w (fun r => String.eqb (b_id r) (b_id brand))
                     (applyBrandUpdate
                        (cronCompletedUpdate extractedData (b_primary_domain brand)
                           completedAt updatedAt)))
            else if String.eqb (es_status extractStatus) "failed" then
              let '(updatedAt, w) := readClock rt w in
              snd (updateBrands w (fun r => String.eqb (b_id r) (b_id brand))
                     (setBrandFailed updatedAt))
            else w
        end
      else w
  | None => w
  end.

Definition processPendingExtractJobs `{ExtractApi} (rt : Runtime) (w : World)
    : World :=
  let '(selectFails, w) := nextCall w in
  if selectFails then w
  else List.fold_left (reconcileBrand rt) (pendingBrands (db w)) w.

End Cron.


(** ** brand-discovery/url-processor.ts: categorizeUrls and selectTopUrls *)

Module Categorize.
Import Js.

Record Link := {
  l_url : string;
  l_title : option string;
  l_description : option string
}.

(** A link with the priority that [categorizeUrls] attaches to it. *)
Record ScoredLink := { link : Link; priority : nat }.

Record CategorizedUrls := {
  company : list ScoredLink;
  blog : list ScoredLink;
  docs : list ScoredLink;
  ecommerce : list ScoredLink;
  other : list ScoredLink
}.

Inductive category := Company | Blog | Docs | Ecommerce | Other.

#[global] Instance category_eq_dec : EqDecision category.
Proof. solve_decision. Defined.

Record Patterns := {
  subdomains : list string;
  paths : list string;
  titles : list string
}.

Definition patterns : list (category * Patterns) :=
  [(Company,
    {| subdomains := ["www"; "main"; "corporate"];
       paths := ["about"; "company"; "team"; "careers"; "contact";
                 "investors"; "leadership"; "mission"; "values"];
       titles := ["about us"; "our team"; "careers"; "contact us";
                  "leadership"; "company"] |});
   (Blog,
    {| subdomains := ["blog"; "news"; "media"; "press"; "stories"];
       paths := ["blog"; "news"; "articles"; "updates"; "press";
                 "media"; "stories"; "insights"; "newsroom"];
       titles := ["blog"; "news"; "article"; "press"; "update"; "story"] |});
   (Docs,
    {| subdomains := ["docs"; "help"; "support"; "api"; "developer"; "dev"];
       paths := ["docs"; "documentation"; "help"; "support"; "guide";
                 "api"; "reference"; "tutorial"; "manual"];
       titles := ["documentation"; "help"; "guide"; "api"; "reference";
                  "tutorial"] |});
   (Ecommerce,
    {| subdomains := ["shop"; "store"; "buy"; "checkout"; "cart"];
       paths := ["shop"; "store"; "buy"; "cart"; "checkout"; "products";
                 "catalog"; "marketplace"; "order"];
       titles := ["shop"; "store"; "buy"; "product"; "catalog";
                  "marketplace"] |})].

Definition isCompany (c : category) : bool :=
  match c with Company => true | _ => false end.

Definition categoryScore (c : category) (p : Patterns)
    (host path titleText : string) : nat :=
  (if List.existsb
        (fun sd => startsWith (sd +:+ ".") host || includes (sd +:+ ".") host)
        (subdomains p)
   then 100 else 0)
  + (if List.existsb
          (fun x => includes ("/" +:+ x) path || includes x path) (paths p)
     then 50 else 0)
  + (if List.existsb (fun kw => includes kw titleText) (titles p)
     then 25 else 0)
  + (if isCompany c && (String.eqb path "/" || String.eqb path "/home")
     then 30 else 0).

(** The loop over the categories: a strictly higher score takes over. *)
Definition bestCategory (host path titleText : string) : category * nat :=
  List.fold_left
    (fun '(best, top) '(c, p) =>
       let score := categoryScore c p host path titleText in
       if (top <? score)%nat then (c, score) else (best, top))
    patterns (Other, 0).

Definition classify `{UrlApi} (l : Link) : category * nat :=
  match parseUrl (l_url l) with
  | Some u =>
      bestCategory (toLowerCase (hostname u)) (toLowerCase (pathname u))
        (toLowerCase (R2.optOr (l_title l) ""))
  | None => (Other, 0)
  end.

Definition pushTo (cs : CategorizedUrls) (c : category) (s : ScoredLink)
    : CategorizedUrls :=
  match c with
  | Company =>
      {| company := company cs ++ [s]; blog := blog cs; docs := docs cs;
         ecommerce := ecommerce cs; other := other cs |}
  | Blog =>
      {| company := company cs; blog := blog cs ++ [s]; docs := docs cs;
         ecommerce := ecommerce cs; other := other cs |}
  | Docs =>
      {| company := company cs; blog := blog cs; docs := docs cs ++ [s];
         ecommerce := ecommerce cs; other := other cs |}
  | Ecommerce =>
      {| company := company cs; blog := blog cs; docs := docs cs;
         ecommerce := ecommerce cs ++ [s]; other := other cs |}
  | Other =>
      {| company := company cs; blog := blog cs; docs := docs cs;
         ecommerce := ecommerce cs; other := other cs ++ [s] |}
  end.

Definition categorizeUrls `{UrlApi} (links : list Link) : CategorizedUrls :=
  List.fold_left
    (fun cs l =>
       let '(c, score) := classify l in
       pushTo cs c {| link := l; priority := score |})
    links
    {| company := []; blog := []; docs := []; ecommerce := []; other := [] |}.

(** [urls.sort((a, b) => b.priority - a.priority)]: stable, highest first *)
Fixpoint insertByPriority (x : ScoredLink) (sorted : list ScoredLink)
    : list ScoredLink :=
  match sorted with
  | [] => [x]
  | y :: rest =>
      if (priority y <? priority x)%nat then x :: y :: rest
      else y :: insertByPriority x rest
  end.

Definition sortByPriority (l : list ScoredLink) : list ScoredLink :=
  List.fold_left (fun acc x => insertByPriority x acc) l [].

Definition selectTopUrls (cs : CategorizedUrls) (maxPerCategory : nat)
    : list ScoredLink :=
  List.concat
    (List.map (fun urls => take maxPerCategory (sortByPriority urls))
       [company cs; ecommerce cs; docs cs; blog cs; other cs]).

(** [Object.entries(categorizedUrls)] *)
Definition entries (cs : CategorizedUrls) : list (string * list ScoredLink) :=
  [("company", company cs); ("blog", blog cs); ("docs", docs cs);
   ("ecommerce", ecommerce cs); ("other", other cs)].

(** All scored links of a categorization, category after category. *)
Definition allScored (cs : CategorizedUrls) : list ScoredLink :=
  company cs ++ blog cs ++ docs cs ++ ecommerce cs ++ other cs.

(** [b] does not rank above [a]. *)
Definition ranksNoLower (a b : ScoredLink) : Prop := priority b <= priority a.

(** The scores a category other than "other" can carry. *)
Definition scoredWithin (s : ScoredLink) : Prop :=
  0 < priority s /\ priority s <= 205.


End Categorize.


(** ** services/async-jobs.ts and brand-discovery/pipeline.ts *)

Module Pipeline.
Import Js Db Categorize.

Record ExtractJob := { ej_success : bool; ej_id : option string }.
Record MapResult := { links : option (list Link) }.
Record BatchScrapeJob := { bj_id : option string; bj_error : option string }.

(** The provider, as it answers the three calls of a discovery request,
    and the values the database generates for new rows. *)
Record Provider := {
  startExtract : string -> outcome ExtractJob;
  mapSite : string -> outcome MapResult;
  startBatchScrape : list string -> outcome BatchScrapeJob;
  newBrandId : string;
  newMappingId : string;
  createdAtDefault : string;
  insertError : thrown
}.

(** *** startAsyncBrandExtraction *)

Definition startAsyncBrandExtraction (pv : Provider) (domainName : string)
    : option string :=
  match startExtract pv ("https://" +:+ domainName) with
  | Returned job => if ej_success job then ej_id job else None
  | Threw _ => None
  end.

(** *** storeDiscoveredUrls *)

Record AsyncJobConfig := {
  cfg_brandId : string;
  cfg_domain : string;
  cfg_mappingId : string;
  cfg_webhookUrl : string
}.

Definition urlRecord (config : AsyncJobConfig) (categoryName : string)
    (s : ScoredLink) : BrandUrlRow :=
  {| u_brand_id := cfg_brandId config;
     u_mapping_id := cfg_mappingId config;
     u_url := l_url (link s);
     u_title := Webhook.present (l_title (link s));
     u_description := Webhook.present (l_description (link s));
     u_category := categoryName;
     u_priority := priority s;
     u_status := "discovered";
     u_scraped_at := None;
     u_image_count := 0;
     u_content_size := 0;
     u_uploading_started_at := None;
     u_uploaded_at := None;
     u_r2_key := None;
     u_error_message := None |}.

Definition urlRecords (config : AsyncJobConfig) (cs : CategorizedUrls)
    : list BrandUrlRow :=
  List.concat
    (List.map (fun '(categoryName, urls) => List.map (urlRecord config categoryName) urls)
       (entries cs)).

(** The columns an upsert carries replace those of the row in conflict. *)
Definition mergeUrlRecord (new old : BrandUrlRow) : BrandUrlRow :=
  {| u_brand_id := u_brand_id new;
     u_mapping_id := u_mapping_id new;
     u_url := u_url new;
     u_title := u_title new;
     u_description := u_description new;
     u_category := u_category new;
     u_priority := u_priority new;
     u_status := u_status new;
     u_scraped_at := u_scraped_at old;
     u_image_count := u_image_count old;
     u_content_size := u_content_size old;
     u_uploading_started_at := u_uploading_started_at old;
     u_uploaded_at := u_uploaded_at old;
     u_r2_key := u_r2_key old;
     u_error_message := u_error_message old |}.

Definition upsertUrl (rows : list BrandUrlRow) (new : BrandUrlRow)
    : list BrandUrlRow :=
  let hit := Webhook.sameUrlRow (u_brand_id new) (u_url new) in
  if List.existsb hit rows
  then updateWhere hit (mergeUrlRecord new) rows
  else rows ++ [new].

Fixpoint hasRepeat (l : list string) : bool :=
  match l with
  | [] => false
  | x :: rest => R2.inList x rest || hasRepeat rest
  end.

(** [upsert(records, { onConflict: "brand_id,url" })]: the statement is
    rejected as a whole when two of its records collide with each other. *)
Definition upsertUrls (w : World) (records : list BrandUrlRow) : World :=
  let w := List.fold_left logUrlStatus (List.map u_status records) w in
  let '(fails, w1) := nextCall w in
  if fails || hasRepeat (List.map u_url records) then w1
  else withDb w1
         (withBrandUrls (db w1) (List.fold_left upsertUrl records (brand_urls (db w1)))).

Definition setMappingDiscovered (found companyN blogN docsN ecommerceN : nat)
    (r : MappingRow) : MappingRow :=
  {| m_id := m_id r;
     m_brand_id := m_brand_id r;
     m_domain := m_domain r;
     m_status := "mapping_urls";
     m_progress_percentage := 40;
     m_current_step :=
       "Discovered " +:+ pretty found +:+ " URLs, starting async scraping...";
     m_error_message := m_error_message r;
     m_started_at := m_started_at r;
     m_updated_at := m_updated_at r;
     m_completed_at := m_completed_at r;
     m_urls_discovered := found;
     m_company_info_count := companyN;
     m_blog_count := blogN;
     m_docs_count := docsN;
     m_ecommerce_count := ecommerceN;
     m_total_urls := found |}.

Definition storeDiscoveredUrls `{UrlApi} (w : World) (found : list Link)
    (config : AsyncJobConfig) : World :=
  let categorizedUrls := categorizeUrls found in
  let records := urlRecords config categorizedUrls in
  let w := match records with
           | [] => w
           | _ :: _ => upsertUrls w records
           end in
  updateMappings w (fun r => String.eqb (m_id r) (cfg_mappingId config))
    (setMappingDiscovered (List.length found)
       (List.length (company categorizedUrls))
       (List.length (blog categorizedUrls))
       (List.length (docs categorizedUrls))
       (List.length (ecommerce categorizedUrls))).

(** *** startAsyncBrandPipeline *)

Record AsyncResult := {
  batchJobId : option string;
  error : option string
}.

Definition asyncError (message : string) : AsyncResult :=
  {| batchJobId := None; error := Some message |}.

Definition startAsyncBrandPipeline `{UrlApi} (pv : Provider) (w : World)
    (config : AsyncJobConfig) : AsyncResult * World :=
  match mapSite pv ("https://" +:+ cfg_domain config) with
  | Threw t => (asyncError (messageOr "Failed to start async pipeline" t), w)
  | Returned mapResult =>
      match links mapResult with
      | None | Some [] => (asyncError "No URLs discovered during mapping", w)
      | Some ((_ :: _) as found) =>
          let w := storeDiscoveredUrls w found config in
          let selectedUrls := selectTopUrls (categorizeUrls found) 8 in
          match startBatchScrape pv (List.map (fun s => l_url (link s)) selectedUrls) with
          | Threw t => (asyncError (messageOr "Failed to start async pipeline" t), w)
          | Returned job =>
              match Webhook.present (bj_id job) with
              | None =>
                  (asyncError ("BatchScrape failed: "
                               +:+ R2.optOr (bj_error job) "No job ID returned"),
                   w)
              | Some jobId => ({| batchJobId := Some jobId; error := None |}, w)
              end
          end
      end
  end.

(** *** processUnifiedBrandDiscovery *)

Record Placeholder := {
  ph_name : string;
  ph_description : string;
  ph_logo_url : string;
  ph_industry : string
}.

Record DiscoveryResponse := {
  success : bool;
  brand : option BrandRow;
  mapping : option MappingRow;
  scrapingResult : option Placeholder;
  extractJobId : option string;
  errorText : option string;
  details : option string
}.

Definition failedWith (message : string) : DiscoveryResponse :=
  {| success := false; brand := None; mapping := None; scrapingResult := None;
     extractJobId := None; errorText := Some message; details := None |}.

(** The catch clause at the end of the function. *)
Definition caught (t : thrown) : DiscoveryResponse :=
  let message :=
    match t with
    | ThrownError _ m =>
        if includes "PGRST116" m
        then "Database record not found - created new brand instead"
        else if includes "extract" m
        then "Failed to extract brand information from website"
        else m
    | ThrownOther _ => "Brand discovery pipeline failed"
    end in
  {| success := false; brand := None; mapping := None; scrapingResult := None;
     extractJobId := None; errorText := Some message;
     details := Some (messageOr "Unknown error" t) |}.

Definition placeholderBrand (domainName : string) : Placeholder :=
  {| ph_name := titleCasedLabel domainName;
     ph_description := "Extracting brand information from " +:+ domainName +:+ "...";
     ph_logo_url := "https://logo.clearbit.com/" +:+ domainName;
     ph_industry := "Analyzing..." |}.

Definition placeholderMetadata (ph : Placeholder) (job : string)
    : gmap string jsval :=
  <["playground_scan" := JBool true]>
    (<["worker_processed" := JBool true]>
       (<["extractJobId" := JStr job]>
          (<["industry" := JStr (ph_industry ph)]>
             (<["logo_url" := JStr (ph_logo_url ph)]>
                (<["description" := JStr (ph_description ph)]>
                   (<["name" := JStr (ph_name ph)]> ∅)))))).

Definition placeholderUpdate (ph : Placeholder) (job updatedAt : string)
    : BrandUpdate :=
  {| name := JStr (ph_name ph);
     description := JStr (ph_description ph);
     logo_url := JStr (ph_logo_url ph);
     metadata := placeholderMetadata ph job;
     crawl_status := "extracting";
     updated_at := updatedAt |}.

Definition newBrandRow (pv : Provider) (domainName : string) (ph : Placeholder)
    (job updatedAt : string) : BrandRow :=
  {| b_id := newBrandId pv;
     b_owner_id := None;
     b_primary_domain := domainName;
     b_name := JStr (ph_name ph);
     b_description := JStr (ph_description ph);
     b_logo_url := JStr (ph_logo_url ph);
     b_metadata := placeholderMetadata ph job;
     b_crawl_status := "extracting";
     b_is_public := true;
     b_created_at := createdAtDefault pv;
     b_updated_at := updatedAt |}.

(** [.order("created_at", { ascending: false }).limit(1).maybeSingle()] *)
Definition newest (rows : list BrandRow) : option BrandRow :=
  List.fold_left
    (fun acc r =>
       match acc with
       | None => Some r
       | Some best =>
           if String.ltb (b_created_at best) (b_created_at r) then Some r
           else Some best
       end)
    rows None.

(** Steps 2 and 3 use the brand row that is found or made; [inl] is the
    early exit. *)
Definition findOrCreateBrand (rt : Runtime) (pv : Provider) (w : World)
    (domainName job : string) : (thrown + BrandRow) * World :=
  let ph := placeholderBrand domainName in
  let '(selectFails, w) := nextCall w in
  let existingBrand :=
    if selectFails then None
    else newest (List.filter (Webhook.publicBrandOf domainName) (brands (db w))) in
  let '(updated, w) :=
    match existingBrand with
    | Some existing =>
        let '(now, w) := readClock rt w in
        let '(fails, w) :=
          updateBrands w (fun r => String.eqb (b_id r) (b_id existing))
            (applyBrandUpdate (placeholderUpdate ph job now)) in
        if fails then (None, w)
        else (List.find (fun r => String.eqb (b_id r) (b_id existing))
                (brands (db w)), w)
    | None => (None, w)
    end in
  match updated with
  | Some row => (inr row, w)
  | None =>
      let '(now, w) := readClock rt w in
      let row := newBrandRow pv domainName ph job now in
      let '(fails, w) := writeDb w (fun d => withBrands d (brands d ++ [row])) in
      if fails then (inl (insertError pv), w) else (inr row, w)
  end.

Definition sameMapping (brandKey domainName : string) (r : MappingRow) : bool :=
  String.eqb (m_brand_id r) brandKey && String.eqb (m_domain r) domainName.

Definition setMappingStarted (startedAt updatedAt : string) (r : MappingRow)
    : MappingRow :=
  {| m_id := m_id r;
     m_brand_id := m_brand_id r;
     m_domain := m_domain r;
     m_status := "processing";
     m_progress_percentage := 30;
     m_current_step := "Worker processing - Discovering URLs...";
     m_error_message := m_error_message r;
     m_started_at := Some startedAt;
     m_updated_at := Some updatedAt;
     m_completed_at := m_completed_at r;
     m_urls_discovered := m_urls_discovered r;
     m_company_info_count := m_company_info_count r;
     m_blog_count := m_blog_count r;
     m_docs_count := m_docs_count r;
     m_ecommerce_count := m_ecommerce_count r;
     m_total_urls := m_total_urls r |}.

Definition newMappingRow (pv : Provider) (brandKey domainName startedAt
    updatedAt : string) : MappingRow :=
  {| m_id := newMappingId pv;
     m_brand_id := brandKey;
     m_domain := domainName;
     m_status := "processing";
     m_progress_percentage := 30;
     m_current_step := "Worker processing - Discovering URLs...";
     m_error_message := None;
     m_started_at := Some startedAt;
     m_updated_at := Some updatedAt;
     m_completed_at := None;
     m_urls_discovered := 0;
     m_company_info_count := 0;
     m_blog_count := 0;
     m_docs_count := 0;
     m_ecommerce_count := 0;
     m_total_urls := 0 |}.

(** Step 4: the upsert on (brand_id, domain), with the row it returns;
    [None] is the mappingError exit. *)
Definition upsertMapping (rt : Runtime) (pv : Provider) (w : World)
    (brandKey domainName : string) : option MappingRow * World :=
  let '(startedAt, w) := readClock rt w in
  let '(updatedAt, w) := readClock rt w in
  let '(fails, w) := nextCall w in
  if fails then (None, w)
  else
    let rows := playground_url_mappings (db w) in
    let rows' :=
      if List.existsb (sameMapping brandKey domainName) rows
      then updateWhere (sameMapping brandKey domainName)
             (setMappingStarted startedAt updatedAt) rows
      else rows ++ [newMappingRow pv brandKey domainName startedAt updatedAt] in
    (List.find (sameMapping brandKey domainName) rows',
     withDb w (withMappings (db w) rows')).

(** The configuration handed to the launch, and the response of a request
    that got as far as the launch. *)
Definition launchConfig (env_URL domainName : string) (brandRow : BrandRow)
    (m : MappingRow) : AsyncJobConfig :=
  {| cfg_brandId := b_id brandRow;
     cfg_domain := domainName;
     cfg_mappingId := m_id m;
     cfg_webhookUrl := env_URL +:+ "/webhook/firecrawl" |}.


(** Step 5 and the response. *)
Definition launchAndRespond `{UrlApi} (pv : Provider) (w : World) (env_URL : string)
    (domainName job : string) (brandRow : BrandRow) (mappingRow : option MappingRow)
    : DiscoveryResponse * World :=
  let w :=
    match mappingRow with
    | Some m =>
        if isEmpty (m_id m) then w
        else
          let '(asyncResult, w) :=
            startAsyncBrandPipeline pv w
              (launchConfig env_URL domainName brandRow m) in
          match Webhook.present (error asyncResult) with
          | Some message =>
              updateMappings w (fun r => String.eqb (m_id r) (m_id m))
                (setMappingFailed message None)
          | None => w
          end
    | None => w
    end in
  ({| success := true;
      brand := Some brandRow;
      mapping := mappingRow;
      scrapingResult := Some (placeholderBrand domainName);
      extractJobId := Some job;
      errorText := None;
      details := None |}, w).

Definition processUnifiedBrandDiscovery `{UrlApi} (rt : Runtime) (pv : Provider)
    (w : World) (env_URL domainName : string) : DiscoveryResponse * World :=
  match Webhook.present (startAsyncBrandExtraction pv domainName) with
  | None => (failedWith "Failed to start brand extraction", w)
  | Some job =>
      match findOrCreateBrand rt pv w domainName job with
      | (inl t, w) => (caught t, w)
      | (inr brandRow, w) =>
          match upsertMapping rt pv w (b_id brandRow) domainName with
          | (None, w) => (failedWith "Failed to create progress tracking", w)
          | (Some mappingRow, w) =>
              launchAndRespond pv w env_URL domainName job brandRow (Some mappingRow)
          end
      end
  end.

End Pipeline.


(** ** The routes of the worker

    [JSON.parse] and [request.json()] are the runtime's.  [parseEventJson]
    stands for [JSON.parse(body) as FirecrawlWebhookEvent]: [None] when the
    text is not JSON or not an object, and a field the object lacks reads as
    absent, the empty string for [type] and [id].  A route that reads
    [request.json()] is given what that call yields. *)

Class EventJson := parseEventJson : string -> option Webhook.FirecrawlWebhookEvent.

Module Worker.
Import Js Db.

(** *** parseFirecrawlEvent (webhooks/verify.ts) *)

Definition parseFirecrawlEvent `{EventJson} (text : string)
    : option Webhook.FirecrawlWebhookEvent :=
  match parseEventJson text with
  | Some event =>
      if isEmpty (Webhook.ev_type event) || isEmpty (Webhook.ev_id event)
      then None
      else Some event
  | None => None
  end.

(** *** handleWebhook *)

Record Secrets := {
  FIRECRAWL_WEBHOOK_SECRET : option string;
  FIRECRAWL_API_KEY : option string
}.

(** [env.FIRECRAWL_WEBHOOK_SECRET || env.FIRECRAWL_API_KEY]; a secret that
    is undefined encodes to no bytes. *)
Definition webhookSecretOf (env : Secrets) : string :=
  match Webhook.present (FIRECRAWL_WEBHOOK_SECRET env) with
  | Some s => s
  | None => default "" (FIRECRAWL_API_KEY env)
  end.

Definition unauthorized : Webhook.Response :=
  {| Webhook.status := 401; Webhook.body := "Unauthorized" |}.

Definition badRequest : Webhook.Response :=
  {| Webhook.status := 400; Webhook.body := "Bad Request" |}.

Definition handleWebhook `{UrlApi} `{HmacApi} `{EventJson} (rt : Runtime)
    (w : World) (request : Verify.Request) (env : Secrets)
    : Webhook.Response * World :=
  let '(isValid, text) :=
    Verify.verifyWebhookSignature request (webhookSecretOf env) in
  if isValid then
    match parseFirecrawlEvent text with
    | Some event => Webhook.handleFirecrawlWebhook rt w event
    | None => (badRequest, w)
    end
  else (unauthorized, w).

(** The header of the request carries the HMAC of its body under a
    non-empty secret. *)
Definition carriesSignature `{HmacApi} (request : Verify.Request)
    (secret : string) : Prop :=
  isEmpty secret = false /\
  exists signature rest,
    Verify.signatureHeader request = Some signature /\
    split "=" signature
    = "sha256" :: Verify.expectedSignature secret (Verify.requestBody request)
      :: rest.

(** *** handleR2Upload *)

Record AiSearchInfo := {
  ai_bucket : string;
  ai_folderStructure : string;
  ai_autoIndexing : string;
  ai_estimatedTime : string
}.

(** The JSON of the response; a field the literal does not have is [None]. *)
Record UploadReply := {
  reply_status : nat;
  reply_success : bool;
  reply_summary : option R2.Summary;
  reply_results : option (list R2.UploadResult);
  reply_aiSearchInfo : option AiSearchInfo;
  reply_error : option string;
  reply_details : option string
}.

Definition uploadRefused (code : nat) (message : string)
    (detail : option string) : UploadReply :=
  {| reply_status := code; reply_success := false; reply_summary := None;
     reply_results := None; reply_aiSearchInfo := None;
     reply_error := Some message; reply_details := detail |}.

(** [parsed] is what [await request.json()] yields. *)
Definition handleR2Upload `{UrlApi} (bucket : R2.Bucket)
    (parsed : outcome R2.R2UploadRequest) (R2_BUCKET_NAME : option string)
    (env : nat -> R2.CallEnv) : UploadReply * R2.Bucket :=
  match parsed with
  | Threw t =>
      (uploadRefused 500 "Upload failed" (Some (messageOr "Unknown error" t)),
       bucket)
  | Returned uploadRequest =>
      if isEmpty (R2.req_brandId uploadRequest)
         || isEmpty (R2.req_domain uploadRequest)
         || match R2.req_content uploadRequest with
            | None => true
            | Some _ => false
            end
      then
        (uploadRefused 400 "Missing required fields: brandId, domain, content"
           None, bucket)
      else
        match R2.uploadBrandContent bucket uploadRequest env with
        | (Threw t, bucket1) =>
            (uploadRefused 500 "Upload failed"
               (Some (messageOr "Unknown error" t)), bucket1)
        | (Returned result, bucket1) =>
            ({| reply_status := 200;
                reply_success := R2.resp_success result;
                reply_summary := Some (R2.summary result);
                reply_results := Some (R2.results result);
                reply_aiSearchInfo :=
                  Some {| ai_bucket := R2.optOr R2_BUCKET_NAME "brands";
                          ai_folderStructure :=
                            "brands/" +:+ R2.req_domain uploadRequest
                              +:+ "/content/";
                          ai_autoIndexing :=
                            "AI Search will automatically index new content";
                          ai_estimatedTime :=
                            "1-5 minutes for indexing to complete" |};
                reply_error := None;
                reply_details := None |},
             bucket1)
        end
  end.

(** *** handleBrandDiscovery (brand-discovery/handler.ts) *)

(** [parsed] is the [domain] field of what [await request.json()] yields. *)
Definition handleBrandDiscovery `{UrlApi} (rt : Runtime)
    (pv : Pipeline.Provider) (w : World) (env_URL : string)
    (parsed : outcome (option string))
    : (nat * Pipeline.DiscoveryResponse) * World :=
  match parsed with
  | Threw t =>
      ((500,
        {| Pipeline.success := false; Pipeline.brand := None;
           Pipeline.mapping := None; Pipeline.scrapingResult := None;
           Pipeline.extractJobId := None;
           Pipeline.errorText := Some "Brand discovery failed";
           Pipeline.details := Some (messageOr "Unknown error" t) |}), w)
  | Returned field =>
      match Webhook.present field with
      | None => ((400, Pipeline.failedWith "Domain is required"), w)
      | Some domainName =>
          let cleanDomain := UrlProcessor.normalizeUrl domainName in
          let '(result, w) :=
            Pipeline.processUnifiedBrandDiscovery rt pv w env_URL cleanDomain in
          ((200, result), w)
      end
  end.

End Worker.


(** ** Sample data used to run the functions *)

Module Samples.
Import R2.

Definition aboutPage : ContentItem :=
  {| url := "https://x.com/about/team.html";
     title := "Team";
     content := "We are a small team.";
     processed_content := None;
     contentType := None;
     images := Some ["https://x.com/t.png"] |}.

Definition homePage : ContentItem :=
  {| url := "https://x.com/";
     title := "";
     content := "";
     processed_content := Some "Welcome";
     contentType := Some "landing";
     images := None |}.

Definition quietAt (ms : N) : CallEnv :=
  {| nowMs := ms;
     nowIso := "2025-01-01T00:00:00.000Z";
     uploadedAt := "2025-01-01T00:00:00.001Z";
     headThrows := None;
     putThrows := None |}.

Definition uploadRequest : R2UploadRequest :=
  {| req_brandId := "b1";
     req_domain := "https://www.X.com";
     req_content := Some [aboutPage; homePage];
     req_options := None |}.

Definition storedPage (body : string) : R2Object :=
  {| obj_size := String.length body;
     obj_body := body;
     obj_contentType := "text/markdown";
     obj_contentEncoding := "utf-8";
     obj_customMetadata := ∅ |}.

Definition smallBucket : Bucket :=
  list_to_map
    [("brands/a.com/content/pages/x-1.md", storedPage "x");
     ("brands/a.com/content/about/y-2.md", storedPage "y");
     ("brands/nosana.io/content/pages/z-3.md", storedPage "z");
     ("brands/readme.txt", storedPage "r");
     ("logs/today.txt", storedPage "l")].

(** 101 pages of one brand. *)
Definition bigBucket : Bucket :=
  list_to_map
    (List.map
       (fun i => ("brands/big.io/content/pages/p-" +:+ pretty i +:+ ".md",
                  storedPage "p"))
       (List.seq 0 101)).

Definition keepNothing : CleanupRequest := {| brandsToKeep := Some [] |}.
Definition keepDefault : CleanupRequest := {| brandsToKeep := None |}.


(** A brand with one discovered page and its progress row. *)
Definition runtime : Db.Runtime :=
  {| Db.isoAt := fun n => "2025-01-01T00:00:00." +:+ pretty n +:+ "Z";
     Db.uploadEnvAt := fun i => quietAt (1000 + N.of_nat i) |}.

Definition discoveredRow : Db.BrandUrlRow :=
  {| Db.u_brand_id := "b1"; Db.u_mapping_id := "m1";
     Db.u_url := "https://x.com/a"; Db.u_title := None;
     Db.u_description := None; Db.u_category := "other"; Db.u_priority := 0;
     Db.u_status := "discovered"; Db.u_scraped_at := None;
     Db.u_image_count := 0; Db.u_content_size := 0;
     Db.u_uploading_started_at := None; Db.u_uploaded_at := None;
     Db.u_r2_key := None; Db.u_error_message := None |}.

Definition progressRow (progress : nat) : Db.MappingRow :=
  {| Db.m_id := "m1"; Db.m_brand_id := "b1"; Db.m_domain := "x.com";
     Db.m_status := "mapping_urls"; Db.m_progress_percentage := progress;
     Db.m_current_step := "Discovered 1 URLs, starting async scraping...";
     Db.m_error_message := None; Db.m_started_at := None;
     Db.m_updated_at := None; Db.m_completed_at := None;
     Db.m_urls_discovered := 1; Db.m_company_info_count := 0;
     Db.m_blog_count := 0; Db.m_docs_count := 0; Db.m_ecommerce_count := 0;
     Db.m_total_urls := 1 |}.

Definition worldWith (faults : list bool) : Db.World :=
  {| Db.db := {| Db.brands := [];
                 Db.playground_url_mappings := [progressRow 40];
                 Db.brand_urls := [discoveredRow] |};
     Db.bucket := ∅;
     Db.dbFaults := faults;
     Db.clockReads := 0;
     Db.urlStatusLog := [] |}.

Definition world : Db.World := worldWith [].

Definition runMetadata : Webhook.EventMetadata :=
  {| Webhook.brandId := Some "b1"; Webhook.domain := Some "x.com";
     Webhook.mappingId := Some "m1"; Webhook.jobType := None |}.

Definition eventOf (type : string) (data : list Webhook.DataItem)
    : Webhook.FirecrawlWebhookEvent :=
  {| Webhook.ev_success := true; Webhook.ev_type := type;
     Webhook.ev_id := "job-1"; Webhook.ev_data := Some data;
     Webhook.ev_metadata := Some runMetadata; Webhook.ev_error := None |}.

Definition scrapedPage : Webhook.DataItem :=
  {| Webhook.d_metadata :=
       Some {| Webhook.sourceURL := Some "https://x.com/a";
               Webhook.pm_url := None; Webhook.pm_title := Some "A" |};
     Webhook.d_markdown := Some "# A";
     Webhook.d_images := None;
     Webhook.d_data := None |}.

Definition pageEvent : Webhook.FirecrawlWebhookEvent :=
  eventOf "batch_scrape.page" [scrapedPage].
Definition startedEvent : Webhook.FirecrawlWebhookEvent :=
  eventOf "batch_scrape.started" [].
Definition completedEvent : Webhook.FirecrawlWebhookEvent :=
  eventOf "batch_scrape.completed" [].


(** A provider whose calls all succeed, and one whose map finds nothing. *)
Definition siteLinks : list Categorize.Link :=
  [{| Categorize.l_url := "https://x.com/about";
      Categorize.l_title := Some "About us";
      Categorize.l_description := None |};
   {| Categorize.l_url := "https://blog.x.com/post";
      Categorize.l_title := None;
      Categorize.l_description := None |};
   {| Categorize.l_url := "https://x.com/";
      Categorize.l_title := None;
      Categorize.l_description := None |}].

Definition providerWith (found : option (list Categorize.Link))
    : Pipeline.Provider :=
  {| Pipeline.startExtract := fun _ =>
       Returned {| Pipeline.ej_success := true; Pipeline.ej_id := Some "ext-1" |};
     Pipeline.mapSite := fun _ => Returned {| Pipeline.links := found |};
     Pipeline.startBatchScrape := fun _ =>
       Returned {| Pipeline.bj_id := Some "batch-1"; Pipeline.bj_error := None |};
     Pipeline.newBrandId := "b1";
     Pipeline.newMappingId := "m1";
     Pipeline.createdAtDefault := "2025-01-01T00:00:00.000Z";
     Pipeline.insertError := ThrownOther "[object Object]" |}.

Definition provider : Pipeline.Provider := providerWith (Some siteLinks).
Definition barrenProvider : Pipeline.Provider := providerWith None.

Definition emptyWorld : Db.World :=
  {| Db.db := {| Db.brands := []; Db.playground_url_mappings := [];
                 Db.brand_urls := [] |};
     Db.bucket := ∅;
     Db.dbFaults := [];
     Db.clockReads := 0;
     Db.urlStatusLog := [] |}.

(** The brand row of a first request for x.com, and the world after it. *)
Definition brandStep (pv : Pipeline.Provider) : (thrown + Db.BrandRow) * Db.World :=
  Pipeline.findOrCreateBrand runtime pv emptyWorld "x.com" "ext-1".

Definition firstBrand : Db.BrandRow :=
  Pipeline.newBrandRow provider "x.com" (Pipeline.placeholderBrand "x.com")
    "ext-1" (Db.isoAt runtime 0).

Definition mappingStep (pv : Pipeline.Provider) : option Db.MappingRow * Db.World :=
  Pipeline.upsertMapping runtime pv (snd (brandStep pv)) "b1" "x.com".

Definition firstMapping : Db.MappingRow :=
  Pipeline.newMappingRow provider "b1" "x.com" (Db.isoAt runtime 1)
    (Db.isoAt runtime 2).

Definition firstConfig : Pipeline.AsyncJobConfig :=
  {| Pipeline.cfg_brandId := "b1"; Pipeline.cfg_domain := "x.com";
     Pipeline.cfg_mappingId := "m1";
     Pipeline.cfg_webhookUrl := "https://worker.example/webhook/firecrawl" |}.

End Samples.

(** * Properties *)

(** ** Facts about the string primitives *)

Module JsFacts.
Import Js.

Ltac ascii_cases a := destruct a as [[] [] [] [] [] [] [] []]; try reflexivity.

Lemma eqb_lowerChar_sep (a c : ascii) :
  inRange 65 90 c = false -> inRange 97 122 c = false ->
  Ascii.eqb (lowerChar a) c = Ascii.eqb a c.
Proof.
  intros H1 H2.
  destruct (Ascii.eqb_spec a c) as [->|Hne].
  - unfold lowerChar. rewrite H1. apply Ascii.eqb_refl.
  - apply Ascii.eqb_neq. intros <-. revert H1 H2 Hne.
    destruct a as [[] [] [] [] [] [] [] []]; vm_compute;
      intros; first [discriminate | congruence].
Qed.

Lemma lowerChar_idem a : lowerChar (lowerChar a) = lowerChar a.
Proof. ascii_cases a. Qed.

Lemma is_space_lowerChar a : Ascii.is_space (lowerChar a) = Ascii.is_space a.
Proof. ascii_cases a. Qed.

Lemma isEmpty_true s : isEmpty s = true <-> s = "".
Proof. destruct s; simpl; split; congruence. Qed.

Lemma isEmpty_mapChars f s : isEmpty (mapChars f s) = isEmpty s.
Proof. destruct s; reflexivity. Qed.

Lemma toLowerCase_idem s : toLowerCase (toLowerCase s) = toLowerCase s.
Proof.
  unfold toLowerCase. induction s as [|a s IH]; simpl; [reflexivity|].
  rewrite lowerChar_idem, IH. reflexivity.
Qed.

Lemma trimStart_lower s : trimStart (toLowerCase s) = toLowerCase (trimStart s).
Proof.
  unfold toLowerCase. induction s as [|a s IH]; simpl; [reflexivity|].
  rewrite is_space_lowerChar. destruct (Ascii.is_space a); [exact IH|reflexivity].
Qed.

Lemma trimEnd_lower s : trimEnd (toLowerCase s) = toLowerCase (trimEnd s).
Proof.
  unfold toLowerCase. induction s as [|a s IH]; simpl; [reflexivity|].
  rewrite is_space_lowerChar, IH, isEmpty_mapChars.
  destruct (Ascii.is_space a && isEmpty (trimEnd s)); reflexivity.
Qed.

Lemma trim_lower s : trim (toLowerCase s) = toLowerCase (trim s).
Proof. unfold trim. rewrite trimStart_lower, trimEnd_lower. reflexivity. Qed.

Lemma beforeChar_lower c s :
  inRange 65 90 c = false -> inRange 97 122 c = false ->
  beforeChar c (toLowerCase s) = toLowerCase (beforeChar c s).
Proof.
  intros H1 H2. unfold toLowerCase.
  induction s as [|a s IH]; simpl; [reflexivity|].
  rewrite eqb_lowerChar_sep by assumption.
  destruct (Ascii.eqb a c); simpl; [reflexivity|]. rewrite IH. reflexivity.
Qed.

Lemma hasChar_lower c s :
  inRange 65 90 c = false -> inRange 97 122 c = false ->
  hasChar c (toLowerCase s) = hasChar c s.
Proof.
  intros H1 H2. unfold toLowerCase.
  induction s as [|a s IH]; simpl; [reflexivity|].
  rewrite eqb_lowerChar_sep, IH by assumption. reflexivity.
Qed.

Lemma trimStart_idem s : trimStart (trimStart s) = trimStart s.
Proof.
  induction s as [|a s IH]; simpl; [reflexivity|].
  destruct (Ascii.is_space a) eqn:E; [exact IH|]. simpl. rewrite E. reflexivity.
Qed.

Lemma trimEnd_idem s : trimEnd (trimEnd s) = trimEnd s.
Proof.
  induction s as [|a s IH]; simpl; [reflexivity|].
  destruct (Ascii.is_space a && isEmpty (trimEnd s)) eqn:E; simpl; [reflexivity|].
  rewrite IH, E. reflexivity.
Qed.

Lemma trim_comm s : trimEnd (trimStart s) = trimStart (trimEnd s).
Proof.
  induction s as [|a s IH]; simpl; [reflexivity|].
  destruct (Ascii.is_space a) eqn:E; simpl.
  - rewrite IH. destruct (isEmpty (trimEnd s)) eqn:E'.
    + apply isEmpty_true in E'. rewrite E'. reflexivity.
    + simpl. rewrite E. reflexivity.
  - rewrite E. reflexivity.
Qed.

Lemma trim_idem s : trim (trim s) = trim s.
Proof.
  unfold trim. rewrite <- (trim_comm (trimStart s)).
  rewrite trimStart_idem, trimEnd_idem. reflexivity.
Qed.

Lemma eqb_space_false a c :
  Ascii.is_space c = false -> Ascii.is_space a = true -> Ascii.eqb a c = false.
Proof.
  intros Hc Ha. apply Ascii.eqb_neq. intros ->. congruence.
Qed.

Lemma beforeChar_trimStart c s :
  Ascii.is_space c = false ->
  beforeChar c (trimStart s) = trimStart (beforeChar c s).
Proof.
  intros Hc. induction s as [|a s IH]; simpl; [reflexivity|].
  destruct (Ascii.is_space a) eqn:E.
  - rewrite (eqb_space_false a c Hc E). simpl. rewrite E. exact IH.
  - simpl. destruct (Ascii.eqb a c); simpl; [reflexivity|]. rewrite E. reflexivity.
Qed.

Lemma trimEnd_beforeChar_trimEnd c s :
  Ascii.is_space c = false ->
  trimEnd (beforeChar c (trimEnd s)) = trimEnd (beforeChar c s).
Proof.
  intros Hc. induction s as [|a s IH]; simpl; [reflexivity|].
  destruct (Ascii.is_space a && isEmpty (trimEnd s)) eqn:E; simpl.
  - apply andb_true_iff in E as [Ea Ee]. apply isEmpty_true in Ee.
    rewrite (eqb_space_false a c Hc Ea). simpl.
    rewrite <- IH, Ee. simpl. rewrite Ea. reflexivity.
  - destruct (Ascii.eqb a c); simpl; [reflexivity|]. rewrite IH. reflexivity.
Qed.

Lemma hasChar_trimStart c s :
  Ascii.is_space c = false -> hasChar c (trimStart s) = hasChar c s.
Proof.
  intros Hc. induction s as [|a s IH]; simpl; [reflexivity|].
  destruct (Ascii.is_space a) eqn:E; [|reflexivity].
  rewrite (eqb_space_false a c Hc E). exact IH.
Qed.

Lemma hasChar_trimEnd c s :
  Ascii.is_space c = false -> hasChar c (trimEnd s) = hasChar c s.
Proof.
  intros Hc. induction s as [|a s IH]; simpl; [reflexivity|].
  destruct (Ascii.is_space a && isEmpty (trimEnd s)) eqn:E; simpl.
  - apply andb_true_iff in E as [Ea Ee]. apply isEmpty_true in Ee.
    rewrite (eqb_space_false a c Hc Ea), <- IH, Ee. reflexivity.
  - rewrite IH. reflexivity.
Qed.

Lemma hasChar_trim c s :
  Ascii.is_space c = false -> hasChar c (trim s) = hasChar c s.
Proof.
  intros Hc. unfold trim. rewrite hasChar_trimEnd, hasChar_trimStart; auto.
Qed.

Lemma hasChar_beforeChar_same c s : hasChar c (beforeChar c s) = false.
Proof.
  induction s as [|a s IH]; simpl; [reflexivity|].
  destruct (Ascii.eqb a c) eqn:E; simpl; [reflexivity|]. rewrite E. exact IH.
Qed.

Lemma hasChar_beforeChar_other c d s :
  hasChar c s = false -> hasChar c (beforeChar d s) = false.
Proof.
  induction s as [|a s IH]; simpl; [reflexivity|].
  intros H. apply orb_false_iff in H as [H1 H2].
  destruct (Ascii.eqb a d); simpl; [reflexivity|]. rewrite H1. auto.
Qed.

Lemma beforeChar_absent c s : hasChar c s = false -> beforeChar c s = s.
Proof.
  induction s as [|a s IH]; simpl; [reflexivity|].
  intros H. apply orb_false_iff in H as [H1 H2]. rewrite H1, IH; auto.
Qed.

Lemma hasChar_dropPrefix c p s :
  startsWith p s = true -> hasChar c p = false ->
  hasChar c (dropChars (String.length p) s) = hasChar c s.
Proof.
  revert s. induction p as [|a p IH]; intros s Hs Hp; simpl; [reflexivity|].
  destruct s as [|b s]; simpl in *; [discriminate|].
  apply andb_true_iff in Hs as [Hab Hs]. apply orb_false_iff in Hp as [Ha Hp].
  apply Ascii.eqb_eq in Hab. subst b. rewrite Ha. simpl. auto.
Qed.

Lemma tokens_no_percent s :
  hasChar "%" s = false -> tokens s = Some (literals s).
Proof.
  induction s as [|a s IH]; simpl; [reflexivity|].
  intros H. apply orb_false_iff in H as [H1 H2].
  rewrite H1, IH by assumption. reflexivity.
Qed.

Lemma decodeTokens_literals s : decodeTokens (literals s) = Some s.
Proof. induction s as [|a s IH]; simpl; [reflexivity|]. rewrite IH. reflexivity. Qed.

Lemma decodeURIComponent_no_percent s :
  hasChar "%" s = false -> decodeURIComponent s = Some s.
Proof.
  intros H. unfold decodeURIComponent.
  rewrite tokens_no_percent by assumption. apply decodeTokens_literals.
Qed.

End JsFacts.

Example normalizeUrl_ex1 :
UrlProcessor.normalizeUrl "https://www.Example.com:8080/a%20b?x=1" = "example.com".
Proof. reflexivity. Qed.
Example normalizeUrl_ex2 :
UrlProcessor.normalizeUrl "www.www.a.com" = "www.a.com".
Proof. reflexivity. Qed.
Example normalizeUrl_ex3 :
UrlProcessor.normalizeUrl "HTTP://a.com" = "http://a.com".
Proof. reflexivity. Qed.
Example normalizeUrl_ex4 :
UrlProcessor.normalizeUrl "a.com/%zz" = "a.com/%zz".
Proof. reflexivity. Qed.
Example decode_ex1 : Js.decodeURIComponent "%C3%A9x" = Some (Js.byteStr [195; 169]%N "x").
Proof. reflexivity. Qed.
Example decode_ex2 : Js.decodeURIComponent "%C3x" = None.
Proof. reflexivity. Qed.

(** ** normalizeUrl *)

Module UrlProcessorFacts.
Import Js JsFacts UrlProcessor.

Lemma trimEnd_hostCut_trimEnd t :
  trimEnd (hostCut (trimEnd t)) = trimEnd (hostCut t).
Proof.
  unfold hostCut.
  rewrite <- (trimEnd_beforeChar_trimEnd ":" (beforeChar "/" (trimEnd t)))
    by reflexivity.
  rewrite (trimEnd_beforeChar_trimEnd "/" t) by reflexivity.
  apply trimEnd_beforeChar_trimEnd. reflexivity.
Qed.

Lemma hostCut_trimStart s : hostCut (trimStart s) = trimStart (hostCut s).
Proof. unfold hostCut. rewrite !beforeChar_trimStart by reflexivity. reflexivity. Qed.

Lemma trim_hostCut_trim s : trim (hostCut (trim s)) = trim (hostCut s).
Proof.
  unfold trim.
  rewrite (trim_comm (hostCut (trimEnd (trimStart s)))).
  rewrite trimEnd_hostCut_trimEnd, <- trim_comm.
  rewrite hostCut_trimStart, trimStart_idem. reflexivity.
Qed.

Lemma hostCut_lower s : hostCut (toLowerCase s) = toLowerCase (hostCut s).
Proof. unfold hostCut. rewrite !beforeChar_lower by reflexivity. reflexivity. Qed.

(** Every result is a lower-cased, trimmed string. *)
Lemma normalizeUrl_shape x : exists z, normalizeUrl x = trim (toLowerCase z).
Proof.
  unfold normalizeUrl, normalizeFallback, normalizeHost.
  destruct (isEmpty x); [exists ""; reflexivity|].
  destruct (decodeURIComponent x) as [d|]; [|eauto].
  match goal with |- context [if ?b then _ else _] => destruct b end; eauto.
Qed.

Lemma lower_trim_fixed z :
  let y := trim (toLowerCase z) in toLowerCase y = y /\ trim y = y.
Proof.
  simpl. split.
  - rewrite <- trim_lower, toLowerCase_idem. reflexivity.
  - apply trim_idem.
Qed.

Lemma hasPercent_fallback x :
  hasChar "%" (normalizeFallback x) = hasChar "%" x.
Proof.
  unfold normalizeFallback, stripWww, stripScheme, removePrefix.
  rewrite hasChar_trim, hasChar_lower by reflexivity.
  assert (Hs : forall s, hasChar "%"
            (if startsWith "www." s then dropChars (String.length "www.") s else s)
            = hasChar "%" s).
  { intros s. destruct (startsWith "www." s) eqn:E; [|reflexivity].
    apply hasChar_dropPrefix; [assumption|reflexivity]. }
  rewrite Hs.
  destruct (startsWith "http://" x) eqn:E1.
  { apply (hasChar_dropPrefix "%" "http://"); [assumption|reflexivity]. }
  destruct (startsWith "https://" x) eqn:E2; [|reflexivity].
  apply (hasChar_dropPrefix "%" "https://"); [assumption|reflexivity].
Qed.

Lemma normalizeHost_no_sep d :
  hasChar "/" (normalizeHost d) = false /\ hasChar ":" (normalizeHost d) = false.
Proof.
  unfold normalizeHost. split;
    rewrite hasChar_trim, hasChar_lower by reflexivity.
  - apply hasChar_beforeChar_other, hasChar_beforeChar_same.
  - apply hasChar_beforeChar_same.
Qed.

Section Clean.
Variable y : string.
Hypothesis Hpct : hasChar "%" y = false.
Hypothesis Hhttp : startsWith "http://" y = false.
Hypothesis Hhttps : startsWith "https://" y = false.
Hypothesis Hwww : startsWith "www." y = false.
Hypothesis Hlow : toLowerCase y = y.
Hypothesis Htrim : trim y = y.

Lemma clean_strip : stripWww (stripScheme y) = y.
Proof.
  unfold stripWww, stripScheme, removePrefix.
  rewrite Hhttp, Hhttps, Hwww. reflexivity.
Qed.

Lemma clean_fallback : normalizeFallback y = y.
Proof.
  unfold normalizeFallback. rewrite clean_strip, Hlow. exact Htrim.
Qed.

Lemma clean_host : normalizeHost y = trim (hostCut y).
Proof.
  unfold normalizeHost. rewrite clean_strip.
  rewrite <- hostCut_lower, Hlow. reflexivity.
Qed.

(** A clean string is a fixed point as soon as its host part is the
    whole string or fails the domain test. *)
Lemma clean_fixed :
  (trim (hostCut y) = y \/ rejected (trim (hostCut y)) = true) ->
  normalizeUrl y = y.
Proof.
  intros H. unfold normalizeUrl.
  destruct (isEmpty y) eqn:Ey; [apply isEmpty_true in Ey; congruence|].
  rewrite decodeURIComponent_no_percent by exact Hpct.
  cbv zeta. rewrite clean_host.
  destruct (rejected (trim (hostCut y))) eqn:E; [apply clean_fallback|].
  destruct H as [H|H]; [exact H|discriminate].
Qed.
End Clean.

Lemma normalizeUrl_cases x :
  normalizeUrl x = ""
  \/ (exists d, normalizeUrl x = normalizeHost d /\ rejected (normalizeHost d) = false)
  \/ (normalizeUrl x = normalizeFallback x /\
      (decodeURIComponent x = None \/
       exists d, decodeURIComponent x = Some d /\ rejected (normalizeHost d) = true)).
Proof.
  unfold normalizeUrl.
  destruct (isEmpty x); [left; reflexivity|].
  destruct (decodeURIComponent x) as [d|]; [|right; right; split; auto].
  cbv zeta.
  destruct (rejected (normalizeHost d)) eqn:E.
  - right. right. split; [reflexivity|]. right. exists d. split; [reflexivity|exact E].
  - right. left. exists d. split; [reflexivity|exact E].
Qed.

(** C6 (amended): normalizeUrl(normalizeUrl(x)) = normalizeUrl(x) for every
    input x whose normal form carries no percent sign and does not begin
    with "http://", "https://" or "www.". *)
Theorem normalizeUrl_idempotent_on_clean (x : string) :
  hasChar "%" (normalizeUrl x) = false ->
  startsWith "http://" (normalizeUrl x) = false ->
  startsWith "https://" (normalizeUrl x) = false ->
  startsWith "www." (normalizeUrl x) = false ->
  normalizeUrl (normalizeUrl x) = normalizeUrl x.
Proof.
  intros Hpct Hhttp Hhttps Hwww.
  destruct (normalizeUrl_shape x) as [z Hz].
  destruct (lower_trim_fixed z) as [Hlow Htrim]. rewrite <- Hz in Hlow, Htrim.
  destruct (normalizeUrl_cases x) as [He|[(d & Hd & Hok)|(Hf & Hwhy)]].
  - rewrite He. reflexivity.
  - apply clean_fixed; try assumption. left.
    rewrite Hd. unfold hostCut.
    destruct (normalizeHost_no_sep d) as [H1 H2].
    rewrite (beforeChar_absent "/") by exact H1.
    rewrite (beforeChar_absent ":") by exact H2.
    unfold normalizeHost. apply trim_idem.
  - apply clean_fixed; try assumption. right.
    rewrite Hf in Hpct. rewrite hasPercent_fallback in Hpct.
    pose proof (decodeURIComponent_no_percent x Hpct) as Hdec.
    destruct Hwhy as [Hn|(d & Hd & Hrej)]; [congruence|].
    assert (d = x) by congruence. subst d.
    rewrite Hf. unfold normalizeFallback.
    rewrite trim_hostCut_trim, hostCut_lower. exact Hrej.
Qed.

Lemma normalizeUrl_idempotent_on_clean_witness :
  normalizeUrl (normalizeUrl "https://www.Example.com:8080/a%20b")
  = normalizeUrl "https://www.Example.com:8080/a%20b".
Proof.
  apply (normalizeUrl_idempotent_on_clean "https://www.Example.com:8080/a%20b");
    reflexivity.
Defined.

(** C6 as stated fails: only one leading "www." is removed per call. *)
Lemma normalizeUrl_not_idempotent :
  "www.www.a.com" <> "" /\
  UrlProcessor.normalizeUrl (UrlProcessor.normalizeUrl "www.www.a.com")
  <> UrlProcessor.normalizeUrl "www.www.a.com".
Proof. split; [discriminate|]. vm_compute. discriminate. Qed.

End UrlProcessorFacts.

(** ** The R2 uploader *)

Module R2Facts.
Import Js R2.

Lemma successfulSize_snoc rs r :
  successfulSize (rs ++ [r]) =
  successfulSize rs + (if res_success r then default 0 (res_size r) else 0).
Proof.
  unfold successfulSize. rewrite List.filter_app, List.map_app, list_sum_app.
  simpl. destruct (res_success r); simpl; lia.
Qed.

Lemma successCount_snoc rs r :
  successCount (rs ++ [r]) = successCount rs + (if res_success r then 1 else 0).
Proof.
  unfold successCount. rewrite List.filter_app, List.length_app.
  simpl. destruct (res_success r); reflexivity.
Qed.

Lemma tally_init request n : tally n 0 (initialResponse request n).
Proof. split; reflexivity. Qed.

Lemma tally_recordResult n k resp entry :
  tally n k resp -> tally n (S k) (recordResult resp entry).
Proof.
  intros [Ht Hr Hs Hc Hz]. destruct entry as [[i item] r].
  unfold recordResult. destruct (res_success r) eqn:E; split; simpl;
    rewrite ?List.length_app, ?successCount_snoc, ?successfulSize_snoc; simpl;
    rewrite ?E; simpl; lia.
Qed.

Lemma tally_fold n entries : forall k resp,
  tally n k resp ->
  tally n (k + List.length entries) (List.fold_left recordResult entries resp).
Proof.
  induction entries as [|e es IH]; intros k resp H; simpl.
  - replace (k + 0) with k by lia. exact H.
  - replace (k + S (List.length es)) with (S k + List.length es) by lia.
    apply IH, tally_recordResult, H.
Qed.

Lemma finishAll_length prs : forall bucket,
  List.length (fst (finishAll bucket prs)) = List.length prs.
Proof.
  induction prs as [|pr rest IH]; intros bucket; simpl; [reflexivity|].
  destruct (finish bucket pr) as [r b1].
  specialize (IH b1). destruct (finishAll b1 rest) as [rs b2].
  simpl in *. congruence.
Qed.

Lemma runBatch_length `{UrlApi} bucket brandPrefix options env batch :
  List.length (fst (runBatch bucket brandPrefix options env batch))
  = List.length batch.
Proof. unfold runBatch. rewrite finishAll_length, List.length_map. reflexivity. Qed.

Lemma tally_runBatches `{UrlApi} n brandPrefix options env batches :
  forall bucket k resp,
  tally n k resp ->
  tally n (k + List.length (List.concat batches))
    (fst (runBatches bucket brandPrefix options env batches resp)).
Proof.
  induction batches as [|batch rest IH]; intros bucket k resp Hk; simpl.
  - replace (k + 0) with k by lia. exact Hk.
  - pose proof (runBatch_length bucket brandPrefix options env batch) as Hlen.
    destruct (runBatch bucket brandPrefix options env batch) as [rs b1].
    simpl in Hlen. rewrite List.length_app, Nat.add_assoc.
    apply IH.
    replace (List.length batch) with (List.length (List.combine batch rs)).
    + apply tally_fold, Hk.
    + rewrite List.length_combine. lia.
Qed.

Lemma slicesFrom_concat {A : Type} size fuel : forall l : list A,
  List.length l <= fuel -> List.concat (slicesFrom fuel (S size) l) = l.
Proof.
  induction fuel as [|fuel IH]; intros l Hl.
  - destruct l; [reflexivity|simpl in Hl; lia].
  - destruct l as [|a l]; [reflexivity|].
    cbn [slicesFrom List.concat]. rewrite IH.
    + apply take_drop.
    + simpl in *. rewrite length_drop. lia.
Qed.

Lemma slices_concat {A : Type} size (l : list A) :
  List.concat (slices (S size) l) = l.
Proof. apply slicesFrom_concat. lia. Qed.

Lemma indexed_length {A : Type} (l : list A) :
  List.length (indexed l) = List.length l.
Proof. unfold indexed. rewrite List.length_combine, List.length_seq. lia. Qed.

Lemma uploadBrandContent_tally `{UrlApi} (bucket : Bucket)
    (request : R2UploadRequest) (env : nat -> CallEnv) (items : list ContentItem) :
  req_content request = Some items ->
  exists resp bucket',
    uploadBrandContent bucket request env = (Returned resp, bucket') /\
    tally (List.length items) (List.length items) resp /\
    resp_success resp = negb (Nat.eqb (successful (summary resp)) 0).
Proof.
  intros Hc. unfold uploadBrandContent. rewrite Hc.
  destruct items as [|item items].
  - eexists _, _. split; [reflexivity|]. split; [apply tally_init|reflexivity].
  - set (l := item :: items).
    pose proof (tally_runBatches (List.length l)
                  (getBrandR2Prefix (req_domain request)) (req_options request) env
                  (slices BATCH_SIZE (indexed l)) bucket 0
                  (initialResponse request (List.length l))
                  (tally_init request (List.length l))) as Ht.
    unfold BATCH_SIZE in *. rewrite slices_concat, indexed_length in Ht.
    destruct (runBatches bucket _ _ env (slices 5 (indexed l)) _) as [resp b1].
    simpl in Ht. destruct Ht as [Ht Hr Hs Hn Hz].
    eexists _, _. split; [reflexivity|]. split; [split; assumption|reflexivity].
Qed.

(** C9: on a defined content list of length n the call returns, and the
    response has total = n, one result per item, successful + failed = n,
    totalSize equal to the sum of the sizes of the successful results, and
    success true exactly when successful > 0. *)
Theorem uploadBrandContent_summary `{UrlApi} (bucket : Bucket)
    (request : R2UploadRequest) (env : nat -> CallEnv) (items : list ContentItem) :
  req_content request = Some items ->
  exists resp bucket',
    uploadBrandContent bucket request env = (Returned resp, bucket') /\
    total (summary resp) = List.length items /\
    List.length (results resp) = List.length items /\
    successful (summary resp) + failed (summary resp) = List.length items /\
    totalSize (summary resp) = successfulSize (results resp) /\
    (resp_success resp = true <-> 0 < successful (summary resp)).
Proof.
  intros Hc.
  destruct (uploadBrandContent_tally bucket request env items Hc)
    as (resp & b & Hrun & [Ht Hr Hs Hn Hz] & Hok).
  exists resp, b. repeat split; try assumption.
  - rewrite Hok. destruct (successful (summary resp)); [discriminate|lia].
  - rewrite Hok. destruct (successful (summary resp)); [lia|reflexivity].
Qed.

(** C10: an absent content field makes the call throw before the guard,
    an empty array takes the early return with the zero summary and leaves
    the bucket alone, and a non-empty array never yields an empty result
    list. *)
Theorem uploadBrandContent_guard_order `{UrlApi} (bucket : Bucket)
    (request : R2UploadRequest) (env : nat -> CallEnv) :
  match req_content request with
  | None =>
      exists t, uploadBrandContent bucket request env = (Threw t, bucket)
  | Some [] =>
      uploadBrandContent bucket request env
      = (Returned (initialResponse request 0), bucket)
  | Some (_ :: _) =>
      exists resp bucket',
        uploadBrandContent bucket request env = (Returned resp, bucket') /\
        results resp <> []
  end.
Proof.
  destruct (req_content request) as [[|item items]|] eqn:Hc.
  - unfold uploadBrandContent. rewrite Hc. reflexivity.
  - destruct (uploadBrandContent_tally bucket request env _ Hc)
      as (resp & b & Hrun & [_ Hlen _ _ _] & _).
    exists resp, b. split; [exact Hrun|].
    intros E. rewrite E in Hlen. discriminate.
  - unfold uploadBrandContent. rewrite Hc. eauto.
Qed.

Lemma uploadBrandContent_summary_witness :
  exists resp bucket',
    uploadBrandContent (H := plainUrl) ∅ Samples.uploadRequest
      (fun i => Samples.quietAt (1000 + N.of_nat i))
    = (Returned resp, bucket') /\
    total (summary resp) = 2 /\
    List.length (results resp) = 2 /\
    successful (summary resp) + failed (summary resp) = 2 /\
    totalSize (summary resp) = successfulSize (results resp) /\
    (resp_success resp = true <-> 0 < successful (summary resp)).
Proof.
  apply (uploadBrandContent_summary (H := plainUrl) ∅ Samples.uploadRequest
           (fun i => Samples.quietAt (1000 + N.of_nat i))
           [Samples.aboutPage; Samples.homePage]).
  reflexivity.
Defined.

(** *** The object key carries the clock *)

Lemma append_inv_tail (x : string) : forall s1 s2 : string,
  s1 +:+ x = s2 +:+ x -> s1 = s2.
Proof.
  assert (Hlen : forall a b : string,
             String.length (a +:+ b) = String.length a + String.length b).
  { intros a b. induction a as [|c a IH]; simpl; [reflexivity|].
    change (String c a +:+ b) with (String c (a +:+ b)). simpl. lia. }
  induction s1 as [|a s1 IH]; intros [|b s2] E.
  - reflexivity.
  - apply (f_equal String.length) in E. rewrite !Hlen in E. simpl in E. lia.
  - apply (f_equal String.length) in E. rewrite !Hlen in E. simpl in E. lia.
  - change (String a (s1 +:+ x) = String b (s2 +:+ x)) in E.
    injection E as -> E. f_equal. apply IH, E.
Qed.

Lemma generateR2Key_clock_inj `{UrlApi} brandPrefix url index (t1 t2 : N) :
  generateR2Key brandPrefix url index t1 = generateR2Key brandPrefix url index t2 ->
  t1 = t2.
Proof.
  unfold generateR2Key. destruct (parseUrl url) as [u|]; cbv zeta; intros E;
    repeat (apply (inj (String.app _)) in E);
    apply append_inv_tail in E; exact (inj pretty _ _ E).
Qed.

(** Within one millisecond the existence check does find the object. *)
Lemma reupload_same_millisecond_skips `{UrlApi} (bucket : Bucket) brandPrefix item
    index options (e1 e2 : CallEnv) :
  overwriteRequested options = false ->
  headThrows e1 = None -> putThrows e1 = None -> headThrows e2 = None ->
  nowMs e1 = nowMs e2 ->
  forall r1 b1, uploadSingleContent bucket brandPrefix item index options e1 = (r1, b1) ->
  exists r2, uploadSingleContent b1 brandPrefix item index options e2 = (r2, b1)
             /\ res_success r2 = true.
Proof.
  intros Ho Hh1 Hp1 Hh2 Hms r1 b1.
  unfold uploadSingleContent, prepare. rewrite Ho, Hh1, Hh2, <- Hms.
  set (k := generateR2Key brandPrefix (url item) index (nowMs e1)).
  destruct (bucket !! k) as [o|] eqn:Hk; simpl.
  - intros [= <- <-]. rewrite Hk. simpl. eauto.
  - rewrite Hp1. intros [= <- <-]. rewrite lookup_insert_eq. simpl. eauto.
Qed.

(** C2 (the code against the claim): as soon as the clock has moved between
    two uploads of the same (brandPrefix, url) without overwrite, the second
    call computes another key, its existence check finds nothing, and it
    writes a second object next to the first. *)
Theorem reupload_after_tick_writes_again `{UrlApi} (bucket : Bucket) brandPrefix
    item index options (e1 e2 : CallEnv) :
  overwriteRequested options = false ->
  headThrows e1 = None -> putThrows e1 = None ->
  headThrows e2 = None -> putThrows e2 = None ->
  nowMs e1 <> nowMs e2 ->
  bucket !! generateR2Key brandPrefix (url item) index (nowMs e1) = None ->
  bucket !! generateR2Key brandPrefix (url item) index (nowMs e2) = None ->
  exists r1 r2 o1 o2,
    let k1 := generateR2Key brandPrefix (url item) index (nowMs e1) in
    let k2 := generateR2Key brandPrefix (url item) index (nowMs e2) in
    let b1 := <[k1 := o1]> bucket in
    uploadSingleContent bucket brandPrefix item index options e1 = (r1, b1) /\
    uploadSingleContent b1 brandPrefix item index options e2
      = (r2, <[k2 := o2]> b1) /\
    k1 <> k2 /\ b1 !! k2 = None /\
    res_success r1 = true /\ res_success r2 = true.
Proof.
  intros Ho Hh1 Hp1 Hh2 Hp2 Hms Hk1 Hk2.
  assert (Hne : generateR2Key brandPrefix (url item) index (nowMs e1)
                <> generateR2Key brandPrefix (url item) index (nowMs e2)).
  { intros E. apply Hms. exact (generateR2Key_clock_inj _ _ _ _ _ E). }
  set (k1 := generateR2Key brandPrefix (url item) index (nowMs e1)) in *.
  set (k2 := generateR2Key brandPrefix (url item) index (nowMs e2)) in *.
  assert (Hb1 : <[k1 := storedObject (putRequest brandPrefix item index e1 k1)]> bucket
                !! k2 = None).
  { rewrite lookup_insert_ne by exact Hne. exact Hk2. }
  eexists _, _, (storedObject (putRequest brandPrefix item index e1 k1)),
    (storedObject (putRequest brandPrefix item index e2 k2)).
  cbv zeta. split; [|split; [|split; [exact Hne|split; [exact Hb1|]]]].
  - unfold uploadSingleContent, prepare. rewrite Ho, Hh1. fold k1.
    rewrite Hk1. simpl. rewrite Hp1. reflexivity.
  - unfold uploadSingleContent, prepare. rewrite Ho, Hh2. fold k2.
    rewrite Hb1. simpl. rewrite Hp2. reflexivity.
  - split; reflexivity.
Qed.

Lemma reupload_after_tick_writes_again_witness :
  exists r1 r2 o1 o2,
    let k1 := generateR2Key (H := plainUrl) "brands/x.com"
                (url Samples.aboutPage) 0 1000 in
    let k2 := generateR2Key (H := plainUrl) "brands/x.com"
                (url Samples.aboutPage) 0 1001 in
    let b1 := <[k1 := o1]> (∅ : Bucket) in
    uploadSingleContent (H := plainUrl) ∅ "brands/x.com" Samples.aboutPage 0 None
      (Samples.quietAt 1000) = (r1, b1) /\
    uploadSingleContent (H := plainUrl) b1 "brands/x.com" Samples.aboutPage 0 None
      (Samples.quietAt 1001) = (r2, <[k2 := o2]> b1) /\
    k1 <> k2 /\ b1 !! k2 = None /\
    res_success r1 = true /\ res_success r2 = true.
Proof.
  apply (reupload_after_tick_writes_again (H := plainUrl) ∅ "brands/x.com"
           Samples.aboutPage 0 None (Samples.quietAt 1000) (Samples.quietAt 1001));
    try reflexivity.
  discriminate.
Defined.

(** The same two uploads, evaluated: two objects are stored. *)
Example reupload_stores_two_objects :
  let '(_, b1) := uploadSingleContent (H := plainUrl) ∅ "brands/x.com"
                    Samples.aboutPage 0 None (Samples.quietAt 1000) in
  let '(_, b2) := uploadSingleContent (H := plainUrl) b1 "brands/x.com"
                    Samples.aboutPage 0 None (Samples.quietAt 1001) in
  List.map fst (map_to_list b2)
  = ["brands/x.com/content/about/team-1001.md";
     "brands/x.com/content/about/team-1000.md"].
Proof. vm_compute. reflexivity. Qed.


End R2Facts.

(** ** Bucket cleanup *)

Module CleanupFacts.
Import Js R2.

Lemma append_cons a (s t : string) : String a s +:+ t = String a (s +:+ t).
Proof. reflexivity. Qed.

Lemma append_nil (t : string) : "" +:+ t = t.
Proof. reflexivity. Qed.

Lemma startsWith_append p : forall k,
  startsWith p k = true -> k = p +:+ dropChars (String.length p) k.
Proof.
  induction p as [|a p IH]; intros k Hk; [reflexivity|].
  destruct k as [|b k]; simpl in Hk; [discriminate|].
  apply andb_true_iff in Hk as [Hab Hk]. apply Ascii.eqb_eq in Hab. subst b.
  rewrite append_cons. simpl. f_equal. apply IH, Hk.
Qed.

Lemma startsWith_append_refl p k : startsWith p (p +:+ k) = true.
Proof.
  induction p as [|a p IH]; [reflexivity|].
  rewrite append_cons. simpl. rewrite Ascii.eqb_refl. exact IH.
Qed.

Lemma startsWith_append_l p q : forall k,
  startsWith (p +:+ q) k = true -> startsWith p k = true.
Proof.
  induction p as [|a p IH]; intros k Hk; [reflexivity|].
  rewrite append_cons in Hk. destruct k as [|b k]; simpl in *; [discriminate|].
  apply andb_true_iff in Hk as [Hab Hk]. rewrite Hab. simpl. apply IH, Hk.
Qed.

Lemma split_append c a b :
  hasChar c a = false -> split c (a +:+ String c b) = a :: split c b.
Proof.
  induction a as [|x a IH]; intros Ha.
  - rewrite append_nil. simpl. rewrite Ascii.eqb_refl. reflexivity.
  - simpl in Ha. apply orb_false_iff in Ha as [Hx Ha].
    rewrite append_cons. simpl. rewrite Hx, IH by exact Ha. reflexivity.
Qed.

Lemma split_parts_clean c s : Forall (fun p => hasChar c p = false) (split c s).
Proof.
  induction s as [|a s IH]; simpl.
  - constructor; [reflexivity|constructor].
  - destruct (Ascii.eqb a c) eqn:E.
    + constructor; [reflexivity|exact IH].
    + destruct (split c s) as [|h t]; inversion IH; subst;
        constructor; simpl; try rewrite E; auto.
Qed.

Lemma inList_spec x l : inList x l = true <-> x ∈ l.
Proof.
  unfold inList. rewrite List.existsb_exists. split.
  - intros (y & Hy & E). apply String.eqb_eq in E. subst. apply list_elem_of_In, Hy.
  - intros H. exists x. split; [apply list_elem_of_In, H|apply String.eqb_refl].
Qed.

Lemma folderOf_clean key f : folderOf key = Some f -> hasChar "/" f = false.
Proof.
  unfold folderOf. pose proof (split_parts_clean "/" key) as H.
  destruct (split "/" key) as [|p0 [|p1 t]]; try discriminate.
  destruct (String.eqb p0 "brands"); [|discriminate].
  intros [= <-]. inversion H as [|? ? _ H2]; subst. inversion H2; subst. assumption.
Qed.

Lemma folderOf_under f key :
  hasChar "/" f = false -> startsWith (folderPrefix f) key = true ->
  folderOf key = Some f.
Proof.
  intros Hf Hk. apply startsWith_append in Hk. rewrite Hk.
  set (rest := dropChars _ key). unfold folderOf, folderPrefix.
  change (("brands/" +:+ f +:+ "/") +:+ rest)
    with ("brands" +:+ String "/" ((f +:+ "/") +:+ rest)).
  rewrite split_append by reflexivity.
  assert (E : forall r, (f +:+ "/") +:+ r = f +:+ String "/" r).
  { clear. intros r. induction f as [|a f IH]; [reflexivity|].
    rewrite !append_cons. f_equal. exact IH. }
  rewrite E, split_append by exact Hf. reflexivity.
Qed.

Lemma folderPrefix_brands f key :
  startsWith (folderPrefix f) key = true -> startsWith "brands/" key = true.
Proof. apply (startsWith_append_l "brands/" (f +:+ "/")). Qed.

(** *** Listings *)

Lemma elem_of_keysUnder (bucket : Bucket) prefix k :
  k ∈ keysUnder bucket prefix <-> is_Some (bucket !! k) /\ startsWith prefix k = true.
Proof.
  unfold keysUnder. rewrite merge_sort_Permutation, list_elem_of_fmap. split.
  - intros ([k' o] & -> & H). apply elem_of_map_to_list in H.
    apply map_lookup_filter_Some in H as [H1 H2]. split; [eauto|exact H2].
  - intros ([o Ho] & Hp). exists (k, o). split; [reflexivity|].
    apply elem_of_map_to_list, map_lookup_filter_Some. split; [exact Ho|exact Hp].
Qed.

Lemma length_keysUnder (bucket : Bucket) prefix :
  List.length (keysUnder bucket prefix) = size (filter (underPrefix prefix) bucket).
Proof.
  unfold keysUnder. rewrite merge_sort_Permutation, length_fmap.
  apply length_map_to_list.
Qed.

Lemma listKeys_complete (bucket : Bucket) prefix :
  size (filter (underPrefix prefix) bucket) <= R2_LIST_LIMIT ->
  listKeys bucket prefix = keysUnder bucket prefix.
Proof.
  intros H. unfold listKeys. apply take_ge. rewrite length_keysUnder. exact H.
Qed.

Lemma filter_size_mono (b1 b2 : Bucket) p q :
  b1 ⊆ b2 -> (forall k, startsWith q k = true -> startsWith p k = true) ->
  size (filter (underPrefix q) b1) <= size (filter (underPrefix p) b2).
Proof.
  intros Hsub Hpq. apply map_subseteq_size, map_subseteq_spec.
  intros k o H. apply map_lookup_filter_Some in H as [H1 H2].
  apply map_lookup_filter_Some. split.
  - eapply lookup_weaken; eassumption.
  - apply Hpq, H2.
Qed.

Lemma deleteGroup_lookup (bucket : Bucket) keys k :
  deleteGroup noFaults bucket keys !! k
  = if decide (k ∈ keys) then None else bucket !! k.
Proof.
  unfold deleteGroup. revert bucket.
  induction keys as [|x keys IH]; intros bucket; cbn [List.fold_left noFaults deleteThrows].
  - destruct (decide (k ∈ [])) as [H|H]; [inversion H|reflexivity].
  - rewrite IH. destruct (decide (k ∈ keys)) as [Hin|Hnin].
    + rewrite decide_True by (right; exact Hin). reflexivity.
    + destruct (decide (k = x)) as [->|Hne].
      * rewrite decide_True by left. apply lookup_delete_eq.
      * rewrite decide_False by (intros H; inversion H; subst; tauto).
        apply lookup_delete_ne. congruence.
Qed.

(** *** The set of brand folders *)

Lemma setAdd_elem s x y : y ∈ setAdd s x <-> y ∈ s \/ y = x.
Proof.
  unfold setAdd. destruct (inList x s) eqn:E.
  - apply inList_spec in E. split; [auto|]. intros [H| ->]; assumption.
  - rewrite elem_of_app, list_elem_of_singleton. reflexivity.
Qed.

Lemma setAdd_NoDup s x : NoDup s -> NoDup (setAdd s x).
Proof.
  intros H. unfold setAdd. destruct (inList x s) eqn:E; [exact H|].
  apply NoDup_app. split; [exact H|]. split.
  - intros y Hy Hx. apply list_elem_of_singleton in Hx. subst y.
    apply inList_spec in Hy. congruence.
  - apply NoDup_singleton.
Qed.

Lemma brandFolders_fold keys : forall s,
  let s' := List.fold_left
      (fun s key => match folderOf key with Some f => setAdd s f | None => s end)
      keys s in
  (NoDup s -> NoDup s') /\
  (forall f, f ∈ s' <-> f ∈ s \/ exists key, key ∈ keys /\ folderOf key = Some f).
Proof.
  induction keys as [|key keys IH]; intros s; simpl.
  - split; [auto|]. intros f. split; [auto|].
    intros [H|(k & Hk & _)]; [exact H|inversion Hk].
  - destruct (IH (match folderOf key with Some f => setAdd s f | None => s end))
      as [IH1 IH2].
    split.
    + intros H. apply IH1. destruct (folderOf key); [apply setAdd_NoDup, H|exact H].
    + intros f. rewrite IH2. split.
      * intros [H|(k & Hk & Hf)].
        -- destruct (folderOf key) as [g|] eqn:Eg; [|auto].
           apply setAdd_elem in H as [H| ->]; [auto|].
           right. exists key. split; [left|exact Eg].
        -- right. exists k. split; [right; exact Hk|exact Hf].
      * intros [H|(k & Hk & Hf)].
        -- left. destruct (folderOf key); [apply setAdd_elem; auto|exact H].
        -- apply elem_of_cons in Hk as [->|Hk].
           ++ left. rewrite Hf. apply setAdd_elem. auto.
           ++ right. eauto.
Qed.

Lemma brandFoldersOf_NoDup keys : NoDup (brandFoldersOf keys).
Proof. apply (brandFolders_fold keys []). apply NoDup_nil_2. Qed.

Lemma elem_of_brandFoldersOf keys f :
  f ∈ brandFoldersOf keys <-> exists key, key ∈ keys /\ folderOf key = Some f.
Proof.
  unfold brandFoldersOf. rewrite (proj2 (brandFolders_fold keys [])).
  split; [intros [H|H]; [inversion H|exact H]|auto].
Qed.

(** *** The loop over the brand folders *)

Section Loop.
Variable bucket : Bucket.
Variable keep : list string.
Hypothesis Hsize : size (filter (underPrefix "brands/") bucket) <= R2_LIST_LIMIT.

Lemma hitBy_snoc fs f k :
  hitBy keep (fs ++ [f]) k
  = hitBy keep fs k || (negb (inList f keep) && startsWith (folderPrefix f) k).
Proof. unfold hitBy. rewrite List.existsb_app. simpl. rewrite orb_false_r. reflexivity. Qed.

Lemma hitBy_other fs f k :
  Forall (fun g => hasChar "/" g = false) fs -> hasChar "/" f = false ->
  f ∉ fs -> startsWith (folderPrefix f) k = true -> hitBy keep fs k = false.
Proof.
  intros Hfs Hf Hnin Hk. unfold hitBy.
  destruct (List.existsb _ fs) eqn:E; [|reflexivity].
  apply List.existsb_exists in E as (g & Hg & Hgk).
  apply andb_true_iff in Hgk as [_ Hgk].
  apply list_elem_of_In in Hg.
  assert (hasChar "/" g = false) by (eapply Forall_forall in Hfs; eauto).
  pose proof (folderOf_under g k ltac:(assumption) Hgk).
  pose proof (folderOf_under f k Hf Hk).
  assert (g = f) by congruence. subst g. contradiction.
Qed.

Lemma inv_subseteq fs st : cleanupInv bucket keep fs st -> cs_bucket st ⊆ bucket.
Proof.
  intros [Hl _ _]. apply map_subseteq_spec. intros k o Hk.
  rewrite Hl in Hk. destruct (hitBy keep fs k); [discriminate|exact Hk].
Qed.

Lemma cleanupFolder_inv fs st f :
  Forall (fun g => hasChar "/" g = false) fs -> hasChar "/" f = false ->
  f ∉ fs -> cleanupInv bucket keep fs st ->
  cleanupInv bucket keep (fs ++ [f]) (cleanupFolder noFaults keep st f).
Proof.
  intros Hfs Hf Hnin Hinv. pose proof Hinv as [Hl Ht He].
  unfold cleanupFolder. destruct (inList f keep) eqn:Ek.
  { split; [|exact Ht|exact He].
    intros k. rewrite hitBy_snoc, Ek. cbn [negb andb]. rewrite orb_false_r. apply Hl. }
  cbn [noFaults listThrows].
  assert (Hcomplete : listKeys (cs_bucket st) (folderPrefix f)
                      = keysUnder (cs_bucket st) (folderPrefix f)).
  { apply listKeys_complete. etrans; [|exact Hsize].
    apply filter_size_mono; [eapply inv_subseteq; eassumption|].
    intros k. apply folderPrefix_brands. }
  assert (Hsame : keysUnder (cs_bucket st) (folderPrefix f)
                  = keysUnder bucket (folderPrefix f)).
  { unfold keysUnder. do 3 f_equal. apply map_eq. intros k.
    destruct (startsWith (folderPrefix f) k) eqn:Ep.
    - rewrite !map_lookup_filter. rewrite Hl.
      rewrite (hitBy_other fs f k Hfs Hf Hnin Ep). reflexivity.
    - transitivity (@None R2Object); [|symmetry];
        apply map_lookup_filter_None; right; intros o _ Hu;
        unfold underPrefix in Hu; cbn [fst] in Hu; congruence. }
  assert (Hnew : forall k,
             deleteGroup noFaults (cs_bucket st)
               (keysUnder (cs_bucket st) (folderPrefix f)) !! k
             = if hitBy keep (fs ++ [f]) k then None else bucket !! k).
  { intros k. rewrite deleteGroup_lookup, hitBy_snoc, Ek. cbn [negb andb].
    destruct (decide (k ∈ keysUnder (cs_bucket st) (folderPrefix f))) as [Hin|Hnin'].
    - apply elem_of_keysUnder in Hin as [_ Hp]. rewrite Hp, orb_true_r. reflexivity.
    - rewrite Hl. destruct (hitBy keep fs k); [reflexivity|]. cbn [orb].
      destruct (startsWith (folderPrefix f) k) eqn:Ep; [|reflexivity].
      destruct (bucket !! k) as [o|] eqn:Ho; [|reflexivity].
      exfalso. apply Hnin'. apply elem_of_keysUnder. split; [|exact Ep].
      rewrite Hl, (hitBy_other fs f k Hfs Hf Hnin Ep), Ho. eauto. }
  rewrite Hcomplete.
  destruct (keysUnder (cs_bucket st) (folderPrefix f)) as [|k0 ks] eqn:Ekeys.
  - split; [|exact Ht|exact He].
    intros k. rewrite <- Hnew. reflexivity.
  - split; cbn [cs_bucket cs_trace cs_deletedFolders cs_errors].
    + exact Hnew.
    + rewrite List.map_app, <- Ht. simpl. rewrite <- Hsame. reflexivity.
    + exact He.
Qed.

Lemma cleanupFold_inv gs : forall fs st,
  Forall (fun g => hasChar "/" g = false) (fs ++ gs) -> NoDup (fs ++ gs) ->
  cleanupInv bucket keep fs st ->
  cleanupInv bucket keep (fs ++ gs)
    (List.fold_left (cleanupFolder noFaults keep) gs st).
Proof.
  induction gs as [|g gs IH]; intros fs st Hclean Hnd Hinv; simpl.
  - rewrite app_nil_r. exact Hinv.
  - replace (fs ++ g :: gs) with ((fs ++ [g]) ++ gs) in *
      by (rewrite <- app_assoc; reflexivity).
    apply IH; [exact Hclean|exact Hnd|].
    apply Forall_app in Hclean as [Hclean _].
    apply Forall_app in Hclean as [Hfs Hg].
    apply NoDup_app in Hnd as [Hnd _].
    apply NoDup_app in Hnd as (_ & Hdis & _).
    apply cleanupFolder_inv; [exact Hfs| |  |exact Hinv].
    + inversion Hg; assumption.
    + intros Hin. apply (Hdis g Hin). left.
Qed.

Lemma hitBy_doomed keys k :
  (forall key, key ∈ keys <-> is_Some (bucket !! key) /\ startsWith "brands/" key = true) ->
  is_Some (bucket !! k) ->
  hitBy keep (brandFoldersOf keys) k = doomed keep k.
Proof.
  intros Hkeys Hk. unfold doomed.
  destruct (hitBy keep (brandFoldersOf keys) k) eqn:Eh.
  - unfold hitBy in Eh. apply List.existsb_exists in Eh as (f & Hf & Hfk).
    apply andb_true_iff in Hfk as [Hkeep Hp].
    apply list_elem_of_In, elem_of_brandFoldersOf in Hf as (key & _ & Hfo).
    apply folderOf_clean in Hfo.
    rewrite (folderOf_under f k Hfo Hp), Hkeep, Hp. reflexivity.
  - destruct (folderOf k) as [f|] eqn:Ef; [|reflexivity].
    destruct (negb (inList f keep) && startsWith (folderPrefix f) k) eqn:E;
      [|reflexivity].
    rewrite <- Eh. unfold hitBy. apply List.existsb_exists.
    exists f. split; [|exact E]. apply list_elem_of_In, elem_of_brandFoldersOf.
    exists k. split; [|exact Ef]. apply Hkeys. split; [exact Hk|].
    apply andb_true_iff in E as [_ E]. eapply folderPrefix_brands, E.
Qed.

End Loop.

(** C8 (amended): when the bucket calls succeed and the listing of "brands/"
    fits one page, the handler removes exactly the objects whose key lies
    under brands/{d}/ for a folder d outside the keep-list, leaves every
    other object as it was, and issues the deletes of each deleted folder as
    one group holding all keys of that folder. *)
Theorem handleR2Cleanup_effect (bucket : Bucket) (request : CleanupRequest) :
  size (filter (underPrefix "brands/") bucket) <= R2_LIST_LIMIT ->
  exists resp bucket' trace,
    handleR2Cleanup noFaults bucket request = (resp, bucket', trace) /\
    (forall k, bucket' !! k
               = if doomed (default defaultBrandsToKeep (brandsToKeep request)) k
                 then None else bucket !! k) /\
    trace = List.map (fun f => keysUnder bucket (folderPrefix f))
              (deletedFoldersOf resp).
Proof.
  intros Hsize. unfold handleR2Cleanup. cbn [noFaults listThrows].
  set (keep := default defaultBrandsToKeep (brandsToKeep request)).
  rewrite (listKeys_complete bucket "brands/" Hsize).
  pose proof (elem_of_keysUnder bucket "brands/") as Hkeys.
  destruct (keysUnder bucket "brands/") as [|k0 ks] eqn:Ekeys.
  - eexists _, _, _. split; [reflexivity|]. split; [|reflexivity].
    intros k. destruct (doomed keep k) eqn:Ed; [|reflexivity].
    destruct (bucket !! k) as [o|] eqn:Ho; [|reflexivity].
    exfalso. unfold doomed in Ed. destruct (folderOf k) as [f|]; [|discriminate].
    apply andb_true_iff in Ed as [_ Ed]. apply folderPrefix_brands in Ed.
    assert (Hin : k ∈ @nil string) by (apply Hkeys; split; [rewrite Ho; eauto|exact Ed]).
    inversion Hin.
  - set (keys := k0 :: ks) in *.
    pose proof (cleanupFold_inv bucket keep Hsize (brandFoldersOf keys) []
                  {| cs_bucket := bucket; cs_deletedFolders := [];
                     cs_errors := []; cs_trace := [] |}) as Hinv.
    simpl in Hinv.
    destruct Hinv as [Hl Ht He].
    + apply Forall_forall. intros f Hf.
      apply elem_of_brandFoldersOf in Hf as (key & _ & Hfo).
      eapply folderOf_clean, Hfo.
    + apply brandFoldersOf_NoDup.
    + split; [|reflexivity|reflexivity]. intros k. reflexivity.
    + eexists _, _, _. split; [reflexivity|]. split; [|exact Ht].
      intros k. rewrite Hl.
      destruct (bucket !! k) as [o|] eqn:Ho.
      * rewrite (hitBy_doomed bucket keep keys k Hkeys) by (rewrite Ho; eauto).
        reflexivity.
      * destruct (hitBy keep _ k), (doomed keep k); reflexivity.
Qed.


Lemma handleR2Cleanup_effect_witness :
  exists resp bucket' trace,
    handleR2Cleanup noFaults Samples.smallBucket Samples.keepDefault
    = (resp, bucket', trace) /\
    (forall k, bucket' !! k
               = if doomed defaultBrandsToKeep k
                 then None else Samples.smallBucket !! k) /\
    trace = List.map (fun f => keysUnder Samples.smallBucket (folderPrefix f))
              (deletedFoldersOf resp).
Proof.
  apply (handleR2Cleanup_effect Samples.smallBucket Samples.keepDefault).
  apply Nat.leb_le. vm_compute. reflexivity.
Defined.

Example handleR2Cleanup_small :
  let '(resp, bucket', trace) :=
    handleR2Cleanup noFaults Samples.smallBucket Samples.keepDefault in
  deletedFoldersOf resp = ["a.com"] /\
  trace = [["brands/a.com/content/about/y-2.md";
            "brands/a.com/content/pages/x-1.md"]] /\
  (map_to_list bucket').*1
  = ["brands/nosana.io/content/pages/z-3.md"; "brands/readme.txt";
     "logs/today.txt"].
Proof. vm_compute. repeat split. Qed.

(** *** Batching *)

Lemma slicesFrom_bounded {A : Type} size fuel : forall l : list A,
  Forall (fun g => List.length g <= size) (slicesFrom fuel size l).
Proof.
  induction fuel as [|fuel IH]; intros l; simpl; [constructor|].
  destruct l as [|a l]; [constructor|].
  constructor; [|apply IH]. rewrite length_take. lia.
Qed.

(** [deleteBrandContent] is the function that batches by 100. *)
Lemma deleteBrandContent_batches faults (bucket : Bucket) domain prefix :
  let '(_, _, trace) := deleteBrandContent faults bucket domain prefix in
  Forall (fun g => List.length g <= DELETE_BATCH_SIZE) trace.
Proof.
  unfold deleteBrandContent, listBrandContent.
  destruct (listThrows faults _); [constructor|]. apply slicesFrom_bounded.
Qed.

(** C8 as stated fails: the handler does not batch.  For a brand folder
    with 101 objects it issues all 101 deletes as one group, where
    [deleteBrandContent] issues groups of 100 and 1. *)
Lemma handleR2Cleanup_does_not_batch :
  let '(_, _, trace) :=
    handleR2Cleanup noFaults Samples.bigBucket Samples.keepNothing in
  let '(_, _, trace') :=
    deleteBrandContent noFaults Samples.bigBucket "big.io" None in
  List.map List.length trace = [101] /\
  ~ Forall (fun g => List.length g <= 100) trace /\
  List.map List.length trace' = [100; 1].
Proof.
  vm_compute. split; [reflexivity|]. split; [|reflexivity].
  intros H. apply Forall_inv in H. apply Nat.leb_le in H. discriminate H.
Qed.


End CleanupFacts.

(** ** The two completion paths of a brand extraction *)

Module ExtractFacts.
Import Js Db.



End ExtractFacts.

(** ** What the primitives of the world touch *)

Module WorldFacts.
Import Js Db.

Lemma readClock_urls rt w : urlsOf (snd (readClock rt w)) = urlsOf w.
Proof. reflexivity. Qed.
Lemma readClock_log rt w : urlStatusLog (snd (readClock rt w)) = urlStatusLog w.
Proof. reflexivity. Qed.
Lemma readClock_mappings rt w : mappingsOf (snd (readClock rt w)) = mappingsOf w.
Proof. reflexivity. Qed.

Lemma nextCall_urls w : urlsOf (snd (nextCall w)) = urlsOf w.
Proof. unfold nextCall. destruct (dbFaults w); reflexivity. Qed.
Lemma nextCall_log w : urlStatusLog (snd (nextCall w)) = urlStatusLog w.
Proof. unfold nextCall. destruct (dbFaults w); reflexivity. Qed.

Lemma writeDb_db w change :
  db (snd (writeDb w change)) = db w \/ db (snd (writeDb w change)) = change (db w).
Proof.
  unfold writeDb, nextCall. destruct (dbFaults w) as [|[] rest]; simpl; auto.
Qed.

Lemma writeDb_log w change : urlStatusLog (snd (writeDb w change)) = urlStatusLog w.
Proof.
  unfold writeDb, nextCall. destruct (dbFaults w) as [|[] rest]; reflexivity.
Qed.

Lemma updateMappings_urls w p f : urlsOf (updateMappings w p f) = urlsOf w.
Proof.
  unfold updateMappings, urlsOf.
  destruct (writeDb_db w (fun d => withMappings d
              (updateWhere p f (playground_url_mappings d)))) as [-> | ->];
    reflexivity.
Qed.
Lemma updateMappings_log w p f : urlStatusLog (updateMappings w p f) = urlStatusLog w.
Proof. apply writeDb_log. Qed.

Lemma updateBrands_urls w p f : urlsOf (snd (updateBrands w p f)) = urlsOf w.
Proof.
  unfold updateBrands, urlsOf.
  destruct (writeDb_db w (fun d => withBrands d (updateWhere p f (brands d))))
    as [-> | ->]; reflexivity.
Qed.
Lemma updateBrands_log w p f : urlStatusLog (snd (updateBrands w p f)) = urlStatusLog w.
Proof. apply writeDb_log. Qed.

Lemma updateBrandUrls_urls w s p f :
  urlsOf (updateBrandUrls w s p f) = urlsOf w
  \/ urlsOf (updateBrandUrls w s p f) = updateWhere p f (urlsOf w).
Proof.
  unfold updateBrandUrls, urlsOf.
  destruct (writeDb_db (logUrlStatus w s)
              (fun d => withBrandUrls d (updateWhere p f (brand_urls d))))
    as [-> | ->]; auto.
Qed.
Lemma updateBrandUrls_log w s p f :
  urlStatusLog (updateBrandUrls w s p f) = urlStatusLog w ++ [s].
Proof. unfold updateBrandUrls. rewrite writeDb_log. reflexivity. Qed.

(** *** Status values *)

Lemma urlsWithin_same allowed w w' :
  urlsOf w' = urlsOf w -> urlStatusLog w' = urlStatusLog w ->
  urlsWithin allowed w -> urlsWithin allowed w'.
Proof. unfold urlsWithin, urlsOf. intros -> ->. auto. Qed.

Lemma urlsWithin_updateBrandUrls allowed w s p f :
  statusIn allowed s = true -> (forall r, u_status (f r) = s) ->
  urlsWithin allowed w -> urlsWithin allowed (updateBrandUrls w s p f).
Proof.
  intros Hs Hf [Hrows Hlog]. split.
  - fold (urlsOf (updateBrandUrls w s p f)).
    destruct (updateBrandUrls_urls w s p f) as [-> | ->]; [exact Hrows|].
    unfold updateWhere. apply Forall_forall. intros r Hr.
    apply list_elem_of_In, List.in_map_iff in Hr as (r0 & <- & Hr0).
    destruct (p r0); [rewrite Hf; exact Hs|].
    eapply Forall_forall in Hrows; [exact Hrows|]. apply list_elem_of_In, Hr0.
  - rewrite updateBrandUrls_log. apply Forall_app. split; [exact Hlog|].
    constructor; [exact Hs|constructor].
Qed.

End WorldFacts.

(** ** Status values written by the webhook handler *)

Module StatusFacts.
Import Js Db Webhook WorldFacts.

Ltac after_clock H :=
  match goal with
  | |- context [readClock ?rt ?w] =>
      let now := fresh "now" in
      let w1 := fresh "w" in
      let E := fresh "E" in
      let H1 := fresh "Hw" in
      destruct (readClock rt w) as [now w1] eqn:E;
      assert (H1 : urlsWithin writtenStatuses w1)
        by (apply (f_equal snd) in E; cbn [snd] in E; subst w1;
            eapply urlsWithin_same; [reflexivity|reflexivity|exact H]);
      clear E
  end.

Lemma within_updateMappings w p f :
  urlsWithin writtenStatuses w -> urlsWithin writtenStatuses (updateMappings w p f).
Proof.
  apply urlsWithin_same; [apply updateMappings_urls|apply updateMappings_log].
Qed.

Lemma within_updateBrands w p f :
  urlsWithin writtenStatuses w ->
  urlsWithin writtenStatuses (snd (updateBrands w p f)).
Proof.
  apply urlsWithin_same; [apply updateBrands_urls|apply updateBrands_log].
Qed.

Lemma within_nextCall w :
  urlsWithin writtenStatuses w -> urlsWithin writtenStatuses (snd (nextCall w)).
Proof. apply urlsWithin_same; [apply nextCall_urls|apply nextCall_log]. Qed.

Lemma within_uploadPageToR2 `{UrlApi} rt w page brand domainName :
  urlsWithin writtenStatuses w ->
  urlsWithin writtenStatuses (uploadPageToR2 rt w page brand domainName).
Proof.
  intros Hw. unfold uploadPageToR2.
  destruct (pageUrl page) as [url|]; [|exact Hw].
  after_clock Hw.
  match goal with
  | |- context [updateBrandUrls ?a "uploading" ?p ?f] =>
      assert (Hu : urlsWithin writtenStatuses (updateBrandUrls a "uploading" p f))
        by (apply urlsWithin_updateBrandUrls; [reflexivity|reflexivity|assumption]);
      set (wu := updateBrandUrls a "uploading" p f) in *
  end.
  destruct (R2.uploadBrandContent _ _ _) as [result bucket1].
  assert (Hb : urlsWithin writtenStatuses (withBucket wu bucket1))
    by (eapply urlsWithin_same; [reflexivity|reflexivity|exact Hu]).
  destruct result as [uploadResult|t]; [|exact Hb].
  destruct (R2.results uploadResult) as [|first rest].
  - apply urlsWithin_updateBrandUrls; [reflexivity|reflexivity|exact Hb].
  - destruct (R2.resp_success uploadResult && R2.res_success first).
    + after_clock Hb.
      apply urlsWithin_updateBrandUrls; [reflexivity|reflexivity|assumption].
    + apply urlsWithin_updateBrandUrls; [reflexivity|reflexivity|exact Hb].
Qed.

(** C1 (amended): with "scraped" added to the set, every status value the
    handler sends to a brand_urls row, and every row's status after an
    event, lies in {discovered, scraping, scraped, uploading, uploaded,
    failed}. *)
Theorem handler_keeps_written_statuses `{UrlApi} (rt : Runtime) (w : World)
    (event : FirecrawlWebhookEvent) :
  urlsWithin writtenStatuses w ->
  urlsWithin writtenStatuses (snd (handleFirecrawlWebhook rt w event)).
Proof.
  intros Hw. unfold handleFirecrawlWebhook.
  destruct (ev_metadata event) as [meta|]; [|exact Hw].
  destruct (present (brandId meta)) as [brand|]; [|exact Hw].
  destruct (present (domain meta)) as [domainName|]; [|exact Hw].
  destruct (oneOf (ev_type event) ["crawl.started"; "batch_scrape.started"]).
  { unfold handleJobStarted. destruct (present (mappingId meta)); [|exact Hw].
    apply within_updateMappings, Hw. }
  destruct (oneOf (ev_type event) ["crawl.page"; "batch_scrape.page"]).
  { unfold handlePageScraped.
    destruct (ev_data event) as [[|page rest]|]; try exact Hw.
    destruct (pageUrl page) as [url|] eqn:Eurl; [|exact Hw].
    after_clock Hw. cbn [snd].
    apply within_uploadPageToR2.
    apply urlsWithin_updateBrandUrls; [reflexivity|reflexivity|assumption]. }
  destruct (oneOf (ev_type event) ["crawl.completed"; "batch_scrape.completed"]).
  { unfold handleJobCompleted.
    pose proof (within_nextCall w Hw) as Hn.
    destruct (nextCall w) as [selectFails w1]. cbn [snd] in Hn.
    destruct (present (mappingId meta)); [|exact Hn].
    after_clock Hn. cbn [snd]. apply within_updateMappings. assumption. }
  destruct (String.eqb (ev_type event) "extract.completed").
  { unfold handleExtractCompleted.
    destruct (jobType meta) as [job|]; [|exact Hw].
    destruct (ev_data event) as [[|first rest]|]; try exact Hw.
    destruct (String.eqb job "brandExtraction"); [|exact Hw].
    after_clock Hw. after_clock Hw0. cbn [snd].
    apply within_updateBrands. assumption. }
  destruct (oneOf (ev_type event)
              ["crawl.failed"; "batch_scrape.failed"; "extract.failed"]);
    [|exact Hw].
  unfold handleJobFailed. cbn [snd].
  apply urlsWithin_updateBrandUrls; [reflexivity|reflexivity|].
  destruct (present (mappingId meta)); [|exact Hw].
  after_clock Hw. apply within_updateMappings. assumption.
Qed.

Lemma handler_keeps_written_statuses_witness :
  urlsWithin writtenStatuses
    (snd (handleFirecrawlWebhook (H := plainUrl) Samples.runtime Samples.world
            Samples.pageEvent)).
Proof.
  apply (handler_keeps_written_statuses (H := plainUrl) Samples.runtime
           Samples.world Samples.pageEvent).
  split; repeat constructor.
Defined.

(** C1 as stated fails: starting from a row in the set of the data model,
    a page event sends the status "scraped", which is outside that set; and
    when the two updates that follow are refused by the database the row is
    left with it. *)
Lemma handler_writes_scraped :
  let after :=
    snd (handleFirecrawlWebhook (H := plainUrl) Samples.runtime Samples.world
           Samples.pageEvent) in
  let afterFaults :=
    snd (handleFirecrawlWebhook (H := plainUrl) Samples.runtime
           (Samples.worldWith [false; true; true]) Samples.pageEvent) in
  urlsWithin modelStatuses Samples.world /\
  urlsWithin modelStatuses (Samples.worldWith [false; true; true]) /\
  statusIn modelStatuses "scraped" = false /\
  urlStatusLog after = ["scraped"; "uploading"; "uploaded"] /\
  ~ urlsWithin modelStatuses after /\
  List.map u_status (brand_urls (db afterFaults)) = ["scraped"] /\
  ~ urlsWithin modelStatuses afterFaults.
Proof.
  cbv zeta.
  split; [split; repeat constructor|].
  split; [split; repeat constructor|].
  split; [reflexivity|].
  split; [vm_compute; reflexivity|].
  split.
  { intros [_ Hlog]. apply Forall_inv in Hlog. vm_compute in Hlog. discriminate. }
  split; [vm_compute; reflexivity|].
  intros [Hrows _]. apply Forall_inv in Hrows. vm_compute in Hrows. discriminate.
Qed.


End StatusFacts.

(** ** The progress of a discovery run *)

Module ProgressFacts.
Import Js Db Webhook Pipeline WorldFacts.















(** *** The orchestrator's writes *)












Example progress_of_a_run :
  let w1 := snd (Samples.mappingStep Samples.provider) in
  let w2 :=
    snd (launchAndRespond (H := plainUrl) Samples.provider w1
           "https://worker.example" "x.com" "ext-1" Samples.firstBrand
           (Some Samples.firstMapping)) in
  progressAt "m1" w2 = [40] /\
  List.map (progressAt "m1")
    (runEvents (H := plainUrl) Samples.runtime w2
       [Samples.startedEvent; Samples.pageEvent; Samples.completedEvent])
  = [[50]; [50]; [100]].
Proof. vm_compute. split; reflexivity. Qed.



End ProgressFacts.

(** ** The orchestrator and a failed launch *)

Module PipelineFacts.
Import Js Db Webhook Pipeline WorldFacts.



(** The failure responses: no extraction job, a rejected insert (the one
    value that is thrown), a rejected upsert. *)
Lemma failure_responses `{UrlApi} (rt : Runtime) (pv : Provider)
    (w : World) (env_URL domainName : string) :
  success (fst (processUnifiedBrandDiscovery rt pv w env_URL domainName)) = false ->
  present (startAsyncBrandExtraction pv domainName) = None
  \/ (exists job t w1,
        present (startAsyncBrandExtraction pv domainName) = Some job /\
        findOrCreateBrand rt pv w domainName job = (inl t, w1))
  \/ (exists job brandRow w1 w2,
        present (startAsyncBrandExtraction pv domainName) = Some job /\
        findOrCreateBrand rt pv w domainName job = (inr brandRow, w1) /\
        upsertMapping rt pv w1 (b_id brandRow) domainName = (None, w2)).
Proof.
  unfold processUnifiedBrandDiscovery.
  destruct (present (startAsyncBrandExtraction pv domainName)) as [job|];
    [|auto].
  destruct (findOrCreateBrand rt pv w domainName job) as [[t|brandRow] w1] eqn:Eb.
  - intros _. right. left. eauto.
  - destruct (upsertMapping rt pv w1 (b_id brandRow) domainName) as [[m|] w2] eqn:Em.
    + discriminate.
    + intros _. right. right. eauto 10.
Qed.


(** The run of the witness: the map finds nothing, the mapping row ends as
    failed, the response says success. *)
Example barren_site_run :
  let '(response, after) :=
    processUnifiedBrandDiscovery (H := plainUrl) Samples.runtime
      Samples.barrenProvider Samples.emptyWorld "https://worker.example" "x.com" in
  success response = true /\
  List.map (fun r => (m_status r, m_error_message r, m_progress_percentage r))
    (mappingsOf after)
  = [("failed", Some "No URLs discovered during mapping", 30)].
Proof. vm_compute. split; reflexivity. Qed.

End PipelineFacts.

(** ** Signature verification *)

Module VerifyFacts.
Import Js Verify CleanupFacts.

Lemma hexByte_no_eq a : hasChar "=" (hexByte a) = false.
Proof. destruct a as [[] [] [] [] [] [] [] []]; reflexivity. Qed.

Lemma hasChar_append c (s t : string) :
  hasChar c (s +:+ t) = hasChar c s || hasChar c t.
Proof.
  induction s as [|a s IH]; [reflexivity|].
  rewrite append_cons. simpl. rewrite IH, orb_assoc. reflexivity.
Qed.

Lemma hexOf_no_eq bytes : hasChar "=" (hexOf bytes) = false.
Proof.
  induction bytes as [|a rest IH]; [reflexivity|].
  cbn [hexOf]. rewrite hasChar_append, hexByte_no_eq, IH. reflexivity.
Qed.

Lemma split_absent c s : hasChar c s = false -> split c s = [s].
Proof.
  induction s as [|a s IH]; [reflexivity|].
  simpl. intros H. apply orb_false_iff in H as [Ha Hs].
  rewrite Ha, IH by exact Hs. reflexivity.
Qed.

Lemma split_signedHeader `{HmacApi} secret body :
  split "=" (signedHeader secret body) = ["sha256"; expectedSignature secret body].
Proof.
  unfold signedHeader.
  change ("sha256=" +:+ expectedSignature secret body)
    with ("sha256" +:+ String "=" (expectedSignature secret body)).
  rewrite split_append by reflexivity.
  rewrite split_absent by apply hexOf_no_eq. reflexivity.
Qed.

(** A request without the header is rejected. *)
Lemma verify_without_header `{HmacApi} body secret :
  verifyWebhookSignature {| signatureHeader := None; requestBody := body |} secret
  = (false, "").
Proof. reflexivity. Qed.

(** A body signed under a non-empty secret passes. *)
Lemma verify_signed `{HmacApi} body secret :
  isEmpty secret = false ->
  verifyWebhookSignature
    {| signatureHeader := Some (signedHeader secret body); requestBody := body |}
    secret
  = (true, body).
Proof.
  intros Hs. unfold verifyWebhookSignature. cbn [signatureHeader requestBody].
  rewrite split_signedHeader, Hs. cbn [isEmpty signedHeader].
  change (isEmpty (signedHeader secret body)) with false.
  cbn [negb String.eqb]. rewrite String.eqb_refl, Nat.eqb_refl. reflexivity.
Qed.

(** Acceptance, exactly: the first part of the header is "sha256" and the
    second the hexadecimal HMAC of the body under a non-empty secret. *)
Lemma verify_accepts_iff `{HmacApi} request secret :
  fst (verifyWebhookSignature request secret) = true <->
  isEmpty secret = false /\
  exists signature rest,
    signatureHeader request = Some signature /\
    split "=" signature
    = "sha256" :: expectedSignature secret (requestBody request) :: rest.
Proof.
  unfold verifyWebhookSignature, rejectedRequest. split.
  - destruct (signatureHeader request) as [signature|]; [|discriminate].
    destruct (isEmpty signature); [discriminate|].
    destruct (split "=" signature) as [|algorithm parts] eqn:Es; [discriminate|].
    destruct (String.eqb algorithm "sha256") eqn:Ea; [|discriminate].
    apply String.eqb_eq in Ea. subst algorithm. cbn [negb].
    destruct (isEmpty secret); [discriminate|].
    destruct parts as [|hash rest]; [discriminate|]. cbn [fst].
    intros E. apply andb_true_iff in E as [_ E]. apply String.eqb_eq in E.
    subst hash. split; [reflexivity|]. eauto.
  - intros (Hs & signature & rest & Hh & Hsplit).
    rewrite Hh, Hsplit, Hs.
    destruct (isEmpty signature) eqn:Ee.
    { apply JsFacts.isEmpty_true in Ee. subst. discriminate Hsplit. }
    rewrite !String.eqb_refl, Nat.eqb_refl. reflexivity.
Qed.

Lemma split_prefix c : forall s a b rest,
  split c s = a :: b :: rest -> startsWith (a +:+ String c b) s = true.
Proof.
  induction s as [|x s IH]; intros a b rest E; [discriminate|].
  simpl in E. destruct (Ascii.eqb x c) eqn:Ex.
  - injection E as <- E. apply Ascii.eqb_eq in Ex. subst x.
    rewrite append_nil. simpl. rewrite Ascii.eqb_refl. simpl.
    clear IH. revert b rest E. induction s as [|y s IH]; intros b rest E.
    + injection E as <- _. reflexivity.
    + simpl in E. destruct (Ascii.eqb y c).
      * injection E as <- _. reflexivity.
      * destruct (split c s) as [|h t] eqn:Eh; injection E as <- E.
        -- simpl. rewrite Ascii.eqb_refl. destruct s; reflexivity.
        -- simpl. rewrite Ascii.eqb_refl. simpl. eapply IH. subst. reflexivity.
  - destruct (split c s) as [|h t] eqn:Eh; [discriminate|].
    injection E as <- E. subst t. rewrite append_cons. simpl.
    rewrite Ascii.eqb_refl. simpl. eapply IH. reflexivity.
Qed.

Lemma length_append (s t : string) :
  String.length (s +:+ t) = String.length s + String.length t.
Proof.
  induction s as [|a s IH]; [reflexivity|]. rewrite append_cons. simpl. lia.
Qed.

Lemma startsWith_same_length p : forall s,
  startsWith p s = true -> String.length p = String.length s -> p = s.
Proof.
  induction p as [|a p IH]; intros [|b s] Hp Hl; simpl in *;
    try discriminate; [reflexivity|].
  apply andb_true_iff in Hp as [Hab Hp]. apply Ascii.eqb_eq in Hab.
  subst. f_equal. apply IH; [exact Hp|lia].
Qed.

(** Changing one byte of the header of a signed request makes it fail. *)
Lemma verify_changed_signature `{HmacApi} body secret header' :
  oneByteChanged (signedHeader secret body) header' ->
  fst (verifyWebhookSignature
         {| signatureHeader := Some header'; requestBody := body |} secret)
  = false.
Proof.
  intros (pre & a & b & post & Hab & Hs & Hs').
  destruct (fst (verifyWebhookSignature _ secret)) eqn:E; [|reflexivity].
  exfalso. apply verify_accepts_iff in E as (_ & signature & rest & Hh & Hsplit).
  cbn [signatureHeader requestBody] in Hh, Hsplit. injection Hh as <-.
  apply split_prefix in Hsplit.
  change ("sha256" +:+ String "=" (expectedSignature secret body))
    with (signedHeader secret body) in Hsplit.
  apply startsWith_same_length in Hsplit.
  - rewrite Hs, Hs' in Hsplit. apply (inj (String.app pre)) in Hsplit.
    injection Hsplit as Hc. contradiction.
  - rewrite Hs, Hs', !length_append. reflexivity.
Qed.

(** Changing the body makes a signed request fail as soon as the two
    bodies have different signatures. *)
Lemma verify_changed_body `{HmacApi} body body' secret :
  expectedSignature secret body' <> expectedSignature secret body ->
  fst (verifyWebhookSignature
         {| signatureHeader := Some (signedHeader secret body);
            requestBody := body' |} secret)
  = false.
Proof.
  intros Hne.
  destruct (fst (verifyWebhookSignature _ secret)) eqn:E; [|reflexivity].
  exfalso. apply verify_accepts_iff in E as (_ & signature & rest & Hh & Hsplit).
  cbn [signatureHeader requestBody] in Hh, Hsplit. injection Hh as <-.
  rewrite split_signedHeader in Hsplit. injection Hsplit as Hsig _.
  apply Hne. symmetry. exact Hsig.
Qed.

End VerifyFacts.

(** ** More on the R2 uploader *)

Module R2More.
Import Js R2 R2Facts CleanupFacts.

(** *** File names *)

Lemma includes_dashes_cons a r :
  includes "--" (String a r)
  = (Ascii.eqb "-" a && startsWith "-" r) || includes "--" r.
Proof. reflexivity. Qed.

Lemma startsWith_dash_cons a r : startsWith "-" (String a r) = Ascii.eqb "-" a.
Proof. simpl. apply andb_true_r. Qed.

Lemma dashOthers_keyChars s : allChars isKeyChar (dashOthers s) = true.
Proof.
  unfold dashOthers. induction s as [|a s IH]; [reflexivity|].
  cbn [mapChars allChars]. rewrite IH, andb_true_r.
  destruct (isKeyChar a) eqn:E; [exact E|reflexivity].
Qed.

Lemma collapseDashes_keyChars s :
  allChars isKeyChar s = true -> allChars isKeyChar (collapseDashes s) = true.
Proof.
  induction s as [|a s IH]; [reflexivity|].
  cbn [allChars collapseDashes]. intros H. apply andb_true_iff in H as [Ha Hs].
  destruct (Ascii.eqb a "-" && startsWith "-" s); [auto|].
  cbn [allChars]. rewrite Ha. auto.
Qed.

Lemma collapseDashes_head s :
  startsWith "-" (collapseDashes s) = startsWith "-" s.
Proof.
  induction s as [|a s IH]; [reflexivity|]. cbn [collapseDashes].
  destruct (Ascii.eqb a "-" && startsWith "-" s) eqn:E.
  - apply andb_true_iff in E as [Ea Es]. rewrite IH, Es.
    rewrite startsWith_dash_cons, Ascii.eqb_sym. symmetry. exact Ea.
  - rewrite !startsWith_dash_cons. reflexivity.
Qed.

Lemma collapseDashes_single s : includes "--" (collapseDashes s) = false.
Proof.
  induction s as [|a s IH]; [reflexivity|]. cbn [collapseDashes].
  destruct (Ascii.eqb a "-" && startsWith "-" s) eqn:E; [exact IH|].
  rewrite includes_dashes_cons, IH, orb_false_r, collapseDashes_head.
  rewrite Ascii.eqb_sym. exact E.
Qed.

Lemma dropLastDash_keyChars s :
  allChars isKeyChar s = true -> allChars isKeyChar (dropLastDash s) = true.
Proof.
  induction s as [|a s IH]; [reflexivity|].
  cbn [allChars dropLastDash]. intros H. apply andb_true_iff in H as [Ha Hs].
  destruct (Ascii.eqb a "-" && isEmpty s); [reflexivity|].
  cbn [allChars]. rewrite Ha. auto.
Qed.

Lemma dropLastDash_head s :
  startsWith "-" s = false -> startsWith "-" (dropLastDash s) = false.
Proof.
  destruct s as [|a s]; [reflexivity|]. cbn [dropLastDash].
  rewrite startsWith_dash_cons. intros Ha.
  rewrite (Ascii.eqb_sym a), Ha. cbn [andb]. rewrite startsWith_dash_cons. exact Ha.
Qed.

Lemma dropLastDash_single s :
  includes "--" s = false -> includes "--" (dropLastDash s) = false.
Proof.
  induction s as [|a s IH]; [reflexivity|]. cbn [dropLastDash].
  rewrite includes_dashes_cons. intros H. apply orb_false_iff in H as [H1 H2].
  destruct (Ascii.eqb a "-" && isEmpty s) eqn:E; [reflexivity|].
  rewrite includes_dashes_cons, (IH H2), orb_false_r.
  destruct (Ascii.eqb "-" a) eqn:Ea; [|reflexivity]. cbn [andb] in *.
  destruct s as [|b s]; [reflexivity|]. cbn [dropLastDash].
  rewrite startsWith_dash_cons in H1.
  rewrite (Ascii.eqb_sym b), H1. cbn [andb]. rewrite startsWith_dash_cons. exact H1.
Qed.

Lemma dropLastDash_tail s :
  includes "--" s = false -> endsWithDash (dropLastDash s) = false.
Proof.
  induction s as [|a s IH]; [reflexivity|]. cbn [dropLastDash].
  rewrite includes_dashes_cons. intros H. apply orb_false_iff in H as [H1 H2].
  destruct (Ascii.eqb a "-" && isEmpty s) eqn:E; [reflexivity|].
  cbn [endsWithDash]. specialize (IH H2).
  destruct (isEmpty (dropLastDash s)) eqn:Ee; [|exact IH].
  destruct s as [|b s].
  - cbn [isEmpty] in E. rewrite andb_true_r in E. exact E.
  - cbn [dropLastDash] in Ee.
    destruct (Ascii.eqb b "-" && isEmpty s) eqn:Eb; [|discriminate].
    apply andb_true_iff in Eb as [Eb _].
    rewrite startsWith_dash_cons, (Ascii.eqb_sym "-" b), Eb, andb_true_r in H1.
    rewrite Ascii.eqb_sym. exact H1.
Qed.

Lemma dropChars1_keyChars s :
  allChars isKeyChar s = true -> allChars isKeyChar (removePrefix "-" s) = true.
Proof.
  unfold removePrefix. destruct (startsWith "-" s); [|auto].
  destruct s as [|a s]; [reflexivity|]. cbn. intros H.
  apply andb_true_iff in H. tauto.
Qed.

Lemma dropChars1_single s :
  includes "--" s = false ->
  includes "--" (removePrefix "-" s) = false
  /\ startsWith "-" (removePrefix "-" s) = false.
Proof.
  unfold removePrefix. destruct (startsWith "-" s) eqn:E; [|auto].
  destruct s as [|a s]; [discriminate|].
  rewrite includes_dashes_cons. intros H. apply orb_false_iff in H as [H1 H2].
  rewrite startsWith_dash_cons in E. rewrite E in H1. cbn [andb] in H1.
  cbn [String.length dropChars]. auto.
Qed.

(** X1: whatever the last path segment is, the sanitized file name is made
    of letters, digits, "-" and "_" only, has no two dashes in a row and
    neither starts nor ends with a dash. *)
Theorem sanitizeFilename_shape (s : string) :
  allChars isKeyChar (sanitizeFilename s) = true /\
  includes "--" (sanitizeFilename s) = false /\
  startsWith "-" (sanitizeFilename s) = false /\
  endsWithDash (sanitizeFilename s) = false.
Proof.
  unfold sanitizeFilename, trimDashes.
  pose proof (dashOthers_keyChars s) as Hk.
  apply collapseDashes_keyChars in Hk.
  pose proof (collapseDashes_single (dashOthers s)) as Hd.
  destruct (dropChars1_single _ Hd) as [Hd' Hh].
  apply dropChars1_keyChars in Hk.
  split; [apply dropLastDash_keyChars, Hk|].
  split; [apply dropLastDash_single, Hd'|].
  split; [apply dropLastDash_head, Hh|apply dropLastDash_tail, Hd'].
Qed.

(** *** One upload *)

Lemma finish_prepare_url `{UrlApi} (b b0 : Bucket) brandPrefix item index options e :
  res_url (fst (finish b (prepare b0 brandPrefix item index options e))) = url item.
Proof.
  unfold prepare.
  destruct (overwriteRequested options).
  - unfold finish, putRequest. cbn [put_throws put_url].
    destruct (putThrows e); reflexivity.
  - destruct (headThrows e); [reflexivity|].
    destruct (b0 !! _); [reflexivity|].
    unfold finish, putRequest. cbn [put_throws put_url].
    destruct (putThrows e); reflexivity.
Qed.

(** X2: a call that reports success names an object that is in the bucket
    afterwards with the size it reports; a call that reports failure has
    left the bucket as it was and carries an empty key and no size. *)
Theorem uploadSingleContent_outcome `{UrlApi} (bucket : Bucket) brandPrefix item
    index options (e : CallEnv) :
  let '(r, bucket') := uploadSingleContent bucket brandPrefix item index options e in
  if res_success r
  then exists o, bucket' !! res_r2Key r = Some o /\ res_size r = Some (obj_size o)
  else bucket' = bucket /\ res_r2Key r = "" /\ res_size r = None.
Proof.
  unfold uploadSingleContent, prepare.
  destruct (overwriteRequested options).
  - unfold finish, putRequest. cbn [put_throws put_url put_key put_body].
    destruct (putThrows e); cbn [res_success failure]; [auto|].
    eexists. rewrite lookup_insert_eq. split; reflexivity.
  - destruct (headThrows e); [cbn; auto|].
    destruct (bucket !! _) as [existing|] eqn:Hk.
    + cbn [finish res_success res_r2Key res_size]. eauto.
    + unfold finish, putRequest. cbn [put_throws put_url put_key put_body].
      destruct (putThrows e); cbn [res_success failure]; [auto|].
      eexists. rewrite lookup_insert_eq. split; reflexivity.
Qed.

(** X3: without overwrite, a second upload of the same item within the same
    millisecond finds the object of the first and returns success without
    touching the bucket. *)
Theorem uploadSingleContent_same_key_skips `{UrlApi} (bucket : Bucket) brandPrefix
    item index options (e1 e2 : CallEnv) :
  overwriteRequested options = false ->
  headThrows e1 = None -> putThrows e1 = None -> headThrows e2 = None ->
  nowMs e1 = nowMs e2 ->
  let '(r1, b1) := uploadSingleContent bucket brandPrefix item index options e1 in
  let '(r2, b2) := uploadSingleContent b1 brandPrefix item index options e2 in
  b2 = b1 /\ res_success r2 = true /\ res_r2Key r2 = res_r2Key r1
  /\ res_size r2 = res_size r1.
Proof.
  intros Ho Hh1 Hp1 Hh2 Hms.
  unfold uploadSingleContent, prepare. rewrite Ho, Hh1, Hh2, <- Hms.
  set (k := generateR2Key brandPrefix (url item) index (nowMs e1)).
  destruct (bucket !! k) as [o|] eqn:Hk; cbn [finish].
  - rewrite Hk. cbn. auto.
  - unfold putRequest at 1. cbn [put_throws]. rewrite Hp1.
    cbn [put_key putRequest]. rewrite lookup_insert_eq. cbn. auto.
Qed.

Lemma uploadSingleContent_same_key_skips_witness :
  let '(r1, b1) :=
    uploadSingleContent (H := plainUrl) ∅ "brands/x.com" Samples.aboutPage 0 None
      (Samples.quietAt 1000) in
  let '(r2, b2) :=
    uploadSingleContent (H := plainUrl) b1 "brands/x.com" Samples.aboutPage 0 None
      (Samples.quietAt 1000) in
  b2 = b1 /\ res_success r2 = true /\ res_r2Key r2 = res_r2Key r1
  /\ res_size r2 = res_size r1.
Proof.
  apply (uploadSingleContent_same_key_skips (H := plainUrl) ∅ "brands/x.com"
           Samples.aboutPage 0 None (Samples.quietAt 1000) (Samples.quietAt 1000));
    reflexivity.
Defined.

(** *** A whole request *)

Lemma finishAll_urls `{UrlApi} (b0 : Bucket) brandPrefix options env
    (batch : list (nat * ContentItem)) : forall b,
  List.map res_url
    (fst (finishAll b
            (List.map (fun '(i, item) =>
                         prepare b0 brandPrefix item i options (env i)) batch)))
  = List.map (fun entry => url (snd entry)) batch.
Proof.
  induction batch as [|[i item] rest IH]; intros b; [reflexivity|].
  cbn [List.map finishAll].
  pose proof (finish_prepare_url b b0 brandPrefix item i options (env i)) as Hu.
  destruct (finish b _) as [r b1]. specialize (IH b1).
  destruct (finishAll b1 _) as [rs b2]. cbn [fst snd List.map] in *.
  rewrite Hu, IH. reflexivity.
Qed.

Lemma recordResult_urls resp item i r :
  res_url r = url item ->
  List.map res_url (results (recordResult resp ((i, item), r)))
  = List.map res_url (results resp) ++ [url item]
  /\ (Forall failedShape (results resp) ->
      Forall failedShape (results (recordResult resp ((i, item), r)))).
Proof.
  intros Hu. unfold recordResult. destruct (res_success r) eqn:E;
    cbn [results]; rewrite List.map_app; cbn [List.map].
  - rewrite Hu. split; [reflexivity|]. intros Hf. apply Forall_app. split; [exact Hf|].
    constructor; [|constructor]. unfold failedShape. congruence.
  - split; [reflexivity|]. intros Hf. apply Forall_app. split; [exact Hf|].
    constructor; [|constructor]. unfold failedShape. cbn. auto.
Qed.

Lemma fold_recordResult_urls (batch : list (nat * ContentItem)) : forall rs resp,
  List.map res_url rs = List.map (fun entry => url (snd entry)) batch ->
  let resp' := List.fold_left recordResult (List.combine batch rs) resp in
  List.map res_url (results resp')
  = List.map res_url (results resp) ++ List.map (fun entry => url (snd entry)) batch
  /\ (Forall failedShape (results resp) -> Forall failedShape (results resp')).
Proof.
  induction batch as [|[i item] rest IH]; intros rs resp Hrs; cbn zeta.
  - cbn. rewrite app_nil_r. auto.
  - destruct rs as [|r rs]; [discriminate|].
    cbn [List.map snd] in Hrs. injection Hrs as Hr Hrs.
    cbn [List.combine List.fold_left].
    destruct (recordResult_urls resp item i r Hr) as [H1 H2].
    destruct (IH rs (recordResult resp (i, item, r)) Hrs) as [H3 H4].
    cbv zeta in H3, H4. rewrite H3, H1, <- app_assoc. cbn [List.map snd]. auto.
Qed.

Lemma runBatches_urls `{UrlApi} brandPrefix options env batches :
  forall (bucket : Bucket) resp,
  let resp' := fst (runBatches bucket brandPrefix options env batches resp) in
  List.map res_url (results resp')
  = List.map res_url (results resp)
    ++ List.map (fun entry => url (snd entry)) (List.concat batches)
  /\ (Forall failedShape (results resp) -> Forall failedShape (results resp')).
Proof.
  induction batches as [|batch rest IH]; intros bucket resp; cbn zeta.
  - cbn. rewrite app_nil_r. auto.
  - cbn [runBatches List.concat].
    pose proof (finishAll_urls bucket brandPrefix options env batch bucket) as Hu.
    unfold runBatch. destruct (finishAll bucket _) as [rs b1]. cbn [fst] in Hu.
    destruct (fold_recordResult_urls batch rs resp Hu) as [H1 H2].
    destruct (IH b1 (List.fold_left recordResult (List.combine batch rs) resp))
      as [H3 H4].
    cbv zeta in *. rewrite H3, H1, List.map_app, <- app_assoc. auto.
Qed.

Lemma indexed_items {A : Type} (l : list A) : List.map snd (indexed l) = l.
Proof.
  unfold indexed. generalize 0. induction l as [|a l IH]; intros n; [reflexivity|].
  cbn. rewrite IH. reflexivity.
Qed.

(** X4: the results come back in the order of the content list, one per
    item and under the item's URL, and every result that reports failure
    has an empty key and no size. *)
Theorem uploadBrandContent_results_follow_items `{UrlApi} (bucket : Bucket)
    (request : R2UploadRequest) (env : nat -> CallEnv) (items : list ContentItem) :
  req_content request = Some items ->
  exists resp bucket',
    uploadBrandContent bucket request env = (Returned resp, bucket') /\
    List.map res_url (results resp) = List.map url items /\
    Forall (fun r => res_success r = false ->
                     res_r2Key r = "" /\ res_size r = None) (results resp).
Proof.
  intros Hc. unfold uploadBrandContent. rewrite Hc.
  destruct items as [|item items].
  - eexists _, _. split; [reflexivity|]. split; [reflexivity|constructor].
  - set (l := item :: items).
    destruct (runBatches_urls (getBrandR2Prefix (req_domain request))
                (req_options request) env (slices BATCH_SIZE (indexed l)) bucket
                (initialResponse request (List.length l))) as [H1 H2].
    cbv zeta in H1, H2. unfold BATCH_SIZE in *.
    rewrite slices_concat in H1.
    destruct (runBatches bucket _ _ env (slices 5 (indexed l)) _) as [resp b1].
    cbn [fst] in H1, H2. eexists _, _. split; [reflexivity|].
    cbn [results withSuccess]. split.
    + rewrite H1. cbn [results initialResponse List.map app].
      rewrite <- (indexed_items l) at 2. rewrite List.map_map. reflexivity.
    + apply H2. constructor.
Qed.

Lemma uploadBrandContent_results_follow_items_witness :
  exists resp bucket',
    uploadBrandContent (H := plainUrl) ∅ Samples.uploadRequest
      (fun i => Samples.quietAt (1000 + N.of_nat i))
    = (Returned resp, bucket') /\
    List.map res_url (results resp)
    = List.map url [Samples.aboutPage; Samples.homePage] /\
    Forall (fun r => res_success r = false ->
                     res_r2Key r = "" /\ res_size r = None) (results resp).
Proof.
  apply (uploadBrandContent_results_follow_items (H := plainUrl) ∅
           Samples.uploadRequest (fun i => Samples.quietAt (1000 + N.of_nat i))
           [Samples.aboutPage; Samples.homePage]).
  reflexivity.
Defined.

(** *** What an upload leaves alone *)

Lemma finish_lookup (b : Bucket) pr k :
  (forall p, pr = Pending p -> put_key p <> k) ->
  snd (finish b pr) !! k = b !! k.
Proof.
  intros Hk. destruct pr as [r|p]; [reflexivity|].
  cbn [finish]. destruct (put_throws p); [reflexivity|].
  cbn [snd]. apply lookup_insert_ne. apply Hk. reflexivity.
Qed.

Lemma finish_keeps (b : Bucket) pr k :
  is_Some (b !! k) -> is_Some (snd (finish b pr) !! k).
Proof.
  intros Hk. destruct pr as [r|p]; [exact Hk|].
  cbn [finish]. destruct (put_throws p); [exact Hk|]. cbn [snd].
  destruct (decide (put_key p = k)) as [->|Hne].
  - rewrite lookup_insert_eq. eauto.
  - rewrite lookup_insert_ne by exact Hne. exact Hk.
Qed.

Lemma finishAll_keeps prs k : forall b : Bucket,
  is_Some (b !! k) -> is_Some (snd (finishAll b prs) !! k).
Proof.
  induction prs as [|pr rest IH]; intros b Hk; [exact Hk|].
  cbn [finishAll]. pose proof (finish_keeps b pr k Hk) as H1.
  destruct (finish b pr) as [r b1]. specialize (IH b1 H1).
  destruct (finishAll b1 rest) as [rs b2]. exact IH.
Qed.

Lemma finishAll_lookup prs k : forall b : Bucket,
  Forall (fun pr => forall p, pr = Pending p -> put_key p <> k) prs ->
  snd (finishAll b prs) !! k = b !! k.
Proof.
  induction prs as [|pr rest IH]; intros b Hall; [reflexivity|].
  inversion Hall as [|? ? Hpr Hrest]; subst. cbn [finishAll].
  pose proof (finish_lookup b pr k Hpr) as H1.
  destruct (finish b pr) as [r b1]. specialize (IH b1 Hrest).
  destruct (finishAll b1 rest) as [rs b2]. cbn [snd] in *. congruence.
Qed.

Lemma prepare_pending_absent `{UrlApi} (b : Bucket) brandPrefix item index options
    e p :
  overwriteRequested options = false ->
  prepare b brandPrefix item index options e = Pending p ->
  b !! put_key p = None.
Proof.
  intros Ho. unfold prepare. rewrite Ho.
  destruct (headThrows e); [discriminate|].
  destruct (b !! _) eqn:Hk; [discriminate|].
  intros [= <-]. exact Hk.
Qed.

Lemma runBatches_keeps `{UrlApi} brandPrefix options env batches k :
  forall (b : Bucket) resp,
  is_Some (b !! k) ->
  is_Some (snd (runBatches b brandPrefix options env batches resp) !! k).
Proof.
  induction batches as [|batch rest IH]; intros b resp Hk; [exact Hk|].
  cbn [runBatches]. unfold runBatch.
  pose proof (finishAll_keeps
                (List.map (fun '(i, item) =>
                             prepare b brandPrefix item i options (env i)) batch)
                k b Hk) as H1.
  destruct (finishAll b _) as [rs b1]. apply IH. exact H1.
Qed.

Lemma runBatches_lookup `{UrlApi} brandPrefix options env batches k o :
  overwriteRequested options = false ->
  forall (b : Bucket) resp,
  b !! k = Some o ->
  snd (runBatches b brandPrefix options env batches resp) !! k = Some o.
Proof.
  intros Ho. induction batches as [|batch rest IH]; intros b resp Hk; [exact Hk|].
  cbn [runBatches]. unfold runBatch.
  pose proof (finishAll_lookup
                (List.map (fun '(i, item) =>
                             prepare b brandPrefix item i options (env i)) batch)
                k b) as H1.
  destruct (finishAll b _) as [rs b1]. apply IH. cbn [snd] in H1.
  rewrite H1; [exact Hk|].
  apply Forall_forall. intros pr Hpr p ->.
  apply list_elem_of_In, List.in_map_iff in Hpr as ([i item] & Hp & _).
  apply prepare_pending_absent in Hp; [|exact Ho]. congruence.
Qed.

(** X5: an upload request never removes an object from the bucket, and
    unless overwrite is requested it never changes an object that was
    stored before the request. *)
Theorem uploadBrandContent_keeps_stored `{UrlApi} (bucket : Bucket)
    (request : R2UploadRequest) (env : nat -> CallEnv) (k : string) :
  let bucket' := snd (uploadBrandContent bucket request env) in
  (is_Some (bucket !! k) -> is_Some (bucket' !! k)) /\
  (overwriteRequested (req_options request) = false ->
   forall o, bucket !! k = Some o -> bucket' !! k = Some o).
Proof.
  cbv zeta. unfold uploadBrandContent.
  destruct (req_content request) as [[|item items]|]; cbn [snd]; try (split; auto).
  - intros Hk.
    pose proof (runBatches_keeps (getBrandR2Prefix (req_domain request))
                  (req_options request) env
                  (slices BATCH_SIZE (indexed (item :: items))) k bucket
                  (initialResponse request (List.length (item :: items))) Hk) as H1.
    destruct (runBatches bucket _ _ env _ _) as [resp b1]. exact H1.
  - intros Ho o Hk.
    pose proof (runBatches_lookup (getBrandR2Prefix (req_domain request))
                  (req_options request) env
                  (slices BATCH_SIZE (indexed (item :: items))) k o Ho bucket
                  (initialResponse request (List.length (item :: items))) Hk) as H1.
    destruct (runBatches bucket _ _ env _ _) as [resp b1]. exact H1.
Qed.

Lemma uploadBrandContent_keeps_stored_witness :
  let bucket' :=
    snd (uploadBrandContent (H := plainUrl) Samples.smallBucket
           Samples.uploadRequest (fun i => Samples.quietAt (1000 + N.of_nat i))) in
  (is_Some (Samples.smallBucket !! "logs/today.txt") ->
   is_Some (bucket' !! "logs/today.txt")) /\
  (overwriteRequested (req_options Samples.uploadRequest) = false ->
   forall o, Samples.smallBucket !! "logs/today.txt" = Some o ->
             bucket' !! "logs/today.txt" = Some o).
Proof.
  exact (uploadBrandContent_keeps_stored (H := plainUrl) Samples.smallBucket
           Samples.uploadRequest (fun i => Samples.quietAt (1000 + N.of_nat i))
           "logs/today.txt").
Defined.


End R2More.

(** ** More on listing and deleting *)

Module BucketMore.
Import Js R2 R2Facts CleanupFacts.

Lemma fold_deleteGroup_lookup groups k : forall bucket : Bucket,
  List.fold_left (deleteGroup noFaults) groups bucket !! k
  = if decide (k ∈ List.concat groups) then None else bucket !! k.
Proof.
  induction groups as [|g groups IH]; intros bucket; cbn [List.fold_left List.concat].
  - destruct (decide (k ∈ [])) as [H|H]; [inversion H|reflexivity].
  - rewrite IH, deleteGroup_lookup.
    destruct (decide (k ∈ List.concat groups)) as [Hin|Hnin].
    + rewrite decide_True by (apply elem_of_app; auto). reflexivity.
    + destruct (decide (k ∈ g)) as [Hg|Hg].
      * rewrite decide_True by (apply elem_of_app; auto). reflexivity.
      * rewrite decide_False by (rewrite elem_of_app; tauto). reflexivity.
Qed.

(** X6: when the bucket calls succeed and the brand has at most 1000
    objects under the prefix, deleteBrandContent removes exactly the objects
    whose key starts with the listed prefix and leaves every other object
    as it was. *)
Theorem deleteBrandContent_effect (bucket : Bucket) (domain : string)
    (prefix : option string) :
  size (filter (underPrefix (brandListPrefix domain prefix)) bucket)
    <= R2_LIST_LIMIT ->
  exists bucket' trace,
    deleteBrandContent noFaults bucket domain prefix = (Returned tt, bucket', trace) /\
    forall k, bucket' !! k
              = if startsWith (brandListPrefix domain prefix) k
                then None else bucket !! k.
Proof.
  intros Hsize. unfold deleteBrandContent, listBrandContent.
  change (match prefix with
          | Some p => if isEmpty p then getBrandR2Prefix domain +:+ "/"
                      else getBrandR2Prefix domain +:+ "/" +:+ p
          | None => getBrandR2Prefix domain +:+ "/"
          end) with (brandListPrefix domain prefix).
  cbn [noFaults listThrows]. eexists _, _. split; [reflexivity|].
  intros k. rewrite fold_deleteGroup_lookup. unfold DELETE_BATCH_SIZE.
  rewrite slices_concat, (listKeys_complete _ _ Hsize).
  destruct (decide (k ∈ keysUnder bucket (brandListPrefix domain prefix)))
    as [Hin|Hnin].
  - apply elem_of_keysUnder in Hin as [_ ->]. reflexivity.
  - destruct (startsWith (brandListPrefix domain prefix) k) eqn:Ep; [|reflexivity].
    destruct (bucket !! k) as [o|] eqn:Ho; [|reflexivity].
    exfalso. apply Hnin, elem_of_keysUnder. rewrite Ho. eauto.
Qed.

Lemma deleteBrandContent_effect_witness :
  exists bucket' trace,
    deleteBrandContent noFaults Samples.smallBucket "https://www.A.com" None
    = (Returned tt, bucket', trace) /\
    forall k, bucket' !! k
              = if startsWith (brandListPrefix "https://www.A.com" None) k
                then None else Samples.smallBucket !! k.
Proof.
  apply (deleteBrandContent_effect Samples.smallBucket "https://www.A.com" None).
  apply Nat.leb_le. vm_compute. reflexivity.
Defined.

(** X7: whatever the faults, the deletes of deleteBrandContent go out in
    groups of at most 100 keys, and the groups together are the listing, in
    its order. *)
Theorem deleteBrandContent_groups (faults : BucketFaults) (bucket : Bucket)
    (domain : string) (prefix : option string) :
  let '(out, _, trace) := deleteBrandContent faults bucket domain prefix in
  Forall (fun g => List.length g <= 100) trace /\
  match out with
  | Returned _ => List.concat trace = listKeys bucket (brandListPrefix domain prefix)
  | Threw _ => trace = []
  end.
Proof.
  unfold deleteBrandContent, listBrandContent.
  change (match prefix with
          | Some p => if isEmpty p then getBrandR2Prefix domain +:+ "/"
                      else getBrandR2Prefix domain +:+ "/" +:+ p
          | None => getBrandR2Prefix domain +:+ "/"
          end) with (brandListPrefix domain prefix).
  destruct (listThrows faults _); [split; [constructor|reflexivity]|].
  split; [apply slicesFrom_bounded|]. unfold DELETE_BATCH_SIZE. apply slices_concat.
Qed.

(** *** Cleanup under faults *)

Lemma deleteGroup_cases faults keys k : forall bucket : Bucket,
  deleteGroup faults bucket keys !! k = bucket !! k
  \/ (k ∈ keys /\ deleteGroup faults bucket keys !! k = None).
Proof.
  unfold deleteGroup. induction keys as [|x keys IH]; intros bucket; [left; reflexivity|].
  cbn [List.fold_left].
  destruct (deleteThrows faults x).
  - destruct (IH bucket) as [H|[Hin H]]; [left; exact H|].
    right. split; [right; exact Hin|exact H].
  - destruct (IH (delete x bucket)) as [H|[Hin H]].
    + destruct (decide (x = k)) as [->|Hne].
      * right. split; [left|]. rewrite H. apply lookup_delete_eq.
      * left. rewrite H. apply lookup_delete_ne. exact Hne.
    + right. split; [right; exact Hin|exact H].
Qed.

Lemma cleanupFolder_spares faults (bucket : Bucket) keep st f :
  hasChar "/" f = false ->
  spared bucket keep (cs_bucket st) ->
  spared bucket keep (cs_bucket (cleanupFolder faults keep st f)).
Proof.
  intros Hf Hs. unfold cleanupFolder.
  destruct (inList f keep) eqn:Ek; [exact Hs|].
  destruct (listThrows faults _); [exact Hs|].
  destruct (listKeys (cs_bucket st) (folderPrefix f)) as [|k0 ks] eqn:El; [exact Hs|].
  cbn [cs_bucket]. intros k.
  destruct (deleteGroup_cases faults (k0 :: ks) k (cs_bucket st)) as [H|[Hin H]].
  - rewrite H. apply Hs.
  - right. split; [|exact H].
    rewrite <- El in Hin. apply subseteq_take in Hin.
    apply elem_of_keysUnder in Hin as [_ Hp].
    unfold doomed. rewrite (folderOf_under f k Hf Hp), Ek, Hp. reflexivity.
Qed.

Lemma cleanupFold_spares faults (bucket : Bucket) keep fs : forall st,
  Forall (fun g => hasChar "/" g = false) fs ->
  spared bucket keep (cs_bucket st) ->
  spared bucket keep
    (cs_bucket (List.fold_left (cleanupFolder faults keep) fs st)).
Proof.
  induction fs as [|f fs IH]; intros st Hc Hs; [exact Hs|].
  inversion Hc; subst. cbn [List.fold_left].
  apply IH; [assumption|]. apply cleanupFolder_spares; assumption.
Qed.

(** X8: whatever the faults and however large the bucket, the cleanup
    handler stores nothing and changes nothing: an object is either left as
    it was, or it lay under brands/{d}/ for a folder d outside the keep-list
    and is gone. *)
Theorem handleR2Cleanup_spares (faults : BucketFaults) (bucket : Bucket)
    (request : CleanupRequest) (k : string) :
  let '(_, bucket', _) := handleR2Cleanup faults bucket request in
  bucket' !! k = bucket !! k
  \/ (doomed (default defaultBrandsToKeep (brandsToKeep request)) k = true
      /\ bucket' !! k = None).
Proof.
  unfold handleR2Cleanup.
  destruct (listThrows faults "brands/"); [left; reflexivity|].
  destruct (listKeys bucket "brands/") as [|k0 ks] eqn:El; [left; reflexivity|].
  apply (cleanupFold_spares faults bucket).
  - apply Forall_forall. intros f Hf.
    apply elem_of_brandFoldersOf in Hf as (key & _ & Hfo).
    eapply folderOf_clean, Hfo.
  - intros k'. left. reflexivity.
Qed.

(** *** Uploads and the cleanup *)

Lemma append_assoc_str (a b c : string) : (a +:+ b) +:+ c = a +:+ (b +:+ c).
Proof.
  induction a as [|x a IH]; [reflexivity|].
  rewrite !append_cons. f_equal. exact IH.
Qed.

Lemma generateR2Key_under_prefix `{UrlApi} brandPrefix url index now :
  startsWith (brandPrefix +:+ "/") (generateR2Key brandPrefix url index now) = true.
Proof.
  unfold generateR2Key.
  destruct (parseUrl url).
  - cbv zeta.
    change ("/content/" +:+ ?x) with ("/" +:+ ("content/" +:+ x)).
    rewrite <- append_assoc_str. apply startsWith_append_refl.
  - change ("/content/pages/page-" +:+ ?x) with ("/" +:+ ("content/pages/page-" +:+ x)).
    rewrite <- append_assoc_str. apply startsWith_append_refl.
Qed.

(** X9: every key that an upload for a domain generates lies under the
    brand folder of that domain (lower-cased, without scheme and leading
    "www."), so when the folder name has no slash a cleanup reaches the key
    exactly when the folder is outside its keep-list. *)
Theorem generateR2Key_in_brand_folder `{UrlApi} (domain url : string)
    (index : nat) (now : N) (keep : list string) :
  hasChar "/" (brandFolderOf domain) = false ->
  let key := generateR2Key (getBrandR2Prefix domain) url index now in
  startsWith (folderPrefix (brandFolderOf domain)) key = true /\
  folderOf key = Some (brandFolderOf domain) /\
  doomed keep key = negb (inList (brandFolderOf domain) keep).
Proof.
  intros Hf key.
  assert (Hp : startsWith (folderPrefix (brandFolderOf domain)) key = true).
  { unfold folderPrefix, key.
    rewrite <- append_assoc_str. apply generateR2Key_under_prefix. }
  pose proof (folderOf_under _ key Hf Hp) as Hfo.
  split; [exact Hp|]. split; [exact Hfo|].
  unfold doomed. rewrite Hfo, Hp. apply andb_true_r.
Qed.

Lemma generateR2Key_in_brand_folder_witness :
  let key :=
    generateR2Key (H := plainUrl) (getBrandR2Prefix "https://www.X.com")
      "https://x.com/about/team.html" 0 1000 in
  startsWith (folderPrefix (brandFolderOf "https://www.X.com")) key = true /\
  folderOf key = Some (brandFolderOf "https://www.X.com") /\
  doomed ["nosana.io"] key = negb (inList (brandFolderOf "https://www.X.com") ["nosana.io"]).
Proof.
  apply (generateR2Key_in_brand_folder (H := plainUrl) "https://www.X.com"
           "https://x.com/about/team.html" 0 1000 ["nosana.io"]).
  reflexivity.
Defined.

End BucketMore.

(** ** More on the URL processor *)

Module UrlMore.
Import Js JsFacts UrlProcessor UrlProcessorFacts CleanupFacts VerifyFacts.

(** X10: whatever the input, the result of normalizeUrl is lower-cased and
    trimmed, and it is either empty, or a host (it has a dot and neither
    slash nor colon), or the fallback of the catch clause. *)
Theorem normalizeUrl_result_shape (x : string) :
  toLowerCase (normalizeUrl x) = normalizeUrl x /\
  trim (normalizeUrl x) = normalizeUrl x /\
  (normalizeUrl x = ""
   \/ (includes "." (normalizeUrl x) = true /\
       hasChar "/" (normalizeUrl x) = false /\
       hasChar ":" (normalizeUrl x) = false)
   \/ normalizeUrl x = normalizeFallback x).
Proof.
  destruct (normalizeUrl_shape x) as [z Hz].
  destruct (lower_trim_fixed z) as [Hlow Htrim]. rewrite <- Hz in Hlow, Htrim.
  split; [exact Hlow|]. split; [exact Htrim|].
  destruct (normalizeUrl_cases x) as [He|[(d & Hd & Hok)|(Hf & _)]]; auto.
  right. left. rewrite Hd. destruct (normalizeHost_no_sep d) as [H1 H2].
  split; [|auto]. unfold rejected in Hok. apply orb_false_iff in Hok as [_ Hok].
  destruct (includes "." (normalizeHost d)); [reflexivity|discriminate].
Qed.

Lemma startsWith_append_short p : forall h t,
  startsWith p h = false ->
  (t = "" \/ exists c t', t = String c t' /\ hasChar c p = false) ->
  startsWith p (h +:+ t) = false.
Proof.
  induction p as [|a p IH]; intros h t Hh Ht; [discriminate|].
  destruct h as [|b h].
  - rewrite append_nil. destruct Ht as [->|(c & t' & -> & Hc)]; [reflexivity|].
    cbn [hasChar] in Hc. apply orb_false_iff in Hc as [Hc _].
    cbn [startsWith]. rewrite Hc. reflexivity.
  - rewrite append_cons. cbn [startsWith] in *.
    destruct (Ascii.eqb a b); [|reflexivity]. cbn [andb] in *.
    apply IH; [exact Hh|].
    destruct Ht as [->|(c & t' & -> & Hc)]; [auto|]. right. exists c, t'.
    split; [reflexivity|]. cbn [hasChar] in Hc. apply orb_false_iff in Hc. tauto.
Qed.

Lemma append_assoc_str_local (a b c : string) : (a +:+ b) +:+ c = a +:+ (b +:+ c).
Proof.
  induction a as [|x a IH]; [reflexivity|].
  rewrite !append_cons. f_equal. exact IH.
Qed.

Lemma dropChars_append p t : dropChars (String.length p) (p +:+ t) = t.
Proof. induction p as [|a p IH]; [reflexivity|]. rewrite append_cons. exact IH. Qed.

Lemma beforeChar_append c h t :
  hasChar c h = false -> beforeChar c (h +:+ String c t) = h.
Proof.
  induction h as [|a h IH]; intros Hh.
  - rewrite append_nil. cbn. rewrite Ascii.eqb_refl. reflexivity.
  - cbn [hasChar] in Hh. apply orb_false_iff in Hh as [Ha Hh].
    rewrite append_cons. cbn [beforeChar]. rewrite Ha, IH by exact Hh. reflexivity.
Qed.

Lemma beforeChar_append_absent c h t :
  hasChar c h = false -> beforeChar c (h +:+ t) = h +:+ beforeChar c t.
Proof.
  induction h as [|a h IH]; intros Hh; [rewrite !append_nil; reflexivity|].
  cbn [hasChar] in Hh. apply orb_false_iff in Hh as [Ha Hh].
  rewrite !append_cons. cbn [beforeChar]. rewrite Ha, IH by exact Hh. reflexivity.
Qed.

Lemma append_empty_r (s : string) : s +:+ "" = s.
Proof. induction s as [|a s IH]; [reflexivity|]. rewrite append_cons, IH. reflexivity. Qed.

Lemma hostCut_append h t :
  hasChar "/" h = false -> hasChar ":" h = false ->
  (t = "" \/ exists t', t = String "/" t' \/ t = String ":" t') ->
  hostCut (h +:+ t) = h.
Proof.
  intros H1 H2 [->|(t' & [->| ->])]; unfold hostCut.
  - rewrite append_empty_r, (beforeChar_absent "/" h H1).
    apply beforeChar_absent, H2.
  - rewrite beforeChar_append by exact H1. apply beforeChar_absent, H2.
  - rewrite (beforeChar_append_absent "/" h _ H1).
    change (beforeChar "/" (String ":" t')) with (String ":" (beforeChar "/" t')).
    apply beforeChar_append, H2.
Qed.

(** X11: for an input "http://" or "https://" followed by a host and then
    nothing, a path or a port, with no percent sign anywhere, normalizeUrl
    returns the host without one leading "www.", lower-cased and trimmed,
    as long as that is not empty and has a dot. *)
Theorem normalizeUrl_extracts_host (scheme host tail : string) :
  scheme = "http://" \/ scheme = "https://" ->
  hasChar "%" host = false -> hasChar "%" tail = false ->
  hasChar "/" host = false -> hasChar ":" host = false ->
  (tail = "" \/ exists t', tail = String "/" t' \/ tail = String ":" t') ->
  rejected (trim (toLowerCase (removePrefix "www." host))) = false ->
  normalizeUrl (scheme +:+ host +:+ tail)
  = trim (toLowerCase (removePrefix "www." host)).
Proof.
  intros Hscheme Hp1 Hp2 Hs Hc Htail Hok.
  assert (Hstrip : stripScheme (scheme +:+ host +:+ tail) = host +:+ tail).
  { destruct Hscheme as [-> | ->]; reflexivity. }
  assert (Hpct : hasChar "%" (scheme +:+ host +:+ tail) = false).
  { rewrite !hasChar_append, Hp1, Hp2.
    destruct Hscheme as [-> | ->]; reflexivity. }
  assert (Hwww : stripWww (host +:+ tail) = removePrefix "www." host +:+ tail).
  { unfold stripWww, removePrefix.
    destruct (startsWith "www." host) eqn:Ew.
    - set (rest := dropChars (String.length "www.") host).
      assert (Hh : host +:+ tail = "www." +:+ (rest +:+ tail)).
      { rewrite (startsWith_append "www." host Ew) at 1.
        apply append_assoc_str_local. }
      rewrite Hh, startsWith_append_refl. apply dropChars_append.
    - rewrite startsWith_append_short; [reflexivity|exact Ew|].
      destruct Htail as [->|(t' & [->| ->])]; [auto|right..];
        eexists _, _; (split; [reflexivity|reflexivity]). }
  assert (Hclean : hasChar "/" (removePrefix "www." host) = false
                   /\ hasChar ":" (removePrefix "www." host) = false).
  { unfold removePrefix. destruct (startsWith "www." host) eqn:Ew; [|auto].
    rewrite !hasChar_dropPrefix by (assumption || reflexivity). auto. }
  destruct Hclean as [Hs' Hc'].
  unfold normalizeUrl.
  assert (Hne : isEmpty (scheme +:+ host +:+ tail) = false)
    by (destruct Hscheme as [-> | ->]; reflexivity).
  rewrite Hne, (decodeURIComponent_no_percent _ Hpct). cbv zeta.
  unfold normalizeHost. rewrite Hstrip, Hwww, (hostCut_append _ _ Hs' Hc' Htail), Hok.
  reflexivity.
Qed.

Lemma normalizeUrl_extracts_host_witness :
  normalizeUrl ("https://" +:+ "www.Example.com" +:+ ":8080/About us")
  = trim (toLowerCase (removePrefix "www." "www.Example.com")).
Proof.
  apply (normalizeUrl_extracts_host "https://" "www.Example.com" ":8080/About us");
    try reflexivity.
  - right. reflexivity.
  - right. exists "8080/About us". right. reflexivity.
Defined.


End UrlMore.

(** ** URL categorization and selection *)

Module CategorizeFacts.
Import Js Categorize.

Lemma categoryScore_le c p host path titleText :
  categoryScore c p host path titleText <= 205.
Proof.
  unfold categoryScore.
  repeat match goal with |- context [if ?b then _ else _] => destruct b end; lia.
Qed.

Lemma bestFold_spec host path titleText (pats : list (category * Patterns)) :
  forall best top,
  (best = Other <-> top = 0) -> top <= 205 ->
  Forall (fun cp => fst cp <> Other) pats ->
  let r :=
    List.fold_left
      (fun '(best, top) '(c, p) =>
         let score := categoryScore c p host path titleText in
         if (top <? score)%nat then (c, score) else (best, top))
      pats (best, top) in
  (fst r = Other <-> snd r = 0) /\ snd r <= 205.
Proof.
  induction pats as [|[c p] pats IH]; intros best top Hiff Hle Hpats;
    cbn [List.fold_left]; [cbn; auto|].
  apply Forall_cons in Hpats as [Hc Hpats]. cbn [fst] in Hc.
  pose proof (categoryScore_le c p host path titleText) as Hs.
  cbv zeta.
  destruct (top <? categoryScore c p host path titleText)%nat eqn:E.
  - apply Nat.ltb_lt in E. apply IH; [|exact Hs|exact Hpats].
    split; [intros ->; contradiction|lia].
  - apply IH; assumption.
Qed.

Lemma bestCategory_spec host path titleText :
  (fst (bestCategory host path titleText) = Other
   <-> snd (bestCategory host path titleText) = 0)
  /\ snd (bestCategory host path titleText) <= 205.
Proof.
  unfold bestCategory. apply bestFold_spec; [tauto|lia|].
  unfold patterns. repeat constructor; discriminate.
Qed.

Lemma insertByPriority_perm x l : insertByPriority x l ≡ₚ x :: l.
Proof.
  induction l as [|y l IH]; cbn [insertByPriority]; [reflexivity|].
  destruct (priority y <? priority x)%nat; [reflexivity|].
  rewrite IH. apply perm_swap.
Qed.

Lemma insertByPriority_sorted x l :
  StronglySorted ranksNoLower l -> StronglySorted ranksNoLower (insertByPriority x l).
Proof.
  induction l as [|y l IH]; intros Hs; cbn [insertByPriority].
  - repeat constructor.
  - apply StronglySorted_inv in Hs as [Hl Hy].
    destruct (priority y <? priority x)%nat eqn:E.
    + apply Nat.ltb_lt in E. constructor; [constructor; assumption|].
      constructor; [unfold ranksNoLower; lia|].
      eapply Forall_impl; [exact Hy|]. unfold ranksNoLower. intros; lia.
    + apply Nat.ltb_ge in E. constructor; [auto|].
      rewrite insertByPriority_perm. constructor; [exact E|exact Hy].
Qed.

Lemma filter_none {A} (f : A -> bool) (l : list A) :
  Forall (fun z => f z = false) l -> List.filter f l = [].
Proof.
  induction 1 as [|z l Hz _ IH]; [reflexivity|].
  cbn [List.filter]. rewrite Hz. exact IH.
Qed.

Lemma insertByPriority_filter p x l :
  StronglySorted ranksNoLower l ->
  List.filter (fun s => priority s =? p)%nat (insertByPriority x l)
  = List.filter (fun s => priority s =? p)%nat l
    ++ (if (priority x =? p)%nat then [x] else []).
Proof.
  induction l as [|y l IH]; intros Hs; cbn [insertByPriority].
  - cbn [List.filter]. destruct (priority x =? p)%nat; reflexivity.
  - apply StronglySorted_inv in Hs as [Hl Hy].
    destruct (priority y <? priority x)%nat eqn:E.
    + apply Nat.ltb_lt in E.
      change (List.filter (fun s => priority s =? p)%nat (x :: y :: l))
        with (if (priority x =? p)%nat
              then x :: List.filter (fun s => priority s =? p)%nat (y :: l)
              else List.filter (fun s => priority s =? p)%nat (y :: l)).
      destruct (priority x =? p)%nat eqn:Ex; [|rewrite app_nil_r; reflexivity].
      apply Nat.eqb_eq in Ex.
      assert (Hnone : List.filter (fun s => priority s =? p)%nat (y :: l) = []).
      { apply filter_none. constructor; [apply Nat.eqb_neq; lia|].
        eapply Forall_impl; [exact Hy|]. unfold ranksNoLower.
        intros z Hz. apply Nat.eqb_neq. lia. }
      rewrite Hnone. reflexivity.
    + cbn [List.filter]. rewrite (IH Hl).
      destruct (priority y =? p)%nat; reflexivity.
Qed.

Lemma sortFold_spec p l : forall acc,
  StronglySorted ranksNoLower acc ->
  let r := List.fold_left (fun acc x => insertByPriority x acc) l acc in
  r ≡ₚ acc ++ l /\ StronglySorted ranksNoLower r /\
  List.filter (fun s => priority s =? p)%nat r
  = List.filter (fun s => priority s =? p)%nat acc
    ++ List.filter (fun s => priority s =? p)%nat l.
Proof.
  induction l as [|x l IH]; intros acc Hs; cbn [List.fold_left].
  - cbv zeta. rewrite !app_nil_r. auto.
  - destruct (IH (insertByPriority x acc) (insertByPriority_sorted x acc Hs))
      as (Hp & Hsorted & Hf).
    cbv zeta. split; [|split]; [|exact Hsorted|].
    + rewrite Hp, insertByPriority_perm. solve_Permutation.
    + rewrite Hf, (insertByPriority_filter p x acc Hs). cbn [List.filter].
      rewrite <- app_assoc. destruct (priority x =? p)%nat; reflexivity.
Qed.

(** X14: sortByPriority returns the same links, highest priority first, and
    links of equal priority stay in the order they had (the sort is stable). *)
Theorem sortByPriority_sorts (l : list ScoredLink) :
  sortByPriority l ≡ₚ l /\
  StronglySorted ranksNoLower (sortByPriority l) /\
  forall p, List.filter (fun s => priority s =? p)%nat (sortByPriority l)
            = List.filter (fun s => priority s =? p)%nat l.
Proof.
  unfold sortByPriority.
  split; [|split].
  - apply (sortFold_spec 0 l []). constructor.
  - apply (sortFold_spec 0 l []). constructor.
  - intros p. apply (sortFold_spec p l []). constructor.
Qed.

Lemma sortByPriority_perm l : sortByPriority l ≡ₚ l.
Proof. unfold sortByPriority. apply (sortFold_spec 0 l []). constructor. Qed.

Lemma selectTopUrls_bounds cs n :
  List.length (selectTopUrls cs n) <= 5 * n /\
  List.length (selectTopUrls cs n) <= List.length (allScored cs) /\
  selectTopUrls cs n ⊆ allScored cs.
Proof.
  unfold selectTopUrls, allScored. cbn [List.map List.concat].
  rewrite app_nil_r. split; [|split].
  - rewrite !length_app, !length_take. lia.
  - rewrite !length_app, !length_take.
    rewrite !(Permutation_length (sortByPriority_perm _)). lia.
  - intros s Hs. rewrite !elem_of_app in Hs. rewrite !elem_of_app.
    repeat match type of Hs with
    | _ \/ _ => destruct Hs as [Hs|Hs]
    end;
      apply subseteq_take in Hs; rewrite sortByPriority_perm in Hs; tauto.
Qed.

Section WithUrls.
Context `{UrlApi}.

Lemma classify_spec l :
  (fst (classify l) = Other <-> snd (classify l) = 0) /\ snd (classify l) <= 205.
Proof.
  unfold classify. destruct (parseUrl (l_url l)); [apply bestCategory_spec|].
  cbn. split; [tauto|lia].
Qed.

Lemma allScored_pushTo cs c s : allScored (pushTo cs c s) ≡ₚ allScored cs ++ [s].
Proof. destruct c; unfold allScored; cbn; solve_Permutation. Qed.

Lemma categorizeFold_perm links : forall cs,
  List.map link
    (allScored
       (List.fold_left
          (fun cs l =>
             let '(c, score) := classify l in
             pushTo cs c {| link := l; priority := score |})
          links cs))
  ≡ₚ List.map link (allScored cs) ++ links.
Proof.
  induction links as [|l links IH]; intros cs; cbn [List.fold_left].
  - rewrite app_nil_r. reflexivity.
  - rewrite IH. destruct (classify l) as [c score].
    rewrite allScored_pushTo, List.map_app. cbn [List.map link].
    rewrite <- app_assoc. reflexivity.
Qed.

Lemma categorizeUrls_partitions_aux (links : list Link) :
  List.map link (allScored (categorizeUrls links)) ≡ₚ links.
Proof. unfold categorizeUrls. rewrite categorizeFold_perm. reflexivity. Qed.

(** X12: categorizeUrls puts every input link into exactly one of the five
    categories: the links of the five lists together are the input links,
    none lost, none repeated. *)
Theorem categorizeUrls_partitions (links : list Link) :
  List.map link (allScored (categorizeUrls links)) ≡ₚ links.
Proof. exact (categorizeUrls_partitions_aux links). Qed.

Lemma categorizeFold_scores links : forall cs,
  Forall (fun s => priority s = 0) (other cs) ->
  Forall scoredWithin (company cs ++ blog cs ++ docs cs ++ ecommerce cs) ->
  let cs' :=
    List.fold_left
      (fun cs l =>
         let '(c, score) := classify l in
         pushTo cs c {| link := l; priority := score |})
      links cs in
  Forall (fun s => priority s = 0) (other cs') /\
  Forall scoredWithin (company cs' ++ blog cs' ++ docs cs' ++ ecommerce cs').
Proof.
  induction links as [|l links IH]; intros cs Ho Hc; cbn [List.fold_left].
  - auto.
  - destruct (classify_spec l) as [Hiff Hle].
    destruct (classify l) as [c score]. cbn [fst snd] in Hiff, Hle.
    assert (Hs : c <> Other -> scoredWithin {| link := l; priority := score |}).
    { intros Hc'. split; cbn [priority]; [|exact Hle].
      destruct score; [|lia]. destruct Hiff as [_ Hz]. elim Hc'. auto. }
    rewrite !Forall_app in Hc. destruct Hc as (H1 & H2 & H3 & H4).
    apply IH.
    + destruct c; cbn [pushTo other]; try exact Ho.
      apply Forall_app. split; [exact Ho|].
      constructor; [|constructor]. cbn [priority]. tauto.
    + destruct c; cbn [pushTo company blog docs ecommerce];
        rewrite !Forall_app; repeat split; try assumption;
        (constructor; [apply Hs; discriminate|constructor]).
Qed.

(** X13: in the result of categorizeUrls every link filed under "other"
    has priority 0, and every link filed under company, blog, docs or
    ecommerce has a priority between 1 and 205. *)
Theorem categorizeUrls_priorities (links : list Link) :
  Forall (fun s => priority s = 0) (other (categorizeUrls links)) /\
  Forall scoredWithin
    (company (categorizeUrls links) ++ blog (categorizeUrls links)
     ++ docs (categorizeUrls links) ++ ecommerce (categorizeUrls links)).
Proof.
  unfold categorizeUrls. apply categorizeFold_scores; cbn; constructor.
Qed.

(** X15: the URLs picked for scraping, selectTopUrls(categorizeUrls(links), n),
    are at most 5 n, at most as many as the input links, and each of them is
    one of the input links. *)
Theorem selected_urls_bounded (links : list Link) (n : nat) :
  let selected := selectTopUrls (categorizeUrls links) n in
  List.length selected <= 5 * n /\
  List.length selected <= List.length links /\
  List.map link selected ⊆ links.
Proof.
  cbv zeta. destruct (selectTopUrls_bounds (categorizeUrls links) n) as (H1 & H2 & H3).
  split; [exact H1|]. split.
  - rewrite <- (Permutation_length (categorizeUrls_partitions_aux links)).
    rewrite length_map. exact H2.
  - intros l Hl. apply list_elem_of_fmap in Hl as (s & -> & Hs).
    rewrite <- (categorizeUrls_partitions_aux links).
    apply list_elem_of_fmap. exists s. split; [reflexivity|]. apply H3, Hs.
Qed.

End WithUrls.
End CategorizeFacts.

(** ** Signed requests and the webhook route *)

Module SignatureFacts.
Import Js Db Verify VerifyFacts CleanupFacts Worker.

Lemma split_signed_junk `{HmacApi} secret body junk :
  split "=" (signedHeader secret body +:+ String "=" junk)
  = "sha256" :: expectedSignature secret body :: split "=" junk.
Proof.
  unfold signedHeader.
  change (("sha256=" +:+ expectedSignature secret body) +:+ String "=" junk)
    with ("sha256" +:+ String "="
            (expectedSignature secret body +:+ String "=" junk)).
  rewrite split_append by reflexivity.
  rewrite split_append by apply hexOf_no_eq. reflexivity.
Qed.

(** X16: a request whose header is "sha256=" followed by the hexadecimal
    HMAC of its body is accepted, and its body returned, exactly when the
    secret is not empty; what follows a second "=" in the header is
    ignored. *)
Theorem signed_request_round_trip `{HmacApi} (secret body junk : string) :
  verifyWebhookSignature
    {| signatureHeader := Some (signedHeader secret body); requestBody := body |}
    secret
  = (if isEmpty secret then (false, "") else (true, body)) /\
  verifyWebhookSignature
    {| signatureHeader := Some (signedHeader secret body +:+ String "=" junk);
       requestBody := body |}
    secret
  = (if isEmpty secret then (false, "") else (true, body)).
Proof.
  split; unfold verifyWebhookSignature; cbn [signatureHeader requestBody].
  - rewrite split_signedHeader.
    change (isEmpty (signedHeader secret body)) with false.
    cbn [negb String.eqb]. destruct (isEmpty secret); [reflexivity|].
    rewrite String.eqb_refl, Nat.eqb_refl. reflexivity.
  - rewrite split_signed_junk.
    change (isEmpty (signedHeader secret body +:+ String "=" junk)) with false.
    cbn [negb String.eqb]. destruct (isEmpty secret); [reflexivity|].
    rewrite String.eqb_refl, Nat.eqb_refl. reflexivity.
Qed.

(** X17: verifyWebhookSignature accepts a request exactly when the secret is
    not empty, the part of the header before the first "=" is "sha256" and
    the part after it (up to a second "=") is the hexadecimal HMAC of the
    body; the text it returns is the body of the request, or empty when the
    request is rejected before the body is read. *)
Theorem verification_accepts_exactly `{HmacApi} (request : Request)
    (secret : string) :
  (fst (verifyWebhookSignature request secret) = true
   <-> carriesSignature request secret) /\
  (snd (verifyWebhookSignature request secret) = requestBody request
   \/ verifyWebhookSignature request secret = (false, "")).
Proof.
  split; [apply verify_accepts_iff|].
  unfold verifyWebhookSignature, rejectedRequest.
  repeat match goal with
  | |- context [match ?x with _ => _ end] => destruct x; auto
  end.
Qed.

(** X18: changing one byte of the header of a signed request, whichever
    byte, makes verification fail. *)
Theorem tampered_header_rejected `{HmacApi} (body secret header' : string) :
  oneByteChanged (signedHeader secret body) header' ->
  fst (verifyWebhookSignature
         {| signatureHeader := Some header'; requestBody := body |} secret)
  = false.
Proof. apply verify_changed_signature. Qed.

Lemma tampered_header_rejected_witness :
  oneByteChanged (signedHeader (H := fun key message => message) "key" "hi")
    "sha256=6868" /\
  fst (verifyWebhookSignature (H := fun key message => message)
         {| signatureHeader := Some "sha256=6868"; requestBody := "hi"%string |}
         "key")
  = false.
Proof.
  assert (Hchanged :
    oneByteChanged (signedHeader (H := fun key message => message) "key" "hi")
      "sha256=6868").
  { exists "sha256=686", "9"%char, "8"%char, "". split; [discriminate|].
    split; reflexivity. }
  split; [exact Hchanged|].
  exact (tampered_header_rejected (H := fun key message => message)
           "hi" "key" "sha256=6868" Hchanged).
Defined.

(** X19: handleWebhook answers 401 and leaves the database and the bucket
    as they are unless the request carries the HMAC of its body under the
    configured secret. *)
Theorem handleWebhook_requires_signature `{UrlApi} `{HmacApi} `{EventJson}
    (rt : Runtime) (w : World) (request : Request) (env : Secrets) :
  handleWebhook rt w request env = (unauthorized, w)
  \/ carriesSignature request (webhookSecretOf env).
Proof.
  unfold handleWebhook.
  destruct (verifyWebhookSignature request (webhookSecretOf env))
    as [isValid text] eqn:E.
  destruct isValid; [right|left; reflexivity].
  apply verify_accepts_iff. rewrite E. reflexivity.
Qed.

End SignatureFacts.

(** ** What a webhook event does to the tracked URLs *)

Module HandlerFacts.
Import Js Db Webhook WorldFacts.

Lemma sameUrlRow_brand brand url r : sameUrlRow brand url r = true -> u_brand_id r = brand.
Proof.
  unfold sameUrlRow. intros E. apply andb_true_iff in E as [E _].
  apply String.eqb_eq, E.
Qed.

Lemma pendingUrl_brand brand r : pendingUrl brand r = true -> u_brand_id r = brand.
Proof.
  unfold pendingUrl. intros E. apply andb_true_iff in E as [E _].
  apply String.eqb_eq, E.
Qed.

Lemma kept_same brand rows w w' :
  urlsOf w' = urlsOf w -> keptIn brand rows w -> keptIn brand rows w'.
Proof. unfold keptIn. intros ->. auto. Qed.

Lemma kept_updateBrandUrls brand rows w s p f :
  (forall r, p r = true -> u_brand_id r = brand) ->
  (forall r, u_brand_id (f r) = u_brand_id r /\ u_url (f r) = u_url r /\
             u_mapping_id (f r) = u_mapping_id r /\
             u_category (f r) = u_category r /\ u_priority (f r) = u_priority r) ->
  keptIn brand rows w -> keptIn brand rows (updateBrandUrls w s p f).
Proof.
  intros Hp Hf Hw. unfold keptIn.
  destruct (updateBrandUrls_urls w s p f) as [-> | ->]; [exact Hw|].
  unfold updateWhere. apply Forall2_fmap_r.
  eapply Forall2_impl; [exact Hw|].
  intros r0 r (H1 & H2 & H3 & H4 & H5 & H6). unfold compose, rowKept.
  destruct (p r) eqn:E; [|repeat split; assumption].
  destruct (Hf r) as (F1 & F2 & F3 & F4 & F5).
  repeat split; try congruence.
  intros Hb. exfalso. apply Hb. f_equal. rewrite <- H1. symmetry. apply Hp, E.
Qed.


Ltac kept_clock H :=
  match goal with
  | |- context [readClock ?rt ?w] =>
      let now := fresh "now" in
      let w1 := fresh "w" in
      let E := fresh "E" in
      let H1 := fresh "Hk" in
      destruct (readClock rt w) as [now w1] eqn:E;
      assert (H1 : keptIn _ _ w1)
        by (apply (f_equal snd) in E; cbn [snd] in E; subst w1;
            eapply kept_same; [reflexivity|exact H]);
      clear E
  end.

Ltac kept_update :=
  apply kept_updateBrandUrls;
  [ first [apply sameUrlRow_brand | apply pendingUrl_brand]
  | intros; repeat split; reflexivity
  | try assumption ].

Lemma kept_uploadPageToR2 `{UrlApi} brand rows rt w page domainName :
  keptIn brand rows w -> keptIn brand rows (uploadPageToR2 rt w page brand domainName).
Proof.
  intros Hw. unfold uploadPageToR2.
  destruct (pageUrl page) as [url|]; [|exact Hw].
  kept_clock Hw.
  match goal with
  | |- context [updateBrandUrls ?a "uploading" ?p ?f] =>
      assert (Hu : keptIn brand rows (updateBrandUrls a "uploading" p f))
        by kept_update;
      set (wu := updateBrandUrls a "uploading" p f) in *
  end.
  destruct (R2.uploadBrandContent _ _ _) as [result bucket1].
  assert (Hb : keptIn brand rows (withBucket wu bucket1))
    by (eapply kept_same; [reflexivity|exact Hu]).
  destruct result as [uploadResult|t]; [|exact Hb].
  destruct (R2.results uploadResult) as [|first rest].
  - kept_update.
  - destruct (R2.resp_success uploadResult && R2.res_success first).
    + kept_clock Hb. kept_update.
    + kept_update.
Qed.

Lemma rowKept_refl b r : rowKept b r r.
Proof. repeat split; reflexivity. Qed.

(** X20: whatever the event and whichever database calls fail, the handler
    neither adds nor removes a brand_urls row, keeps brand_id, url,
    mapping_id, category and priority of every row, and leaves the rows of
    every brand other than the one the event names exactly as they were. *)
Theorem handler_touches_own_brand `{UrlApi} (rt : Runtime) (w : World)
    (event : FirecrawlWebhookEvent) :
  Forall2 (rowKept (eventBrand event)) (urlsOf w)
    (urlsOf (snd (handleFirecrawlWebhook rt w event))).
Proof.
  assert (Hrefl : forall b, Forall2 (rowKept b) (urlsOf w) (urlsOf w)).
  { intros b. apply Forall2_same_length_lookup_2; [reflexivity|].
    intros i r r' E1 E2. rewrite E1 in E2. injection E2 as <-.
    apply rowKept_refl. }
  unfold handleFirecrawlWebhook, eventBrand.
  destruct (ev_metadata event) as [meta|]; [|apply Hrefl].
  destruct (present (brandId meta)) as [brand|]; [|apply Hrefl].
  pose proof (Hrefl (Some brand)) as Hw. fold (keptIn brand (urlsOf w) w) in Hw.
  fold (keptIn brand (urlsOf w)).
  destruct (present (domain meta)) as [domainName|]; [|exact Hw].
  destruct (oneOf (ev_type event) ["crawl.started"; "batch_scrape.started"]).
  { unfold handleJobStarted. destruct (present (mappingId meta)); [|exact Hw].
    eapply kept_same; [apply updateMappings_urls|exact Hw]. }
  destruct (oneOf (ev_type event) ["crawl.page"; "batch_scrape.page"]).
  { unfold handlePageScraped.
    destruct (ev_data event) as [[|page rest]|]; try exact Hw.
    destruct (pageUrl page) as [url|] eqn:Eurl; [|exact Hw].
    kept_clock Hw. cbn [snd].
    apply kept_uploadPageToR2. kept_update. }
  destruct (oneOf (ev_type event) ["crawl.completed"; "batch_scrape.completed"]).
  { unfold handleJobCompleted.
    assert (Hn : keptIn brand (urlsOf w) (snd (nextCall w)))
      by (eapply kept_same; [apply nextCall_urls|exact Hw]).
    destruct (nextCall w) as [selectFails w1]. cbn [snd] in Hn.
    destruct (present (mappingId meta)); [|exact Hn].
    kept_clock Hn. cbn [snd].
    eapply kept_same; [apply updateMappings_urls|assumption]. }
  destruct (String.eqb (ev_type event) "extract.completed").
  { unfold handleExtractCompleted.
    destruct (jobType meta) as [job|]; [|exact Hw].
    destruct (ev_data event) as [[|first rest]|]; try exact Hw.
    destruct (String.eqb job "brandExtraction"); [|exact Hw].
    kept_clock Hw. kept_clock Hk. cbn [snd].
    eapply kept_same; [apply updateBrands_urls|assumption]. }
  destruct (oneOf (ev_type event)
              ["crawl.failed"; "batch_scrape.failed"; "extract.failed"]);
    [|exact Hw].
  unfold handleJobFailed. cbn [snd].
  kept_update.
  destruct (present (mappingId meta)); [|exact Hw].
  kept_clock Hw. eapply kept_same; [apply updateMappings_urls|assumption].
Qed.

Lemma sameUrlRow_scraped brand url now n m r :
  sameUrlRow brand url (setUrlScraped now n m r) = sameUrlRow brand url r.
Proof. reflexivity. Qed.

Lemma sameUrlRow_uploading brand url now r :
  sameUrlRow brand url (setUrlUploading now r) = sameUrlRow brand url r.
Proof. reflexivity. Qed.

Lemma updateBrandUrls_quiet w s p f :
  dbFaults w = [] ->
  updateBrandUrls w s p f
  = {| db := withBrandUrls (db w) (updateWhere p f (brand_urls (db w)));
       bucket := bucket w; dbFaults := []; clockReads := clockReads w;
       urlStatusLog := urlStatusLog w ++ [s] |}.
Proof.
  destruct w as [d b faults reads log]. cbn. intros ->. reflexivity.
Qed.

Lemma updateMappings_quiet w p f :
  dbFaults w = [] ->
  updateMappings w p f
  = {| db := withMappings (db w) (updateWhere p f (playground_url_mappings (db w)));
       bucket := bucket w; dbFaults := []; clockReads := clockReads w;
       urlStatusLog := urlStatusLog w |}.
Proof.
  destruct w as [d b faults reads log]. cbn. intros ->. reflexivity.
Qed.

(** The upload of one item with overwrite requested: the put lands, or it
    throws and the bucket stays. *)
Lemma upload_one_overwrite `{UrlApi} (bucket : R2.Bucket) request item env :
  R2.req_content request = Some [item] ->
  R2.overwriteRequested (R2.req_options request) = true ->
  exists resp first bucket1,
    R2.uploadBrandContent bucket request env = (Returned resp, bucket1) /\
    R2.results resp = [first] /\
    ((R2.resp_success resp = true /\ R2.res_success first = true /\
      exists o, bucket1 !! R2.res_r2Key first = Some o /\
                R2.res_size first = Some (R2.obj_size o))
     \/ (R2.resp_success resp = false /\ R2.res_success first = false /\
         R2.res_error first <> None /\ bucket1 = bucket)).
Proof.
  intros Hc Ho. unfold R2.uploadBrandContent. rewrite Hc.
  change (R2.slices R2.BATCH_SIZE (R2.indexed [item])) with [[(0, item)]].
  cbn [R2.runBatches R2.runBatch List.map R2.finishAll].
  unfold R2.prepare. rewrite Ho. cbn [R2.finish R2.put_throws R2.putRequest].
  destruct (R2.putThrows (env 0)) as [t|].
  - eexists _, _, _. split; [reflexivity|]. cbn. split; [reflexivity|].
    right. repeat split; discriminate.
  - eexists _, _, _. split; [reflexivity|]. cbn. split; [reflexivity|].
    left. split; [reflexivity|]. split; [reflexivity|].
    eexists. rewrite lookup_insert_eq. split; reflexivity.
Qed.

(** X21: when the database calls succeed, a page event leaves every row of
    the page (same brand and URL) either uploaded, with the key and the size
    of an object that is in the bucket, or failed with a message and the
    bucket unchanged; every other row is left as it was. *)
Theorem page_event_settles_row `{UrlApi} (rt : Runtime) (w : World)
    (event : FirecrawlWebhookEvent) (meta : EventMetadata)
    (brand domainName url : string) (page : DataItem) (rest : list DataItem) :
  dbFaults w = [] ->
  ev_metadata event = Some meta ->
  present (brandId meta) = Some brand ->
  present (domain meta) = Some domainName ->
  ev_type event = "crawl.page" \/ ev_type event = "batch_scrape.page" ->
  ev_data event = Some (page :: rest) ->
  pageUrl page = Some url ->
  let after := snd (handleFirecrawlWebhook rt w event) in
  Forall2
    (fun r r' => if sameUrlRow brand url r then pageSettled w after r' else r' = r)
    (urlsOf w) (urlsOf after).
Proof.
  intros Hq Hmeta Hbrand Hdomain Htype Hdata Hurl. cbv zeta.
  unfold handleFirecrawlWebhook. rewrite Hmeta, Hbrand, Hdomain.
  assert (Hpage : oneOf (ev_type event) ["crawl.started"; "batch_scrape.started"] = false
                  /\ oneOf (ev_type event) ["crawl.page"; "batch_scrape.page"] = true)
    by (destruct Htype as [-> | ->]; split; reflexivity).
  destruct Hpage as [-> ->].
  unfold handlePageScraped. rewrite Hdata, Hurl.
  unfold uploadPageToR2. rewrite Hurl.
  destruct w as [d b faults reads log]. cbn [dbFaults] in Hq. subst faults.
  unfold readClock. cbn [db Db.bucket dbFaults clockReads urlStatusLog].
  rewrite updateBrandUrls_quiet by reflexivity.
  cbn [db Db.bucket dbFaults clockReads urlStatusLog].
  rewrite updateBrandUrls_quiet by reflexivity.
  cbn [db Db.bucket dbFaults clockReads urlStatusLog snd].
  match goal with
  | |- context [R2.uploadBrandContent ?bk ?rq ?ev] =>
      destruct (upload_one_overwrite bk rq (pageContent page url) ev
                  eq_refl eq_refl)
        as (resp & first & bucket1 & -> & Hres & Hcases)
  end.
  rewrite Hres.
  destruct Hcases as [(-> & -> & o & Hkey & Hsize) | (-> & -> & Herr & ->)];
    cbn [andb withBucket db Db.bucket dbFaults clockReads urlStatusLog];
    rewrite updateBrandUrls_quiet by reflexivity;
    unfold urlsOf, pageSettled;
    cbn [withBucket db Db.bucket dbFaults clockReads urlStatusLog brand_urls
         withBrandUrls];
    unfold updateWhere; rewrite !List.map_map; apply Forall2_fmap_r;
    apply Forall_Forall2_diag, Forall_forall; intros r _; unfold compose;
    cbv beta;
    (destruct (sameUrlRow brand url r) eqn:E;
     [|repeat (rewrite E; cbv iota); reflexivity]);
    repeat first [ rewrite sameUrlRow_scraped | rewrite sameUrlRow_uploading
                 | rewrite E | progress cbv iota ].
  - left. split; [reflexivity|]. exists (R2.res_r2Key first), o.
    cbn [setUrlUploaded u_r2_key u_content_size]. rewrite Hsize. auto.
  - right. split; [reflexivity|]. split; [discriminate|reflexivity].
Qed.


Lemma page_event_settles_row_witness :
  let after :=
    snd (handleFirecrawlWebhook (H := plainUrl) Samples.runtime Samples.world
           Samples.pageEvent) in
  Forall2
    (fun r r' =>
       if sameUrlRow "b1" "https://x.com/a" r
       then pageSettled Samples.world after r' else r' = r)
    (urlsOf Samples.world) (urlsOf after).
Proof.
  apply (page_event_settles_row (H := plainUrl) Samples.runtime Samples.world
           Samples.pageEvent Samples.runMetadata "b1" "x.com" "https://x.com/a"
           Samples.scrapedPage []); try reflexivity.
  right. reflexivity.
Defined.

(** The run of the witness: the row of the page ends uploaded. *)
Example page_event_run :
  List.map (fun r => (u_status r, u_r2_key r, u_content_size r))
    (urlsOf (snd (handleFirecrawlWebhook (H := plainUrl) Samples.runtime
                    Samples.world Samples.pageEvent)))
  = [("uploaded", Some "brands/x.com/content/pages/a-1000.md", 363)].
Proof. vm_compute. reflexivity. Qed.


End HandlerFacts.
